(** * gdrive: the MCP server's OAuth 2.1 plane, bearer middleware and Drive tools

    A shallow embedding of the parts of [internal/mcp/oauth2.go] (with
    the server and its middleware), [internal/mcp/tools.go],
    [internal/drive/service.go] and [internal/drive/activity.go] that the
    specification's testable properties talk about, followed by the
    vocabulary of the properties and by the properties themselves.

    Conventions.  Go strings are byte strings and are modelled by
    [string]; [time.Time] and [time.Duration] are integers counting
    nanoseconds; Go maps are [gmap]s; a handler that mutates the server
    is a function from the server state to the new state and the
    response; a call to Google is the application of a function that
    stands for the upstream, its failure being [None] or the text of
    the error. *)

From Stdlib Require Import ZArith QArith List Ascii String Lia Bool.
From stdpp Require Import base option strings list gmap.

Local Open Scope Z_scope.

(* ===================================================================== *)
(** * Part I: definitions *)
(* ===================================================================== *)

(** ** crypto/sha256 and encoding/base64, as used by [validatePKCE] *)

Module Sha256.

Definition mask32 : Z := 0xFFFFFFFF.

Definition add32 (a b : Z) : Z := Z.land (a + b) mask32.

Definition rotr (n x : Z) : Z :=
  Z.lor (Z.shiftr x n) (Z.land (Z.shiftl x (32 - n)) mask32).

Definition not32 (x : Z) : Z := Z.lxor x mask32.

Definition Ch (x y z : Z) : Z := Z.lxor (Z.land x y) (Z.land (not32 x) z).
Definition Maj (x y z : Z) : Z :=
  Z.lxor (Z.lxor (Z.land x y) (Z.land x z)) (Z.land y z).
Definition bsig0 (x : Z) : Z := Z.lxor (Z.lxor (rotr 2 x) (rotr 13 x)) (rotr 22 x).
Definition bsig1 (x : Z) : Z := Z.lxor (Z.lxor (rotr 6 x) (rotr 11 x)) (rotr 25 x).
Definition ssig0 (x : Z) : Z := Z.lxor (Z.lxor (rotr 7 x) (rotr 18 x)) (Z.shiftr x 3).
Definition ssig1 (x : Z) : Z := Z.lxor (Z.lxor (rotr 17 x) (rotr 19 x)) (Z.shiftr x 10).

(** The constants of FIPS 180-4 are fractional parts of roots of the
    first primes: 32 bits of the cube roots of the first 64 for [K], 32
    bits of the square roots of the first 8 for [H0]. *)
Definition primes : list Z :=
  [ 2; 3; 5; 7; 11; 13; 17; 19; 23; 29; 31; 37; 41; 43; 47; 53;
    59; 61; 67; 71; 73; 79; 83; 89; 97; 101; 103; 107; 109; 113; 127; 131;
    137; 139; 149; 151; 157; 163; 167; 173; 179; 181; 191; 193; 197; 199; 211; 223;
    227; 229; 233; 239; 241; 251; 257; 263; 269; 271; 277; 281; 283; 293; 307; 311 ].

(** The integer cube root, by bisection between [lo] and [hi]. *)
Fixpoint bisect (fuel : nat) (n lo hi : Z) : Z :=
  match fuel with
  | O => lo
  | S fuel' =>
      if hi - lo <=? 1 then lo
      else
        let mid := (lo + hi) / 2 in
        if mid * mid * mid <=? n then bisect fuel' n mid hi else bisect fuel' n lo mid
  end.

Definition cbrt (n : Z) : Z := bisect 64 n 0 (2 ^ 36).

Definition K : list Z :=
  Eval vm_compute in map (fun p => Z.land (cbrt (p * 2 ^ 96)) mask32) primes.

Definition H0 : list Z :=
  Eval vm_compute in map (fun p => Z.land (Z.sqrt (p * 2 ^ 64)) mask32) (firstn 8 primes).

(** Padding: a [0x80] byte, zero bytes up to 56 modulo 64, and the bit
    length of the message as a 64-bit big-endian integer. *)
Fixpoint be_bytes (n : nat) (x : Z) : list Z :=
  match n with
  | O => []
  | S n' => Z.land (Z.shiftr x (8 * Z.of_nat n')) 0xFF :: be_bytes n' x
  end.

Definition pad (msg : list Z) : list Z :=
  let len := Z.of_nat (length msg) in
  let zeros := Z.to_nat ((55 - len) mod 64) in
  msg ++ 0x80 :: repeat 0 zeros ++ be_bytes 8 (8 * len).

(** Big-endian 32-bit words of a byte sequence. *)
Fixpoint words (bs : list Z) : list Z :=
  match bs with
  | a :: b :: c :: d :: r =>
      (Z.shiftl a 24 + Z.shiftl b 16 + Z.shiftl c 8 + d) :: words r
  | _ => []
  end.

(** The message schedule, kept newest-first while it is extended. *)
Fixpoint extend (n : nat) (rw : list Z) : list Z :=
  match n with
  | O => rw
  | S n' =>
      let w := add32 (add32 (ssig1 (nth 1 rw 0)) (nth 6 rw 0))
                     (add32 (ssig0 (nth 14 rw 0)) (nth 15 rw 0)) in
      extend n' (w :: rw)
  end.

Definition schedule (block : list Z) : list Z := rev (extend 48 (rev block)).

Record regs := Regs { ra : Z; rb : Z; rc : Z; rd : Z; re : Z; rf : Z; rg : Z; rh : Z }.

Definition round (s : regs) (kw : Z * Z) : regs :=
  let t1 := add32 (add32 (add32 (rh s) (bsig1 (re s))) (Ch (re s) (rf s) (rg s)))
                  (add32 (fst kw) (snd kw)) in
  let t2 := add32 (bsig0 (ra s)) (Maj (ra s) (rb s) (rc s)) in
  Regs (add32 t1 t2) (ra s) (rb s) (rc s) (add32 (rd s) t1) (re s) (rf s) (rg s).

Definition of_list (h : list Z) : regs :=
  Regs (nth 0 h 0) (nth 1 h 0) (nth 2 h 0) (nth 3 h 0)
       (nth 4 h 0) (nth 5 h 0) (nth 6 h 0) (nth 7 h 0).

Definition to_list (s : regs) : list Z :=
  [ra s; rb s; rc s; rd s; re s; rf s; rg s; rh s].

Definition compress (h : list Z) (block : list Z) : list Z :=
  let s := fold_left round (combine K (schedule block)) (of_list h) in
  map (fun p => add32 (fst p) (snd p)) (combine h (to_list s)).

(** The 16-word blocks of the padded message; [n] bounds their number. *)
Fixpoint blocks (n : nat) (ws : list Z) : list (list Z) :=
  match n with
  | O => []
  | S n' =>
      match ws with
      | [] => []
      | _ => firstn 16 ws :: blocks n' (skipn 16 ws)
      end
  end.

(** [sha256.Sum256]: the 32 bytes of the digest. *)
Definition Sum256 (msg : list Z) : list Z :=
  let ws := words (pad msg) in
  let h := fold_left compress (blocks (length ws) ws) H0 in
  flat_map (be_bytes 4) h.

End Sha256.

Module Base64.

Definition alphabet : string :=
  "ABCDEFGHIJKLMNOPQRSTUVWXYZabcdefghijklmnopqrstuvwxyz0123456789-_".

Definition digit (i : Z) : string :=
  match String.get (Z.to_nat i) alphabet with
  | Some c => String c EmptyString
  | None => EmptyString
  end.

(** [base64.RawURLEncoding.EncodeToString]: URL alphabet, no padding. *)
Fixpoint RawURLEncodeToString (bs : list Z) : string :=
  match bs with
  | a :: b :: c :: r =>
      let v := Z.shiftl a 16 + Z.shiftl b 8 + c in
      digit (Z.land (Z.shiftr v 18) 63) ++ digit (Z.land (Z.shiftr v 12) 63) ++
      digit (Z.land (Z.shiftr v 6) 63) ++ digit (Z.land v 63) ++
      RawURLEncodeToString r
  | [a; b] =>
      let v := Z.shiftl a 16 + Z.shiftl b 8 in
      digit (Z.land (Z.shiftr v 18) 63) ++ digit (Z.land (Z.shiftr v 12) 63) ++
      digit (Z.land (Z.shiftr v 6) 63)
  | [a] =>
      let v := Z.shiftl a 16 in
      digit (Z.land (Z.shiftr v 18) 63) ++ digit (Z.land (Z.shiftr v 12) 63)
  | [] => EmptyString
  end%string.

End Base64.

(** [[]byte(s)] for a Go string. *)
Definition bytes_of_string (s : string) : list Z :=
  map (fun c => Z.of_N (N_of_ascii c)) (list_ascii_of_string s).

(** ** Package [strings] *)

Definition HasPrefix (s pre : string) : bool := String.prefix pre s.

Definition TrimPrefix (s pre : string) : string :=
  if HasPrefix s pre
  then String.substring (String.length pre) (String.length s - String.length pre) s
  else s.

Fixpoint Contains (s sub : string) : bool :=
  HasPrefix s sub ||
  match s with
  | EmptyString => false
  | String _ s' => Contains s' sub
  end.

Definition is_empty (s : string) : bool := String.eqb s EmptyString.

(** ** [internal/mcp/oauth2.go] *)

Module OAuth2.

Definition second : Z := 1000000000.
Definition minute : Z := 60 * second.
Definition stateTTL : Z := 10 * minute.
Definition codeTTL : Z := 10 * minute.

Record OAuthCredentials := mkCreds {
  ClientID : string;
  ClientSecret : string }.

Record authState := mkAuthState {
  as_ClientID : string;
  as_RedirectURI : string;
  as_CodeChallenge : string;
  as_CodeMethod : string;
  as_ClientState : string;
  as_CreatedAt : Z }.

(** [oauth2.Token]; a zero [Expiry] is [None]. *)
Record Token := mkToken {
  AccessToken : string;
  RefreshToken : string;
  Expiry : option Z }.

Record authCode := mkAuthCode {
  ac_Code : string;
  ac_ClientID : string;
  ac_RedirectURI : string;
  ac_CodeChallenge : string;
  ac_CodeMethod : string;
  ac_GoogleToken : Token;
  ac_CreatedAt : Z }.

(** The [oauth2.Config] shared by every request. *)
Record Config := mkConfig {
  cfg_ClientID : string;
  cfg_ClientSecret : string;
  cfg_RedirectURL : string }.

Record OAuth2Server := mkServer {
  baseURL : string;
  oauthConfig : Config;
  states : gmap string authState;
  codes : gmap string authCode }.

Definition set_states (s : OAuth2Server) (m : gmap string authState) :=
  mkServer (baseURL s) (oauthConfig s) m (codes s).
Definition set_codes (s : OAuth2Server) (m : gmap string authCode) :=
  mkServer (baseURL s) (oauthConfig s) (states s) m.
Definition set_RedirectURL (s : OAuth2Server) (u : string) :=
  mkServer (baseURL s)
           (mkConfig (cfg_ClientID (oauthConfig s)) (cfg_ClientSecret (oauthConfig s)) u)
           (states s) (codes s).

(** What a handler writes to the [http.ResponseWriter]. *)
Inductive response :=
| OAuthError (status : Z) (errCode description : string)
| Redirect (status : Z) (url : string)
| SuccessPage (url : string)
| TokenResponse (access_token token_type : string)
                (refresh_token : option string) (expires_in : option Z).

Definition writeOAuthError (status : Z) (errCode description : string) : response :=
  OAuthError status errCode description.

(** [validatePKCE] *)
Definition validatePKCE (verifier challenge method : string) : bool :=
  if negb (String.eqb method "S256") then false
  else
    let hash := Sha256.Sum256 (bytes_of_string verifier) in
    let computed := Base64.RawURLEncodeToString hash in
    String.eqb computed challenge.

(** *** The critical sections

    Every access to [states] and [codes] happens between [s.mu.Lock()]
    and [s.mu.Unlock()]; each such block is one function here. *)

(** [HandleAuthorize], lines 204-213. *)
Definition storeState (k : string) (st : authState) (s : OAuth2Server) : OAuth2Server :=
  set_states s (<[k := st]> (states s)).

(** [HandleCallback], lines 244-249: look the state up and delete it. *)
Definition lookupDeleteState (k : string) (s : OAuth2Server)
  : OAuth2Server * option authState :=
  match states s !! k with
  | Some st => (set_states s (delete k (states s)), Some st)
  | None => (s, None)
  end.

(** [HandleCallback], lines 278-288. *)
Definition storeCode (k : string) (c : authCode) (s : OAuth2Server) : OAuth2Server :=
  set_codes s (<[k := c]> (codes s)).

(** [handleAuthorizationCodeGrant], lines 353-358. *)
Definition lookupDeleteCode (k : string) (s : OAuth2Server)
  : OAuth2Server * option authCode :=
  match codes s !! k with
  | Some c => (set_codes s (delete k (codes s)), Some c)
  | None => (s, None)
  end.

(** One tick of [cleanupLoop]. *)
Definition cleanup (now : Z) (s : OAuth2Server) : OAuth2Server :=
  let st := filter (fun kv => negb (now - as_CreatedAt (snd kv) >? stateTTL)) (states s) in
  let cd := filter (fun kv => negb (now - ac_CreatedAt (snd kv) >? codeTTL)) (codes s) in
  mkServer (baseURL s) (oauthConfig s) st cd.

(** *** [HandleCallback] *)

Record callbackRequest := mkCallbackReq {
  q_error : string;
  q_code : string;
  q_state : string;
  h_Accept : string }.

(** What the handler reads from outside the server value: the clock at
    the TTL check and at the creation of the code, the answer of
    Google's token endpoint to [Exchange], and the token drawn by
    [generateToken]. *)
Record callbackEnv := mkCallbackEnv {
  now_check : Z;
  Exchange : string -> option Token;
  ourCode : string;
  now_store : Z }.

(** Lines 256-317, run once the state was found. *)
Definition callbackFound (e : callbackEnv) (r : callbackRequest)
           (storedState : authState) (s : OAuth2Server) : OAuth2Server * response :=
  if now_check e - as_CreatedAt storedState >? stateTTL then
    (s, writeOAuthError 400 "invalid_request" "Invalid or expired state")
  else
    let s := set_RedirectURL s (baseURL s ++ "/oauth/callback") in
    match Exchange e (q_code r) with
    | None =>
        (s, writeOAuthError 500 "server_error" "Failed to exchange authorization code")
    | Some googleToken =>
        let s := storeCode (ourCode e)
                   (mkAuthCode (ourCode e) (as_ClientID storedState)
                      (as_RedirectURI storedState) (as_CodeChallenge storedState)
                      (as_CodeMethod storedState) googleToken (now_store e)) s in
        let redirectURL := as_RedirectURI storedState in
        let sep := if Contains redirectURL "?" then "&" else "?" in
        let redirectURL := redirectURL ++ sep ++ "code=" ++ ourCode e in
        let redirectURL :=
          if negb (is_empty (as_ClientState storedState))
          then redirectURL ++ "&state=" ++ as_ClientState storedState
          else redirectURL in
        if Contains (h_Accept r) "text/html"
        then (s, SuccessPage redirectURL)
        else (s, Redirect 302 redirectURL)
    end%string.

Definition HandleCallback (e : callbackEnv) (r : callbackRequest) (s : OAuth2Server)
  : OAuth2Server * response :=
  if negb (is_empty (q_error r)) then
    (s, writeOAuthError 400 (q_error r) "Authorization denied by user")
  else if is_empty (q_code r) || is_empty (q_state r) then
    (s, writeOAuthError 400 "invalid_request" "Missing code or state")
  else
    match lookupDeleteState (q_state r) s with
    | (s, None) => (s, writeOAuthError 400 "invalid_request" "Invalid or expired state")
    | (s, Some storedState) => callbackFound e r storedState s
    end.

(** *** [handleAuthorizationCodeGrant] *)

Record tokenRequest := mkTokenReq {
  f_code : string;
  f_code_verifier : string }.

(** Lines 365-404, run once the code was found.  [expires_in] is the
    whole number of seconds until the expiry. *)
Definition grantFound (now : Z) (r : tokenRequest) (storedCode : authCode) : response :=
  if now - ac_CreatedAt storedCode >? codeTTL then
    writeOAuthError 400 "invalid_grant" "Invalid or expired authorization code"
  else if negb (is_empty (ac_CodeChallenge storedCode)) && is_empty (f_code_verifier r) then
    writeOAuthError 400 "invalid_grant" "Missing code_verifier"
  else if negb (is_empty (ac_CodeChallenge storedCode)) &&
          negb (validatePKCE (f_code_verifier r) (ac_CodeChallenge storedCode)
                             (ac_CodeMethod storedCode)) then
    writeOAuthError 400 "invalid_grant" "Invalid code_verifier"
  else
    let tok := ac_GoogleToken storedCode in
    TokenResponse (AccessToken tok) "Bearer"
      (if negb (is_empty (RefreshToken tok)) then Some (RefreshToken tok) else None)
      (match Expiry tok with
       | Some t => let expiresIn := Z.quot (t - now) second in
                   if expiresIn >? 0 then Some expiresIn else None
       | None => None
       end).

Definition handleAuthorizationCodeGrant (now : Z) (r : tokenRequest) (s : OAuth2Server)
  : OAuth2Server * response :=
  if is_empty (f_code r) then
    (s, writeOAuthError 400 "invalid_request" "Missing code")
  else
    match lookupDeleteCode (f_code r) s with
    | (s, None) =>
        (s, writeOAuthError 400 "invalid_grant" "Invalid or expired authorization code")
    | (s, Some storedCode) => (s, grantFound now r storedCode)
    end.

(** [ValidateAccessToken] *)
Definition ValidateAccessToken (s : OAuth2Server) (accessToken : string)
  : option (Config * Token) :=
  if is_empty accessToken then None
  else Some (oauthConfig s, mkToken accessToken EmptyString None).

(** *** Concurrent requests

    Every HTTP request runs on its own goroutine, and so does
    [cleanupLoop].  Between two acquisitions of [s.mu] a goroutine works
    on its locals only, so an execution of the server is an interleaving
    of steps, each step being one critical section together with the
    local code around it.  A goroutine is recorded by the point it has
    reached. *)

Inductive goroutine :=
| Authorize (internalState : string) (st : authState)
    (* [HandleAuthorize] before line 204 *)
| Callback (e : callbackEnv) (r : callbackRequest)
    (* [HandleCallback] at its entry *)
| CallbackFound (e : callbackEnv) (r : callbackRequest) (storedState : authState)
    (* [HandleCallback] after line 249, [exists] being true *)
| CallbackDone (r : callbackRequest) (found : bool) (resp : response)
| TokenGrant (now : Z) (r : tokenRequest)
    (* [handleAuthorizationCodeGrant] at its entry *)
| TokenDone (r : tokenRequest) (found : bool) (resp : response)
| Cleanup (now : Z)
    (* one tick of [cleanupLoop] *)
| Idle.

Definition step (g : goroutine) (s : OAuth2Server) : OAuth2Server * goroutine :=
  match g with
  | Authorize k st => (storeState k st s, Idle)
  | Callback e r =>
      if negb (is_empty (q_error r)) then
        (s, CallbackDone r false
              (writeOAuthError 400 (q_error r) "Authorization denied by user"))
      else if is_empty (q_code r) || is_empty (q_state r) then
        (s, CallbackDone r false
              (writeOAuthError 400 "invalid_request" "Missing code or state"))
      else
        match lookupDeleteState (q_state r) s with
        | (s, None) =>
            (s, CallbackDone r false
                  (writeOAuthError 400 "invalid_request" "Invalid or expired state"))
        | (s, Some storedState) => (s, CallbackFound e r storedState)
        end
  | CallbackFound e r storedState =>
      let (s, resp) := callbackFound e r storedState s in
      (s, CallbackDone r true resp)
  | TokenGrant now r =>
      if is_empty (f_code r) then
        (s, TokenDone r false (writeOAuthError 400 "invalid_request" "Missing code"))
      else
        match lookupDeleteCode (f_code r) s with
        | (s, None) =>
            (s, TokenDone r false
                  (writeOAuthError 400 "invalid_grant"
                                   "Invalid or expired authorization code"))
        | (s, Some storedCode) => (s, TokenDone r true (grantFound now r storedCode))
        end
  | Cleanup now => (cleanup now s, Idle)
  | CallbackDone _ _ _ | TokenDone _ _ _ | Idle => (s, g)
  end.

(** The server and its goroutines; a schedule names, step after step,
    the goroutine that runs next. *)
Definition system : Type := OAuth2Server * list goroutine.

Definition run_one (i : nat) (sp : system) : system :=
  match sp.2 !! i with
  | Some g => let (s, g') := step g sp.1 in (s, <[i := g']> sp.2)
  | None => sp
  end.

Definition run (sched : list nat) (sp : system) : system :=
  fold_left (fun sp i => run_one i sp) sched sp.

(** A goroutine that has not taken a step yet. *)
Definition fresh (g : goroutine) : bool :=
  match g with
  | Authorize _ _ | Callback _ _ | TokenGrant _ _ | Cleanup _ | Idle => true
  | _ => false
  end.

Definition is_success (resp : response) : bool :=
  match resp with
  | OAuthError _ _ _ => false
  | _ => true
  end.

(** The callback goroutine quoting state [k] saw the entry present. *)
Definition sawState (k : string) (g : goroutine) : bool :=
  match g with
  | CallbackFound _ r _ => String.eqb (q_state r) k
  | CallbackDone r found _ => found && String.eqb (q_state r) k
  | _ => false
  end.

(** The callback goroutine quoting state [k] answered with the redirect
    (or the page that performs it). *)
Definition callbackSucceeded (k : string) (g : goroutine) : bool :=
  match g with
  | CallbackDone r _ resp => is_success resp && String.eqb (q_state r) k
  | _ => false
  end.

(** The goroutine is going to store state [k]: [generateToken] drew [k]
    for it. *)
Definition mintsState (k : string) (g : goroutine) : bool :=
  match g with
  | Authorize k' _ => String.eqb k' k
  | _ => false
  end.

Definition sawCode (c : string) (g : goroutine) : bool :=
  match g with
  | TokenDone r found _ => found && String.eqb (f_code r) c
  | _ => false
  end.

Definition tokenSucceeded (c : string) (g : goroutine) : bool :=
  match g with
  | TokenDone r _ resp => is_success resp && String.eqb (f_code r) c
  | _ => false
  end.

Definition mintsCode (c : string) (g : goroutine) : bool :=
  match g with
  | Callback e _ | CallbackFound e _ _ => String.eqb (ourCode e) c
  | _ => false
  end.

Definition count (P : goroutine -> bool) (pool : list goroutine) : nat :=
  length (List.filter P pool).

Definition present {A} (k : string) (m : gmap string A) : nat :=
  match m !! k with Some _ => 1%nat | None => 0%nat end.

End OAuth2.

(** ** [encoding/json], as used by [parseCredentials]

    [json.Unmarshal] first checks that its input is a JSON document and
    then stores it into the Go value.  The model starts from the parsed
    document. *)

Module Json.

#[warnings="-register-all"]
Inductive value :=
| Null
| JBool (b : bool)
| Number (q : Q)
| Str (s : string)
| Array (l : list value)
| Object (members : list (string * value)).

(** Object keys select struct fields without regard to letter case. *)
Definition upper (c : ascii) : ascii :=
  let n := nat_of_ascii c in
  if (Nat.leb 97 n && Nat.leb n 122)%bool then ascii_of_nat (n - 32) else c.

Fixpoint foldName (s : string) : string :=
  match s with
  | EmptyString => EmptyString
  | String c s' => String (upper c) (foldName s')
  end.

Definition keyIs (key field : string) : bool :=
  String.eqb (foldName key) (foldName field).

(** Storing a JSON value into a Go [string]: a JSON string is stored,
    [null] leaves the destination alone, anything else is an
    [UnmarshalTypeError] (the second component) and leaves it alone. *)
Definition intoString (v : value) (dst : string) : string * bool :=
  match v with
  | Str s => (s, true)
  | Null => (dst, true)
  | _ => (dst, false)
  end.

End Json.

Module Credentials.

Import OAuth2.

(** The anonymous struct [wrapper] of [parseCredentials]. *)
Record wrapper := mkWrapper {
  Web : OAuthCredentials;
  Installed : OAuthCredentials }.

Definition zeroCreds : OAuthCredentials := mkCreds EmptyString EmptyString.
Definition zeroWrapper : wrapper := mkWrapper zeroCreds zeroCreds.

(** Storing the members of an object into a struct with the fields
    [client_id] and [client_secret]: members are taken in order, a later
    duplicate overwrites, unknown keys are skipped, and decoding goes on
    after a type error, which is reported at the end. *)
Fixpoint intoCredsMembers (ms : list (string * Json.value)) (dst : OAuthCredentials)
  : OAuthCredentials * bool :=
  match ms with
  | [] => (dst, true)
  | (k, v) :: ms' =>
      let (dst1, ok1) :=
        if Json.keyIs k "client_id" then
          let (x, ok) := Json.intoString v (ClientID dst) in
          (mkCreds x (ClientSecret dst), ok)
        else if Json.keyIs k "client_secret" then
          let (x, ok) := Json.intoString v (ClientSecret dst) in
          (mkCreds (ClientID dst) x, ok)
        else (dst, true) in
      let (dst2, ok2) := intoCredsMembers ms' dst1 in
      (dst2, ok1 && ok2)
  end.

Definition intoCreds (v : Json.value) (dst : OAuthCredentials) : OAuthCredentials * bool :=
  match v with
  | Json.Object ms => intoCredsMembers ms dst
  | Json.Null => (dst, true)
  | _ => (dst, false)
  end.

Fixpoint intoWrapperMembers (ms : list (string * Json.value)) (dst : wrapper)
  : wrapper * bool :=
  match ms with
  | [] => (dst, true)
  | (k, v) :: ms' =>
      let (dst1, ok1) :=
        if Json.keyIs k "web" then
          let (x, ok) := intoCreds v (Web dst) in (mkWrapper x (Installed dst), ok)
        else if Json.keyIs k "installed" then
          let (x, ok) := intoCreds v (Installed dst) in (mkWrapper (Web dst) x, ok)
        else (dst, true) in
      let (dst2, ok2) := intoWrapperMembers ms' dst1 in
      (dst2, ok1 && ok2)
  end.

Definition intoWrapper (v : Json.value) (dst : wrapper) : wrapper * bool :=
  match v with
  | Json.Object ms => intoWrapperMembers ms dst
  | Json.Null => (dst, true)
  | _ => (dst, false)
  end.

Inductive credError :=
| ParseError          (* "parse credentials: ..." *)
| MissingFields.      (* "credentials missing client_id or client_secret" *)

(** [parseCredentials]; [None] stands for bytes that are not JSON. *)
Definition parseCredentials (data : option Json.value) : OAuthCredentials + credError :=
  let viaWrapper :=
    match data with
    | Some v =>
        match intoWrapper v zeroWrapper with
        | (w, true) =>
            if negb (is_empty (ClientID (Web w))) then
              Some (mkCreds (ClientID (Web w)) (ClientSecret (Web w)))
            else if negb (is_empty (ClientID (Installed w))) then
              Some (mkCreds (ClientID (Installed w)) (ClientSecret (Installed w)))
            else None
        | (_, false) => None
        end
    | None => None
    end in
  match viaWrapper with
  | Some c => inl c
  | None =>
      match data with
      | None => inr ParseError
      | Some v =>
          match intoCreds v zeroCreds with
          | (_, false) => inr ParseError
          | (creds, true) =>
              if is_empty (ClientID creds) || is_empty (ClientSecret creds)
              then inr MissingFields
              else inl creds
          end
      end
  end.

End Credentials.

(** ** [internal/mcp/server.go] *)

Module Server.

Import OAuth2.

Record ServerConfig := mkServerConfig { BaseURL : string }.

Record Server := mkSrv {
  config : ServerConfig;
  oauth2 : OAuth2Server }.

Definition dquote : string := String (ascii_of_nat 34) EmptyString.

(** The header values built by the two [fmt.Sprintf] calls. *)
Definition resourceMetadata (srv : Server) : string :=
  (BaseURL (config srv) ++ "/.well-known/oauth-protected-resource")%string.

Definition challengeMissing (srv : Server) : string :=
  ("Bearer resource_metadata=" ++ dquote ++ resourceMetadata srv ++ dquote)%string.

Definition challengeInvalid (srv : Server) : string :=
  ("Bearer error=" ++ dquote ++ "invalid_token" ++ dquote ++
   ", resource_metadata=" ++ dquote ++ resourceMetadata srv ++ dquote)%string.

Inductive outcome :=
| Rejected (status : Z) (wwwAuthenticate : string) (body : string)
| Next.     (* [next.ServeHTTP(w, r)] *)

(** [r.Header.Get]: the empty string when the header is absent. *)
Definition HeaderGet (h : option string) : string :=
  match h with Some v => v | None => EmptyString end.

(** [authMiddleware], applied to the request's [Authorization] header. *)
Definition authMiddleware (srv : Server) (authorization : option string) : outcome :=
  let authHeader := HeaderGet authorization in
  if is_empty authHeader || negb (HasPrefix authHeader "Bearer ") then
    Rejected 401 (challengeMissing srv) "Authentication required"
  else
    let accessToken := TrimPrefix authHeader "Bearer " in
    match ValidateAccessToken (oauth2 srv) accessToken with
    | None => Rejected 401 (challengeInvalid srv) "Invalid token"
    | Some _ => Next
    end.

End Server.

(** ** [internal/drive/service.go] *)

Module Drive.

(** The fields of [drive.File] that the modelled code reads or writes. *)
Record File := mkFile {
  Id : string;
  Name : string;
  MimeType : string;
  ModifiedTime : string;
  CreatedTime : string;
  Size : Z;
  WebViewLink : string;
  Owners : list (string * string);     (* display name, e-mail address *)
  Parents : list string;
  SharedWithMeTime : string;
  Trashed : bool }.

Record PathComponent := mkPathComponent {
  pc_ID : string;
  pc_Name : string;
  pc_MimeType : string }.

Definition sharedRoot : PathComponent := mkPathComponent "shared" "Shared with me" "special".
Definition myDrive : PathComponent := mkPathComponent "root" "My Drive" "special".

(** [IsFolder] *)
Definition IsFolder (item : File) : bool :=
  String.eqb (MimeType item) "application/vnd.google-apps.folder".

(** [ListFolder].  [filesList q] is the answer of [Files.List().Q(q)...Do()],
    [None] when the call fails. *)
Definition folderQuery (folderID : string) : string :=
  ("'" ++ folderID ++ "' in parents and trashed = false")%string.

Definition ListFolder (filesList : string -> option (list File)) (folderID : string)
  : option (list File) :=
  match filesList (folderQuery folderID) with
  | None => None
  | Some files => Some files
  end.

(** The loop of [GetFilePath].  [get n id] is the answer of the [n]-th
    [Files.Get(id)...Do()] of the walk, [None] when it fails.  The loop
    has no bound of its own; [fuel] bounds the number of iterations and
    [None] is returned when it runs out. *)
Fixpoint walk (fuel : nat) (get : nat -> string -> option File) (n : nat)
         (currentID : string) (path : list PathComponent) : option (list PathComponent) :=
  if is_empty currentID then Some path
  else
    match fuel with
    | O => None
    | S fuel' =>
        match get n currentID with
        | None => Some path
        | Some file =>
            let path := mkPathComponent (Id file) (Name file) (MimeType file) :: path in
            match Parents file with
            | parent :: _ => walk fuel' get (S n) parent path
            | [] =>
                if negb (is_empty (SharedWithMeTime file))
                then Some (sharedRoot :: path)
                else Some (myDrive :: path)
            end
        end
    end.

(** [GetFilePath]: the path and the error, which is always [nil]. *)
Definition GetFilePath (fuel : nat) (get : nat -> string -> option File) (fileID : string)
  : option (list PathComponent * option string) :=
  match walk fuel get 0 fileID [] with
  | Some path => Some (path, None)
  | None => None
  end.

Record FileInfo := mkFileInfo {
  fi_ID : string;
  fi_Name : string;
  fi_MimeType : string;
  fi_Size : Z;
  fi_CreatedTime : string;
  fi_ModifiedTime : string;
  fi_WebViewLink : string;
  fi_Owners : list (string * string);
  fi_Path : list PathComponent }.

(** [GetFileInfo].  [getInfo] answers the metadata request of line 543,
    [get] the requests of the walk. *)
Definition GetFileInfo (fuel : nat) (getInfo : string -> option File)
           (get : nat -> string -> option File) (fileID : string)
  : option (FileInfo + string) :=
  match getInfo fileID with
  | None => Some (inr "files.get failed"%string)
  | Some file =>
      match GetFilePath fuel get fileID with
      | None => None
      | Some (path, _) =>
          Some (inl (mkFileInfo (Id file) (Name file) (MimeType file) (Size file)
                       (CreatedTime file) (ModifiedTime file) (WebViewLink file)
                       (Owners file) path))
      end
  end.

(** The less function given to [sort.Slice] by the command-line folder
    listing ([cli.go], line 831): folders first, then by name. *)
Definition string_ltb (a b : string) : bool :=
  match String.compare a b with Lt => true | _ => false end.

Definition foldersFirstLess (a b : File) : bool :=
  if negb (Bool.eqb (IsFolder a) (IsFolder b)) then IsFolder a
  else string_ltb (Name a) (Name b).

End Drive.

(** ** [internal/drive/activity.go]: [QueryDriveActivity] *)

Module Activity.

Definition second : Z := 1000000000.
Definition maxRetries : Z := 3.
Definition baseDelay : Z := 2 * second.
Definition maxPagesPerBatch : Z := 90.

Record request := mkRequest {
  PageSize : Z;
  Filter : string;
  PageToken : string }.

(** What the query does to the outside, in order: the requests it sends,
    each with the error it got ([None] for an answer), and the time it
    sleeps. *)
Inductive event :=
| Queried (req : request) (err : option string)
| Slept (d : Z).

Record world := mkWorld {
  calls : nat;               (* requests sent so far *)
  events : list event }.

Definition sleep (d : Z) (w : world) : world :=
  mkWorld (calls w) (events w ++ [Slept d]).

(** The test of line 241 on [err.Error()]. *)
Definition isRateLimit (msg : string) : bool :=
  Contains msg "429" || Contains msg "rateLimitExceeded".

Section Query.

(** An activity as the API returns it, the [DriveActivityInfo] made of
    it by lines 264-322, and the time filter of line 214. *)
Variables activity info : Type.
Variable convert : activity -> info.
Variable timeFilter : Z -> string.

Record response := mkResponse {
  Activities : list activity;
  NextPageToken : string }.

Inductive answer :=
| Failure (msg : string)
| Success (resp : response).

Definition errorOf (ans : answer) : option string :=
  match ans with
  | Failure msg => Some msg
  | Success _ => None
  end.

(** [Do n req]: the answer to the [n]-th request sent. *)
Variable Do : nat -> request -> answer.

Inductive fetched :=
| Got (resp : response)
| Failed (msg : string)
| Exhausted.        (* the [for] ended on [retry > maxRetries] *)

(** The retry loop, lines 234-251; [left] counts the iterations that
    remain before [retry] exceeds [maxRetries]. *)
Fixpoint retryLoop (left : nat) (retry : Z) (req : request) (w : world)
  : fetched * world :=
  match left with
  | O => (Exhausted, w)
  | S left' =>
      let ans := Do (calls w) req in
      let w := mkWorld (S (calls w)) (events w ++ [Queried req (errorOf ans)]) in
      match ans with
      | Success resp => (Got resp, w)
      | Failure msg =>
          if isRateLimit msg && (retry <? maxRetries) then
            let delay := baseDelay * Z.shiftl 1 retry in
            retryLoop left' (retry + 1) req (sleep delay w)
          else (Failed msg, w)
      end
  end.

Definition fetchPage (req : request) (w : world) : fetched * world :=
  retryLoop (Z.to_nat (maxRetries + 1)) 0 req w.

(** The loop over [resp.Activities], lines 263-330; the flag tells that
    [maxResults] was reached and the function returned from inside. *)
Fixpoint processPage (maxResults : Z) (acts : list activity) (activities : list info)
  : list info * bool :=
  match acts with
  | [] => (activities, false)
  | a :: rest =>
      let activities := activities ++ [convert a] in
      if (maxResults >? 0) && (Z.of_nat (length activities) >=? maxResults)
      then (activities, true)
      else processPage maxResults rest activities
  end.

(** The page loop, lines 223-343.  It has no bound of its own; [fuel]
    bounds the number of pages and [None] is returned when it runs out. *)
Fixpoint pageLoop (fuel : nat) (maxResults : Z) (req : request) (pageToken : string)
         (pageCount : Z) (activities : list info) (w : world)
  : option ((list info + string) * world) :=
  match fuel with
  | O => None
  | S fuel' =>
      let req := if negb (is_empty pageToken)
                 then mkRequest (PageSize req) (Filter req) pageToken else req in
      match fetchPage req w with
      | (Exhausted, _) => None
      | (Failed msg, w) => Some (inr ("unable to query drive activity: " ++ msg)%string, w)
      | (Got resp, w) =>
          let pageCount := pageCount + 1 in
          let w := if Z.rem pageCount maxPagesPerBatch =? 0
                   then sleep (60 * second) w else w in
          match processPage maxResults (Activities resp) activities with
          | (activities, true) => Some (inl activities, w)
          | (activities, false) =>
              let pageToken := NextPageToken resp in
              if is_empty pageToken then Some (inl activities, w)
              else if (maxResults >? 0) && (Z.of_nat (length activities) >=? maxResults)
              then Some (inl activities, w)
              else pageLoop fuel' maxResults req pageToken pageCount activities w
          end
      end
  end.

(** [QueryDriveActivity] *)
Definition QueryDriveActivity (fuel : nat) (daysBack maxResults : Z) (w : world)
  : option ((list info + string) * world) :=
  let pageSize := 100 in
  let pageSize := if (maxResults >? 0) && (maxResults <? pageSize)
                  then maxResults else pageSize in
  let req := mkRequest pageSize
               (if daysBack >? 0 then timeFilter daysBack else EmptyString)
               EmptyString in
  pageLoop fuel maxResults req EmptyString 0 [] w.

End Query.

Arguments Failure {activity} msg.
Arguments Success {activity} resp.
Arguments mkResponse {activity} Activities NextPageToken.
Arguments Activities {activity} r.
Arguments NextPageToken {activity} r.
Arguments errorOf {activity} ans.
Arguments Got {activity} resp.
Arguments Failed {activity} msg.
Arguments Exhausted {activity}.
Arguments retryLoop {activity} Do left retry req w.
Arguments fetchPage {activity} Do req w.
Arguments processPage {activity info} convert maxResults acts activities.
Arguments pageLoop {activity info} convert Do fuel maxResults req pageToken pageCount
          activities w.
Arguments QueryDriveActivity {activity info} convert timeFilter Do fuel daysBack
          maxResults w.

Definition world0 : world := mkWorld 0 [].

End Activity.

(** ** [internal/mcp/tools.go] *)

Module Tools.

(** [req.GetArguments()]: the decoded JSON object of the call; a JSON
    number is a [float64] there, and every finite [float64] is a
    rational. *)
Definition arguments : Type := gmap string Json.value.

(** [args[name].(float64)] *)
Definition float64Arg (args : gmap string Json.value) (name : string) : option Q :=
  match args !! name with
  | Some (Json.Number q) => Some q
  | _ => None
  end.

(** [args[name].(string)], the zero value when the assertion fails. *)
Definition stringArg (args : gmap string Json.value) (name : string) : string :=
  match args !! name with
  | Some (Json.Str s) => s
  | _ => EmptyString
  end.

Definition positive (q : Q) : bool := 0 <? Qnum q.

(** [int64(f)] and [int(f)]: the fraction is discarded; what a value
    outside the range of [int64] converts to is left to the platform
    and given by [outOfRange]. *)
Definition truncate (q : Q) : Z := Z.quot (Qnum q) (Zpos (Qden q)).

Definition toInt64 (outOfRange : Q -> Z) (q : Q) : Z :=
  let t := truncate q in
  if (- 2 ^ 63 <=? t) && (t <? 2 ^ 63) then t else outOfRange q.

(** *** [drive_activity_history] *)

(** Lines 446-457: the effective [daysBack] and [maxResults]. *)
Definition historyDaysBack (outOfRange : Q -> Z) (args : gmap string Json.value) : Z :=
  match float64Arg args "daysBack" with
  | Some db => if positive db then toInt64 outOfRange db else 7
  | None => 7
  end.

Definition historyMaxResults (outOfRange : Q -> Z) (args : gmap string Json.value) : Z :=
  let maxResults :=
    match float64Arg args "maxResults" with
    | Some mr => if positive mr then toInt64 outOfRange mr else 100
    | None => 100
    end in
  if maxResults >? 200 then 200 else maxResults.

(** The handler of [registerActivityHistoryTool], once
    [getActivityService] has answered; one result is built for each
    activity, in order. *)
Definition activityHistoryHandler {activity info : Type} (convert : activity -> info)
           (timeFilter : Z -> string)
           (Do : nat -> Activity.request -> Activity.answer activity)
           (outOfRange : Q -> Z) (fuel : nat) (args : gmap string Json.value)
  : option (list info + string) :=
  match Activity.QueryDriveActivity convert timeFilter Do fuel
          (historyDaysBack outOfRange args) (historyMaxResults outOfRange args)
          Activity.world0 with
  | None => None
  | Some (inr msg, _) => Some (inr ("query activity failed: " ++ msg)%string)
  | Some (inl activities, _) => Some (inl activities)
  end.

(** *** [drive_folder_list] *)

Record item := mkItem {
  it_id : string;
  it_name : string;
  it_mimeType : string;
  it_modifiedTime : string;
  it_size : Z }.

Definition itemOf (f : Drive.File) : item :=
  mkItem (Drive.Id f) (Drive.Name f) (Drive.MimeType f) (Drive.ModifiedTime f) (Drive.Size f).

(** The handler of [registerFolderListTool], once [getDriveService] has
    answered. *)
Definition folderListHandler (filesList : string -> option (list Drive.File))
           (args : gmap string Json.value) : list item + string :=
  let folderID := stringArg args "folderId" in
  match Drive.ListFolder filesList folderID with
  | None => inr "list folder failed"%string
  | Some files => inl (map itemOf files)
  end.

(** *** [drive_file_info] *)

Record fileInfoResult := mkFileInfoResult {
  r_id : string;
  r_name : string;
  r_mimeType : string;
  r_size : Z;
  r_createdTime : string;
  r_modifiedTime : string;
  r_webViewLink : string;
  r_owners : list (string * string);
  r_path : list string }.

Definition fileInfoHandler (fuel : nat) (getInfo : string -> option Drive.File)
           (get : nat -> string -> option Drive.File) (args : gmap string Json.value)
  : option (fileInfoResult + string) :=
  let fileID := stringArg args "fileId" in
  match Drive.GetFileInfo fuel getInfo get fileID with
  | None => None
  | Some (inr e) => Some (inr ("get file info failed: " ++ e)%string)
  | Some (inl info) =>
      Some (inl (mkFileInfoResult (Drive.fi_ID info) (Drive.fi_Name info)
                   (Drive.fi_MimeType info) (Drive.fi_Size info)
                   (Drive.fi_CreatedTime info) (Drive.fi_ModifiedTime info)
                   (Drive.fi_WebViewLink info) (Drive.fi_Owners info)
                   (map Drive.pc_Name (Drive.fi_Path info))))
  end.

(** *** [drive_delete]

    The upstream store as the handler sees it: the files by identifier,
    and the [Files.Update] requests sent to it, in order. *)
Record remote := mkRemote {
  files : gmap string Drive.File;
  updates : list string }.

(** What goes wrong with the requests of one call of the tool: the
    error with which the upstream answers the [Files.Get], and the
    [Files.Update], in place of serving it; [None] when it serves the
    request. *)
Record faults := mkFaults {
  getFails : option string;
  updateFails : option string }.

Definition noFaults : faults := mkFaults None None.

(** The error of the upstream for an identifier it does not know. *)
Definition notFound (fileID : string) : string :=
  ("googleapi: Error 404: File not found: " ++ fileID ++ "., notFound")%string.

(** [Files.Get(fileID).Fields("id, name, trashed").Do()] *)
Definition FilesGet (up : faults) (fileID : string) (d : remote) : Drive.File + string :=
  match getFails up with
  | Some err => inr err
  | None =>
      match files d !! fileID with
      | Some file => inl file
      | None => inr (notFound fileID)
      end
  end.

Definition setTrashed (f : Drive.File) : Drive.File :=
  Drive.mkFile (Drive.Id f) (Drive.Name f) (Drive.MimeType f) (Drive.ModifiedTime f)
    (Drive.CreatedTime f) (Drive.Size f) (Drive.WebViewLink f) (Drive.Owners f)
    (Drive.Parents f) (Drive.SharedWithMeTime f) true.

(** [Files.Update(fileID, &driveapi.File{Trashed: true}).Do()]: the
    request is sent, and the file is in the trash afterwards when the
    upstream serves it. *)
Definition FilesUpdateTrashed (up : faults) (fileID : string) (d : remote)
  : remote * option string :=
  let sent := updates d ++ [fileID] in
  match updateFails up with
  | Some err => (mkRemote (files d) sent, Some err)
  | None =>
      match files d !! fileID with
      | Some f => (mkRemote (<[fileID := setTrashed f]> (files d)) sent, None)
      | None => (mkRemote (files d) sent, Some (notFound fileID))
      end
  end.

Record deleteResult := mkDeleteResult {
  d_fileId : string;
  d_fileName : string;
  d_message : string }.

(** The handler of [registerDeleteTool], once [getDriveService] has
    answered. *)
Definition deleteHandler (up : faults) (args : gmap string Json.value) (d : remote)
  : remote * (deleteResult + string) :=
  let fileID := stringArg args "fileId" in
  match FilesGet up fileID d with
  | inr err => (d, inr ("file not found: " ++ err)%string)
  | inl file =>
      if Drive.Trashed file then
        (d, inl (mkDeleteResult (Drive.Id file) (Drive.Name file) "File is already in trash"))
      else
        match FilesUpdateTrashed up fileID d with
        | (d', Some err) => (d', inr ("trash file failed: " ++ err)%string)
        | (d', None) =>
            (d', inl (mkDeleteResult (Drive.Id file) (Drive.Name file) "File moved to trash"))
        end
  end.

End Tools.

(* ===================================================================== *)
(** * Part II: vocabulary of the properties, sample data *)
(* ===================================================================== *)

(** ** Single use of states and codes *)

Module OAuth2Spec.

Import OAuth2.

Definition b2n (b : bool) : nat := if b then 1%nat else 0%nat.

(** The states in play for a token [k]: the entry in the map, the
    goroutines about to store it and the goroutines that took it. *)
Definition stateShares (k : string) (sp : system) : nat :=
  (present k (states sp.1) + count (mintsState k) sp.2 + count (sawState k) sp.2)%nat.

Definition codeShares (c : string) (sp : system) : nat :=
  (present c (codes sp.1) + count (mintsCode c) sp.2 + count (sawCode c) sp.2)%nat.

(** The answer to a request that did not find its entry: the error of
    the checks made before the lookup when one of them fails, and
    "Invalid or expired ..." otherwise. *)
Definition callbackRefusal (r : callbackRequest) : response :=
  if negb (is_empty (q_error r)) then
    OAuthError 400 (q_error r) "Authorization denied by user"
  else if is_empty (q_code r) || is_empty (q_state r) then
    OAuthError 400 "invalid_request" "Missing code or state"
  else OAuthError 400 "invalid_request" "Invalid or expired state".

Definition tokenRefusal (r : tokenRequest) : response :=
  if is_empty (f_code r) then OAuthError 400 "invalid_request" "Missing code"
  else OAuthError 400 "invalid_grant" "Invalid or expired authorization code".

Definition honest (g : goroutine) : Prop :=
  match g with
  | CallbackDone r false resp => resp = callbackRefusal r
  | TokenDone r false resp => resp = tokenRefusal r
  | _ => True
  end.

(** The three ways an exchange fails after the code was found. *)
Definition failsAfterLookup (now : Z) (r : tokenRequest) (storedCode : authCode) : Prop :=
  now - ac_CreatedAt storedCode > codeTTL \/
  (ac_CodeChallenge storedCode <> EmptyString /\ f_code_verifier r = EmptyString) \/
  (ac_CodeChallenge storedCode <> EmptyString /\
   validatePKCE (f_code_verifier r) (ac_CodeChallenge storedCode)
                (ac_CodeMethod storedCode) = false).

Definition state1 : authState :=
  mkAuthState "client" "http://localhost:3000/callback"
              "E9Melhoa2OwvFrEMTJguCHaoeK1t8URWbuGJSstw-cM" "S256" "xyz" 0.

Definition code1 : authCode :=
  mkAuthCode "c1" "client" "http://localhost:3000/callback"
             "E9Melhoa2OwvFrEMTJguCHaoeK1t8URWbuGJSstw-cM" "S256"
             (mkToken "ya29.a" "1//r" None) 0.

Definition server1 : OAuth2Server :=
  mkServer "https://drive.mcp.example.com"
           (mkConfig "id" "secret" EmptyString)
           {[ "s1"%string := state1 ]} {[ "c1"%string := code1 ]}.

Definition env1 (code : string) : callbackEnv :=
  mkCallbackEnv second (fun _ => Some (mkToken "ya29.b" EmptyString None)) code second.

Definition pool1 : list goroutine :=
  [ Callback (env1 "c2") (mkCallbackReq EmptyString "g1" "s1" EmptyString);
    Callback (env1 "c3") (mkCallbackReq EmptyString "g2" "s1" EmptyString);
    TokenGrant second (mkTokenReq "c1" "dBjftJeZ4CVP-mB92K27uhbUJU1p1r_wW1gFWFOEjXk");
    TokenGrant second (mkTokenReq "c1" "dBjftJeZ4CVP-mB92K27uhbUJU1p1r_wW1gFWFOEjXk");
    Cleanup minute ].

Definition wrongRequest : tokenRequest := mkTokenReq "c1" "wrong-verifier".

End OAuth2Spec.

(** ** The credential shapes *)

Module CredentialsSpec.

Import OAuth2 Credentials.

(** The three accepted shapes. *)
Definition member (id secret : option string) : list (string * Json.value) :=
  match id with Some x => [("client_id"%string, Json.Str x)] | None => [] end ++
  match secret with Some x => [("client_secret"%string, Json.Str x)] | None => [] end.

Definition webShape (id secret : option string) : Json.value :=
  Json.Object [("web"%string, Json.Object (member id secret))].

Definition installedShape (id secret : option string) : Json.value :=
  Json.Object [("installed"%string, Json.Object (member id secret))].

Definition flatShape (id secret : option string) : Json.value :=
  Json.Object (member id secret).

(** A field that is missing or empty. *)
Definition blank (x : option string) : Prop := x = None \/ x = Some EmptyString.

End CredentialsSpec.

(** ** A sample server *)

Module ServerSpec.

Import OAuth2 Server.

Definition server2 : Server :=
  mkSrv (mkServerConfig "https://drive.mcp.example.com") OAuth2Spec.server1.

End ServerSpec.

(** ** The path of a file *)

Module DriveSpec.

Import Drive.

(** The path the specification describes, for the walk whose first
    request is the [n]-th: nothing for an empty identifier or a failed
    fetch; the pseudo-root and the node for a node without parents; the
    path of the first parent followed by the node otherwise. *)
Definition component (f : File) : PathComponent :=
  mkPathComponent (Id f) (Name f) (MimeType f).

Definition pseudoRoot (f : File) : PathComponent :=
  if String.eqb (SharedWithMeTime f) EmptyString
  then mkPathComponent "root" "My Drive" "special"
  else mkPathComponent "shared" "Shared with me" "special".

Inductive PathOf (get : nat -> string -> option File)
  : nat -> string -> list PathComponent -> Prop :=
| PathNoID n :
    PathOf get n EmptyString []
| PathFetchFails n id :
    id <> EmptyString -> get n id = None ->
    PathOf get n id []
| PathTop n id f :
    id <> EmptyString -> get n id = Some f -> Parents f = [] ->
    PathOf get n id [pseudoRoot f; component f]
| PathUp n id f parent others p :
    id <> EmptyString -> get n id = Some f -> Parents f = parent :: others ->
    PathOf get (S n) parent p ->
    PathOf get n id (p ++ [component f]).

(** A folder [dir] at the top of My Drive, a file [file] in it, and a
    file [lost] whose parent cannot be fetched. *)
Definition sampleFile (id name : string) (parents : list string) : File :=
  mkFile id name "text/plain" EmptyString EmptyString 0 EmptyString [] parents
         EmptyString false.

Definition sampleGet (n : nat) (id : string) : option File :=
  if String.eqb id "file" then Some (sampleFile "file" "notes.txt" ["dir"%string])
  else if String.eqb id "dir" then Some (sampleFile "dir" "Work" [])
  else if String.eqb id "lost" then Some (sampleFile "lost" "orphan.txt" ["gone"%string])
  else None.

Definition sampleRank (id : string) : nat :=
  if String.eqb id "file" then 1%nat
  else if String.eqb id "lost" then 1%nat
  else 0%nat.

End DriveSpec.

(** ** Order of a listing, sample files *)

Module ToolsSpec.

Import Tools.

(** Folders first, then by name: no entry is followed by one that sorts
    before it. *)
Definition itemIsFolder (i : item) : bool :=
  String.eqb (it_mimeType i) "application/vnd.google-apps.folder".

Definition itemLess (a b : item) : bool :=
  if negb (Bool.eqb (itemIsFolder a) (itemIsFolder b)) then itemIsFolder a
  else Drive.string_ltb (it_name a) (it_name b).

Fixpoint foldersFirstThenName (l : list item) : bool :=
  match l with
  | a :: (b :: _) as rest => negb (itemLess b a) && foldersFirstThenName rest
  | _ => true
  end.

Definition notes : Drive.File :=
  Drive.mkFile "1" "a.txt" "text/plain" "2024-01-01T00:00:00Z" EmptyString 12 EmptyString []
               ["root"%string] EmptyString false.

Definition folderB : Drive.File :=
  Drive.mkFile "2" "b" "application/vnd.google-apps.folder" "2024-01-02T00:00:00Z"
               EmptyString 0 EmptyString [] ["root"%string] EmptyString false.

(** An upstream that lists the file before the folder. *)
Definition listing (q : string) : option (list Drive.File) :=
  if String.eqb q "'root' in parents and trashed = false"
  then Some [notes; folderB] else None.

Definition remote1 : remote :=
  mkRemote {[ "1"%string := notes ]} [].

End ToolsSpec.

(** ** Traces of the activity query *)

Module ActivitySpec.

Import Activity Tools.

(** An upstream with three pages of a hundred activities each. *)
Definition threePages (n : nat) (req : request) : answer nat :=
  Success (mkResponse (seq (100 * n) 100)
                      (if Nat.ltb n 2 then "next"%string else EmptyString)).

Definition halfArgs : gmap string Json.value :=
  {[ "maxResults"%string := Json.Number (1 # 2) ]}.

(** The message [msg] holds the text [sub] somewhere. *)
Definition holds (sub msg : string) : Prop :=
  exists pre post, msg = (pre ++ sub ++ post)%string.

(** The failures after which the specification lets the query try
    again. *)
Definition retryable (msg : string) : Prop :=
  holds "429" msg \/ holds "rateLimitExceeded" msg.

(** The requests and sleeps of a query, as the specification describes
    them.  [LoopTrace c k tr out]: [tr] is what remains of a query that
    has fetched [c] pages and has seen [k] rate-limit failures in a row
    for the page it is fetching; [out] is the error the query ends
    with, if any. *)
Inductive LoopTrace : Z -> Z -> list event -> option string -> Prop :=
| TraceEnd c :
    LoopTrace c 0 [] None
| TraceRetry c k req msg tr out :
    retryable msg -> k < 3 ->
    LoopTrace c (k + 1) tr out ->
    LoopTrace c k (Queried req (Some msg) :: Slept (2 ^ (k + 1) * second) :: tr) out
| TraceFatal c k req msg :
    ~ retryable msg \/ k = 3 ->
    LoopTrace c k [Queried req (Some msg)] (Some msg)
| TracePage c k req tr out :
    Z.rem (c + 1) 90 <> 0 ->
    LoopTrace (c + 1) 0 tr out ->
    LoopTrace c k (Queried req None :: tr) out
| TracePause c k req tr out :
    Z.rem (c + 1) 90 = 0 ->
    LoopTrace (c + 1) 0 tr out ->
    LoopTrace c k (Queried req None :: Slept (60 * second) :: tr) out.

(** The query ends with an error exactly when its last request failed
    for good, and the error wraps the upstream message. *)
Definition endsWith {info : Type} (r : list info + string) (out : option string) : Prop :=
  match r, out with
  | inl _, None => True
  | inr e, Some msg => e = ("unable to query drive activity: " ++ msg)%string
  | _, _ => False
  end.

(** An upstream that is rate limited twice, answers a page, and is then
    rate limited for good. *)
Definition burst (n : nat) (req : request) : answer nat :=
  match n with
  | 0%nat => Failure "googleapi: Error 429: Too Many Requests"
  | 1%nat => Failure "rateLimitExceeded"
  | 2%nat => Success (mkResponse [1%nat; 2%nat] "p2")
  | _ => Failure "googleapi: Error 429: Too Many Requests"
  end.

Definition burstEvents : list event :=
  let first := mkRequest 100 EmptyString EmptyString in
  let next := mkRequest 100 EmptyString "p2" in
  let limited := Some "googleapi: Error 429: Too Many Requests"%string in
  [ Queried first limited; Slept (2 * second);
    Queried first (Some "rateLimitExceeded"%string); Slept (4 * second);
    Queried first None;
    Queried next limited; Slept (2 * second);
    Queried next limited; Slept (4 * second);
    Queried next limited; Slept (8 * second);
    Queried next limited ].

Definition burstError : list nat + string :=
  inr ("unable to query drive activity: googleapi: Error 429: Too Many Requests")%string.

(** An upstream that answers one page and then refuses for another
    reason than the rate limit. *)
Definition denied (n : nat) (req : request) : answer nat :=
  match n with
  | 0%nat => Success (mkResponse [1%nat; 2%nat] "p2")
  | _ => Failure "googleapi: Error 403: insufficientPermissions"
  end.

Definition deniedError : list nat + string :=
  inr ("unable to query drive activity: " ++
       "googleapi: Error 403: insufficientPermissions")%string.

(** An upstream with one activity on each page: the hundred pages that
    [maxResults = 100] asks for are fetched with one pause, after the
    ninetieth. *)
Definition trickle (n : nat) (req : request) : answer nat :=
  Success (mkResponse [n] "more").

End ActivitySpec.

(** ** More of [internal/mcp/oauth2.go]: clients, authorize, token endpoint *)

Module OAuth2More.

Import OAuth2.

Record registeredClient := mkClient {
  rc_ClientID : string;
  rc_ClientSecret : string;
  rc_RedirectURIs : list string;
  rc_CreatedAt : Z }.

(** The server value with its third map, [clients]. *)
Record FullServer := mkFull {
  core : OAuth2Server;
  clients : gmap string registeredClient }.

(** [registerClientWithID]; [secret] is the token drawn by
    [generateToken] and [now] the clock. *)
Definition registerClientWithID (clientID secret : string) (redirectURIs : list string)
           (now : Z) (s : FullServer) : FullServer * registeredClient :=
  let client := mkClient clientID secret redirectURIs now in
  (mkFull (core s) (<[clientID := client]> (clients s)), client).

Record authorizeRequest := mkAuthorizeReq {
  a_client_id : string;
  a_redirect_uri : string;
  a_code_challenge : string;
  a_code_challenge_method : string;
  a_state : string }.

(** What [HandleAuthorize] reads from outside: the secret drawn for an
    unknown client and the clock at its registration, the internal state
    drawn by [generateToken], and the clock when the state is stored. *)
Record authorizeEnv := mkAuthorizeEnv {
  newSecret : string;
  now_register : Z;
  internalState : string;
  now_state : Z }.

(** *** [HandleAuthorize]

    The handler touches the server in four places, and other requests
    can run between them: it looks the client up under the read lock
    (lines 193-195); it registers the client, under the lock of
    [registerClientWithID], when the look-up did not find it (lines
    196-199); it stores the state under the lock (lines 204-213); and
    it writes the redirect URL of the configuration and answers (lines
    216-223). *)

(** Lines 193-195. *)
Definition clientExists (clientID : string) (s : FullServer) : bool :=
  match clients s !! clientID with
  | Some _ => true
  | None => false
  end.

(** Lines 196-199, with the answer [exists_] of the look-up, on the
    server as it is by then. *)
Definition autoRegister (e : authorizeEnv) (r : authorizeRequest) (exists_ : bool)
           (s : FullServer) : FullServer :=
  if negb exists_ then
    (registerClientWithID (a_client_id r) (newSecret e) [a_redirect_uri r]
                          (now_register e) s).1
  else s.

(** Lines 204-213. *)
Definition storeAuthState (e : authorizeEnv) (r : authorizeRequest) (s : FullServer)
  : FullServer :=
  mkFull (storeState (internalState e)
            (mkAuthState (a_client_id r) (a_redirect_uri r) (a_code_challenge r)
                         (a_code_challenge_method r) (a_state r) (now_state e))
            (core s))
         (clients s).

(** Lines 216-223.  [AuthCodeURL cfg state] is the URL that
    [oauthConfig.AuthCodeURL] builds for the Google consent page. *)
Definition redirectToGoogle (AuthCodeURL : Config -> string -> string)
           (e : authorizeEnv) (s : FullServer) : FullServer * response :=
  let c := set_RedirectURL (core s) (baseURL (core s) ++ "/oauth/callback") in
  (mkFull c (clients s), Redirect 302 (AuthCodeURL (oauthConfig c) (internalState e))).

(** [HandleAuthorize] among other requests: [others i] is what the
    other goroutines do to the server between the [i]-th place and the
    next. *)
Definition HandleAuthorizeAmid (others : nat -> FullServer -> FullServer)
           (AuthCodeURL : Config -> string -> string)
           (e : authorizeEnv) (r : authorizeRequest) (s : FullServer)
  : FullServer * response :=
  if is_empty (a_client_id r) || is_empty (a_redirect_uri r) then
    (s, writeOAuthError 400 "invalid_request" "client_id and redirect_uri are required")
  else
    let exists_ := clientExists (a_client_id r) s in
    let s := others 0%nat s in
    let s := autoRegister e r exists_ s in
    let s := others 1%nat s in
    let s := storeAuthState e r s in
    let s := others 2%nat s in
    redirectToGoogle AuthCodeURL e s.

(** [HandleAuthorize] when nothing else runs in between. *)
Definition HandleAuthorize (AuthCodeURL : Config -> string -> string)
           (e : authorizeEnv) (r : authorizeRequest) (s : FullServer)
  : FullServer * response :=
  HandleAuthorizeAmid (fun _ s => s) AuthCodeURL e r s.

(** A response of the token endpoint: an OAuth response, or the plain
    text of [http.Error]. *)
Inductive httpResponse :=
| OAuth (resp : response)
| PlainError (status : Z) (body : string).

(** [handleRefreshTokenGrant].  [Refresh t] is the answer of Google's
    token endpoint to the refresh token [t]. *)
Definition handleRefreshTokenGrant (Refresh : string -> option Token) (now : Z)
           (refreshToken : string) : response :=
  if is_empty refreshToken then
    writeOAuthError 400 "invalid_request" "Missing refresh_token"
  else
    match Refresh refreshToken with
    | None => writeOAuthError 400 "invalid_grant" "Failed to refresh token"
    | Some newToken =>
        TokenResponse (AccessToken newToken) "Bearer"
          (if negb (is_empty (RefreshToken newToken))
           then Some (RefreshToken newToken) else None)
          (match Expiry newToken with
           | Some t => let expiresIn := Z.quot (t - now) second in
                       if expiresIn >? 0 then Some expiresIn else None
           | None => None
           end)
    end.

Record tokenHttpRequest := mkTokenHttpReq {
  t_method : string;
  t_formOK : bool;              (* [r.ParseForm()] succeeded *)
  t_grant_type : string;
  t_form : tokenRequest;
  t_refresh_token : string }.

(** [HandleToken] *)
Definition HandleToken (Refresh : string -> option Token) (now : Z)
           (r : tokenHttpRequest) (s : OAuth2Server) : OAuth2Server * httpResponse :=
  if negb (String.eqb (t_method r) "POST") then
    (s, PlainError 405 "Method not allowed")
  else if negb (t_formOK r) then
    (s, OAuth (writeOAuthError 400 "invalid_request" "Invalid form data"))
  else if String.eqb (t_grant_type r) "authorization_code" then
    let (s, resp) := handleAuthorizationCodeGrant now (t_form r) s in (s, OAuth resp)
  else if String.eqb (t_grant_type r) "refresh_token" then
    (s, OAuth (handleRefreshTokenGrant Refresh now (t_refresh_token r)))
  else
    (s, OAuth (writeOAuthError 400 "unsupported_grant_type"
                               ("Unsupported grant type: " ++ t_grant_type r)%string)).

(** [encoding/hex]: two lower-case digits for each byte. *)
Definition hexDigit (n : Z) : ascii :=
  match String.get (Z.to_nat n) "0123456789abcdef" with
  | Some c => c
  | None => "0"%char
  end.

Fixpoint hexEncodeToString (bs : list Z) : string :=
  match bs with
  | [] => EmptyString
  | b :: rest => String (hexDigit (Z.shiftr b 4)) (String (hexDigit (Z.land b 15))
                                                           (hexEncodeToString rest))
  end.

(** [generateToken]; [b] is what [rand.Read] put into the 32 bytes. *)
Definition generateToken (b : list Z) : string := hexEncodeToString b.

(** [strings.TrimRight(s, "/")], the characters taken last to first. *)
Fixpoint dropSlashes (rs : list ascii) : list ascii :=
  match rs with
  | c :: rest => if Ascii.eqb c "/" then dropSlashes rest else rs
  | [] => []
  end.

Definition TrimRightSlash (s : string) : string :=
  string_of_list_ascii (rev (dropSlashes (rev (list_ascii_of_string s)))).

(** [NewOAuth2Server], without the goroutine it starts. *)
Definition NewOAuth2Server (base : string) (creds : OAuthCredentials) : FullServer :=
  mkFull (mkServer (TrimRightSlash base)
                   (mkConfig (ClientID creds) (ClientSecret creds) EmptyString)
                   ∅ ∅) ∅.

(** The endpoint URLs of [HandleAuthorizationServerMetadata]. *)
Record serverMetadata := mkMetadata {
  issuer : string;
  authorization_endpoint : string;
  token_endpoint : string;
  registration_endpoint : string;
  code_challenge_methods_supported : list string;
  grant_types_supported : list string }.

Definition HandleAuthorizationServerMetadata (s : OAuth2Server) : serverMetadata :=
  mkMetadata (baseURL s) (baseURL s ++ "/oauth/authorize") (baseURL s ++ "/oauth/token")
             (baseURL s ++ "/oauth/register") ["S256"%string]
             ["authorization_code"%string; "refresh_token"%string].

End OAuth2More.

(** ** Reading a token back *)

Module OAuth2MoreSpec.

(** Reading a token back, as [hex.DecodeString] does for lower-case
    text: the value of a digit, and the bytes of a text of digits. *)
Definition hexValue (c : ascii) : option Z :=
  let n := Z.of_nat (nat_of_ascii c) in
  if (48 <=? n) && (n <=? 57) then Some (n - 48)          (* 0 to 9 *)
  else if (97 <=? n) && (n <=? 102) then Some (n - 87)    (* a to f *)
  else None.

Fixpoint DecodeString (s : string) : option (list Z) :=
  match s with
  | EmptyString => Some []
  | String hi (String lo rest) =>
      match hexValue hi, hexValue lo, DecodeString rest with
      | Some h, Some l, Some bytes => Some (16 * h + l :: bytes)
      | _, _, _ => None
      end
  | String _ EmptyString => None
  end.

(** Other requests that run between the look-up of an authorize
    request and its registration, and at no other place. *)
Definition meanwhile (f : OAuth2More.FullServer -> OAuth2More.FullServer)
           (i : nat) (s : OAuth2More.FullServer) : OAuth2More.FullServer :=
  match i with
  | O => f s
  | S _ => s
  end.

End OAuth2MoreSpec.

(** ** Sample data for the flow *)

Module OAuth2MoreSamples.

Import OAuth2 OAuth2More.

Definition consentURL (cfg : Config) (state : string) : string :=
  ("https://accounts.google.com/o/oauth2/auth?redirect_uri=" ++ cfg_RedirectURL cfg ++
   "&state=" ++ state)%string.

Definition emptyServer : FullServer :=
  NewOAuth2Server "https://drive.mcp.example.com/" (mkCreds "id" "secret").

Definition sampleAuthorize : authorizeRequest :=
  mkAuthorizeReq "test-client" "http://localhost:3000/callback"
                 "E9Melhoa2OwvFrEMTJguCHaoeK1t8URWbuGJSstw-cM" "S256" "xyz".

Definition sampleAuthorizeEnv : authorizeEnv :=
  mkAuthorizeEnv "5ec2e7" 0 "1f00d5" second.

(** The draws of a second authorize request. *)
Definition otherAuthorizeEnv : authorizeEnv :=
  mkAuthorizeEnv "0ther5" 0 "2b00d5" second.

Definition googleToken : Token := mkToken "ya29.a" "1//r" None.

Definition sampleCallbackEnv : callbackEnv :=
  mkCallbackEnv minute (fun _ => Some googleToken) "c0de" minute.

Definition sampleCallback : callbackRequest :=
  mkCallbackReq EmptyString "4/0A" "1f00d5" EmptyString.

Definition sampleExchange : tokenRequest :=
  mkTokenReq "c0de" "dBjftJeZ4CVP-mB92K27uhbUJU1p1r_wW1gFWFOEjXk".

(** A callback for which Google refuses the code. *)
Definition refusedEnv : callbackEnv :=
  mkCallbackEnv second (fun _ => None) "c2" second.

Definition refusedCallback : callbackRequest :=
  mkCallbackReq EmptyString "g1" "s1" EmptyString.

End OAuth2MoreSamples.

(** ** More of [server.go]: the request scope *)

Module ServerMore.

Import OAuth2 Server.

(** The two values that package [auth] keeps in a [context.Context]. *)
Record context := mkContext {
  ctxOAuthConfig : option Config;
  ctxAccessToken : option Token }.

Definition background : context := mkContext None None.

Definition WithOAuthConfig (ctx : context) (config : Config) : context :=
  mkContext (Some config) (ctxAccessToken ctx).

Definition WithAccessToken (ctx : context) (token : Token) : context :=
  mkContext (ctxOAuthConfig ctx) (Some token).

(** [GetClientFromContext] returns a client exactly when both values are
    there; the tools then run with them and not with the files of the
    command line. *)
Definition hasClient (ctx : context) : bool :=
  match ctxOAuthConfig ctx, ctxAccessToken ctx with
  | Some _, Some _ => true
  | _, _ => false
  end.

(** [httpContextFunc] *)
Definition httpContextFunc (srv : Server) (ctx : context) (authorization : option string)
  : context :=
  let authHeader := HeaderGet authorization in
  if negb (HasPrefix authHeader "Bearer ") then ctx
  else
    let accessToken := TrimPrefix authHeader "Bearer " in
    match ValidateAccessToken (oauth2 srv) accessToken with
    | None => ctx
    | Some (oauthConfig, token) =>
        let ctx := WithOAuthConfig ctx oauthConfig in
        WithAccessToken ctx token
    end.

End ServerMore.

(** ** More of [internal/drive/service.go]: types and export formats *)

Module DriveMore.

Import Drive.

(** [IsGoogleWorkspaceFile] *)
Definition workspaceTypes : list string :=
  [ "application/vnd.google-apps.document";
    "application/vnd.google-apps.spreadsheet";
    "application/vnd.google-apps.presentation";
    "application/vnd.google-apps.form";
    "application/vnd.google-apps.drawing";
    "application/vnd.google-apps.map";
    "application/vnd.google-apps.site" ]%string.

Definition IsGoogleWorkspaceFile (item : File) : bool :=
  existsb (String.eqb (MimeType item)) workspaceTypes.

(** A Go map with string keys, written as the list of its entries. *)
Fixpoint lookup {A} (k : string) (m : list (string * A)) : option A :=
  match m with
  | [] => None
  | (k', v) :: rest => if String.eqb k k' then Some v else lookup k rest
  end.

Definition ExportFormats : list (string * list (string * string)) :=
  [ ("application/vnd.google-apps.document",
     [ ("pdf", "application/pdf");
       ("docx", "application/vnd.openxmlformats-officedocument.wordprocessingml.document");
       ("txt", "text/plain");
       ("html", "text/html") ]);
    ("application/vnd.google-apps.spreadsheet",
     [ ("xlsx", "application/vnd.openxmlformats-officedocument.spreadsheetml.sheet");
       ("pdf", "application/pdf");
       ("csv", "text/csv") ]);
    ("application/vnd.google-apps.presentation",
     [ ("pptx", "application/vnd.openxmlformats-officedocument.presentationml.presentation");
       ("pdf", "application/pdf") ]) ]%string.

(** [GetExportMimeType] *)
Definition GetExportMimeType (workspaceMimeType format : string) : string :=
  match lookup workspaceMimeType ExportFormats with
  | Some formats =>
      match lookup format formats with
      | Some mimeType => mimeType
      | None => EmptyString
      end
  | None => EmptyString
  end.

(** [GetDefaultExportFormat] *)
Definition GetDefaultExportFormat (mimeType : string) : string :=
  if String.eqb mimeType "application/vnd.google-apps.document" then "pdf"
  else if String.eqb mimeType "application/vnd.google-apps.spreadsheet" then "xlsx"
  else if String.eqb mimeType "application/vnd.google-apps.presentation" then "pptx"
  else EmptyString.

(** [MIMETypeMappings] *)
Definition MIMETypeMappings : list (string * list string) :=
  [ ("image", [ "image/jpeg"; "image/jpg"; "image/png"; "image/gif";
                "image/bmp"; "image/webp"; "image/svg+xml"; "image/tiff" ]);
    ("audio", [ "audio/mpeg"; "audio/mp3"; "audio/wav"; "audio/ogg";
                "audio/aac"; "audio/flac"; "audio/m4a" ]);
    ("video", [ "video/mp4"; "video/mpeg"; "video/quicktime";
                "video/x-msvideo"; "video/x-matroska"; "video/webm"; "video/avi" ]);
    ("prez", [ "application/vnd.ms-powerpoint";
               "application/vnd.openxmlformats-officedocument.presentationml.presentation";
               "application/vnd.google-apps.presentation" ]);
    ("doc", [ "application/msword";
              "application/vnd.openxmlformats-officedocument.wordprocessingml.document";
              "application/vnd.google-apps.document";
              "application/rtf" ]);
    ("spreadsheet", [ "application/vnd.ms-excel";
                      "application/vnd.openxmlformats-officedocument.spreadsheetml.sheet";
                      "application/vnd.google-apps.spreadsheet" ]);
    ("txt", [ "text/plain"; "text/csv"; "text/html"; "text/markdown" ]);
    ("pdf", [ "application/pdf" ]);
    ("folder", [ "application/vnd.google-apps.folder" ]) ]%string.

(** The inner loop of [ExpandFileTypes], on the slice [mimeTypes] and the
    map [seen]: append the types not seen yet and mark them. *)
Fixpoint addUnseen (types : list string) (st : list string * gset string)
  : list string * gset string :=
  match types with
  | [] => st
  | mimeType :: rest =>
      if bool_decide (mimeType ∈ st.2) then addUnseen rest st
      else addUnseen rest (st.1 ++ [mimeType], {[ mimeType ]} ∪ st.2)
  end.

(** The loop of [ExpandFileTypes]; [ToLower] is [strings.ToLower]. *)
Fixpoint expandFrom (ToLower : string -> string) (fileTypes : list string)
         (st : list string * gset string) : list string * gset string :=
  match fileTypes with
  | [] => st
  | fileType :: rest =>
      if Contains fileType "/" then expandFrom ToLower rest (addUnseen [fileType] st)
      else
        match lookup (ToLower fileType) MIMETypeMappings with
        | Some types => expandFrom ToLower rest (addUnseen types st)
        | None => expandFrom ToLower rest st
        end
  end.

(** [ExpandFileTypes] *)
Definition ExpandFileTypes (ToLower : string -> string) (fileTypes : list string)
  : list string :=
  (expandFrom ToLower fileTypes ([], ∅)).1.

End DriveMore.

(** ** What a file type of a search stands for *)

Module DriveMoreSpec.

Import DriveMore.

(** The MIME types that one entry of [fileTypes] contributes: itself
    when it has a slash, the types of its shortcut otherwise, nothing
    when the shortcut is unknown. *)
Definition yields (ToLower : string -> string) (fileType mimeType : string) : Prop :=
  if Contains fileType "/" then mimeType = fileType
  else
    match lookup (ToLower fileType) MIMETypeMappings with
    | Some types => mimeType ∈ types
    | None => False
    end.

(** The slice and the map of [ExpandFileTypes] hold the same types, the
    slice without repetition. *)
Definition consistent (st : list string * gset string) : Prop :=
  NoDup st.1 /\ forall x, x ∈ st.2 <-> x ∈ st.1.

End DriveMoreSpec.

(** ** More of [service.go] and [tools.go]: names, URLs, permissions *)

Module ToolsMore.

Import Drive DriveMore Tools.

(** [filepath.Ext]: scan from the end down to the last slash and return
    the text from the last dot met; [n] is the index above the one that
    is looked at. *)
Fixpoint extScan (path : string) (n : nat) : string :=
  match n with
  | O => EmptyString
  | S i =>
      match String.get i path with
      | Some c =>
          if Ascii.eqb c "/" then EmptyString
          else if Ascii.eqb c "." then String.substring i (String.length path - i) path
          else extScan path i
      | None => EmptyString
      end
  end.

Definition Ext (path : string) : string := extScan path (String.length path).

(** [strings.HasSuffix] and [strings.TrimSuffix] *)
Definition HasSuffix (s suffix : string) : bool :=
  Nat.leb (String.length suffix) (String.length s) &&
  String.eqb (String.substring (String.length s - String.length suffix)
                               (String.length suffix) s) suffix.

Definition TrimSuffix (s suffix : string) : string :=
  if HasSuffix s suffix
  then String.substring 0 (String.length s - String.length suffix) s
  else s.

(** [AdjustFilename] *)
Definition AdjustFilename (localPath exportFormat : string) : string :=
  if is_empty exportFormat then localPath
  else
    let ext := Ext localPath in
    let baseName := TrimSuffix localPath ext in
    (baseName ++ "." ++ exportFormat)%string.

(** [strings.LastIndex(s, ".")], [None] for -1. *)
Fixpoint lastDot (s : string) (n : nat) : option nat :=
  match n with
  | O => None
  | S i =>
      match String.get i s with
      | Some c => if Ascii.eqb c "." then Some i else lastDot s i
      | None => None
      end
  end.

Definition mimeTypes : list (string * string) :=
  [ (".pdf", "application/pdf");
    (".doc", "application/msword");
    (".docx", "application/vnd.openxmlformats-officedocument.wordprocessingml.document");
    (".xls", "application/vnd.ms-excel");
    (".xlsx", "application/vnd.openxmlformats-officedocument.spreadsheetml.sheet");
    (".ppt", "application/vnd.ms-powerpoint");
    (".pptx", "application/vnd.openxmlformats-officedocument.presentationml.presentation");
    (".txt", "text/plain");
    (".csv", "text/csv");
    (".html", "text/html");
    (".json", "application/json");
    (".xml", "application/xml");
    (".zip", "application/zip");
    (".png", "image/png");
    (".jpg", "image/jpeg");
    (".jpeg", "image/jpeg");
    (".gif", "image/gif");
    (".svg", "image/svg+xml");
    (".mp4", "video/mp4");
    (".mp3", "audio/mpeg");
    (".wav", "audio/wav") ]%string.

(** [detectMimeType]; [ToLower] is [strings.ToLower]. *)
Definition detectMimeType (ToLower : string -> string) (filename : string) : string :=
  let ext := ToLower filename in
  let ext :=
    match lastDot ext (String.length ext) with
    | Some idx => String.substring idx (String.length ext - idx) ext
    | None => ext
    end in
  match lookup ext mimeTypes with
  | Some mt => mt
  | None => "application/octet-stream"%string
  end.

(** *** [drive_download_url] and [drive_export_url] *)

Record downloadResult := mkDownloadResult {
  downloadUrl : string;
  dl_fileName : string;
  dl_mimeType : string;
  dl_size : Z;
  dl_expiresIn : Z }.

Record exportResult := mkExportResult {
  exportUrl : string;
  ex_fileName : string;
  exportMimeType : string;
  ex_expiresIn : Z }.

(** An error of a tool: its message, the formats of the last one apart,
    which Go takes from a map in no fixed order. *)
Inductive toolError :=
| Message (text : string)
| UnsupportedFormat (format mimeType : string) (supported : list string).

(** The handler of [registerDownloadURLTool], once [getDriveService] has
    answered.  [get] is [Files.Get(...).Do()], a file or the text of an
    error, and [token] the token of the request scope. *)
Definition downloadURLHandler (get : string -> File + string) (token : option OAuth2.Token)
           (args : gmap string Json.value) : downloadResult + toolError :=
  let fileID := stringArg args "fileId" in
  match get fileID with
  | inr err => inr (Message ("file not found: " ++ err))
  | inl file =>
      if IsGoogleWorkspaceFile file then
        inr (Message ("cannot download Google Workspace file '" ++ Name file ++ "' (" ++
                      MimeType file ++
                      "). Use drive_export_url to export it to a standard format"))
      else
        match token with
        | None => inr (Message "no access token in context")
        | Some token =>
            inl (mkDownloadResult
                   ("https://www.googleapis.com/drive/v3/files/" ++ fileID ++
                    "?alt=media&access_token=" ++ OAuth2.AccessToken token)
                   (Name file) (MimeType file) (Size file) 3600)
        end
  end%string.

(** The handler of [registerExportURLTool]. *)
Definition exportURLHandler (get : string -> File + string) (token : option OAuth2.Token)
           (args : gmap string Json.value) : exportResult + toolError :=
  let fileID := stringArg args "fileId" in
  let format := stringArg args "format" in
  match get fileID with
  | inr err => inr (Message ("file not found: " ++ err))
  | inl file =>
      if negb (IsGoogleWorkspaceFile file) then
        inr (Message ("file '" ++ Name file ++ "' (" ++ MimeType file ++
                      ") is not a Google Workspace file. Use drive_download_url instead"))
      else
        let mime := GetExportMimeType (MimeType file) format in
        if is_empty mime then
          inr (UnsupportedFormat format (MimeType file)
                 (match lookup (MimeType file) ExportFormats with
                  | Some formats => map fst formats
                  | None => []
                  end))
        else
          match token with
          | None => inr (Message "no access token in context")
          | Some token =>
              inl (mkExportResult
                     ("https://www.googleapis.com/drive/v3/files/" ++ fileID ++
                      "/export?mimeType=" ++ mime ++
                      "&access_token=" ++ OAuth2.AccessToken token)
                     (AdjustFilename (Name file) format) mime 3600)
          end
  end%string.

End ToolsMore.

(** ** Sample files for the URL tools *)

Module ToolsMoreSamples.

Import Drive.

Definition drawing : File :=
  mkFile "7" "plan" "application/vnd.google-apps.drawing" EmptyString EmptyString 0
         EmptyString [] [] EmptyString false.

Definition sheet : File :=
  mkFile "8" "budget.v2" "application/vnd.google-apps.spreadsheet" EmptyString EmptyString 0
         EmptyString [] [] EmptyString false.

Definition photo : File :=
  mkFile "9" "cat.JPG" "image/jpeg" EmptyString EmptyString 2048
         EmptyString [] [] EmptyString false.

Definition bearer : OAuth2.Token := OAuth2.mkToken "ya29.a" EmptyString None.

End ToolsMoreSamples.

(** ** Permissions and changes *)

Module Sharing.

Import Tools.

Record Permission := mkPermission {
  p_Id : string;
  p_Type : string;
  p_Role : string;
  p_EmailAddress : string;
  p_DisplayName : string;
  p_Domain : string }.

(** The requests of [ShareFile], [ShareWithAnyone], [RemovePermission]
    and [ListPermissions].  A creation carries the notification flag and
    the message only when the call sets them. *)
Inductive request :=
| PermissionsCreate (fileID permType role email : string)
                    (sendNotificationEmail : option bool) (emailMessage : option string)
| PermissionsDelete (fileID permissionID : string)
| PermissionsList (fileID : string).

(** [ShareFile] *)
Definition ShareFile (fileID email role : string) (notify : bool) (message : string)
  : request :=
  PermissionsCreate fileID "user" role email (Some notify)
                    (if negb (is_empty message) then Some message else None).

(** [ShareWithAnyone] *)
Definition ShareWithAnyone (fileID role : string) : request :=
  PermissionsCreate fileID "anyone" role EmptyString None None.

(** [args["notify"].(bool)] with its default. *)
Definition notifyArg (args : gmap string Json.value) : bool :=
  match args !! "notify"%string with
  | Some (Json.JBool n) => n
  | _ => true
  end.

(** The end of the handler: the permissions after the change. *)
Definition listAfter (listing : string -> list Permission + string) (fileID : string)
           (sent : list request) : list request * (list Permission + string) :=
  match listing fileID with
  | inr err =>
      (sent ++ [PermissionsList fileID], inr ("list permissions failed: " ++ err)%string)
  | inl perms => (sent ++ [PermissionsList fileID], inl perms)
  end.

(** The handler of [registerPermissionsUpdateTool], once
    [getDriveService] has answered: the requests it sends, in order, and
    its result.  [Do req] is the error of the upstream for the change
    [req], [None] when it accepts it; [listing] is the answer to
    [Permissions.List], a list or the text of an error. *)
Definition permissionsUpdateHandler (Do : request -> option string)
           (listing : string -> list Permission + string)
           (args : gmap string Json.value)
  : list request * (list Permission + string) :=
  let fileID := stringArg args "fileId" in
  let action := stringArg args "action" in
  if String.eqb action "add" then
    let permType := stringArg args "type" in
    let role := stringArg args "role" in
    let email := stringArg args "email" in
    let message := stringArg args "message" in
    let notify := notifyArg args in
    if String.eqb permType "user" then
      if is_empty email then ([], inr "email is required when type is 'user'"%string)
      else
        let req := ShareFile fileID email role notify message in
        match Do req with
        | None => listAfter listing fileID [req]
        | Some err => ([req], inr ("add permission failed: " ++ err)%string)
        end
    else if String.eqb permType "anyone" then
      let req := ShareWithAnyone fileID role in
      match Do req with
      | None => listAfter listing fileID [req]
      | Some err => ([req], inr ("add permission failed: " ++ err)%string)
      end
    else ([], inr "type must be 'user' or 'anyone'"%string)
  else if String.eqb action "remove" then
    let permissionID := stringArg args "permissionId" in
    if is_empty permissionID then
      ([], inr "permissionId is required for remove action"%string)
    else
      let req := PermissionsDelete fileID permissionID in
      match Do req with
      | None => listAfter listing fileID [req]
      | Some err => ([req], inr ("remove permission failed: " ++ err)%string)
      end
  else ([], inr "action must be 'add' or 'remove'"%string).

(** What the arguments must be for the handler to send anything. *)
Definition wellFormed (args : gmap string Json.value) : bool :=
  (String.eqb (stringArg args "action") "add" &&
   ((String.eqb (stringArg args "type") "user" && negb (is_empty (stringArg args "email")))
    || String.eqb (stringArg args "type") "anyone"))
  || (String.eqb (stringArg args "action") "remove" &&
      negb (is_empty (stringArg args "permissionId"))).

Definition isChange (req : request) : bool :=
  match req with
  | PermissionsList _ => false
  | _ => true
  end.

End Sharing.

Module Changes.

(** The fields of [drive.Change] and [drive.File] that [ListChanges]
    reads. *)
Record user := mkUser {
  DisplayName : string;
  EmailAddress : string }.

Record changedFile := mkChangedFile {
  cf_Name : string;
  cf_MimeType : string;
  cf_ModifiedTime : string;
  cf_LastModifyingUser : option user }.

Record change := mkChange {
  FileId : string;
  Removed : bool;
  Time : string;
  File : option changedFile }.

Record ChangeInfo := mkChangeInfo {
  ci_FileID : string;
  ci_FileName : string;
  ci_ChangeTime : Z;
  ci_ChangeType : string;
  ci_Removed : bool;
  ci_MimeType : string;
  ci_ModifiedBy : string }.

(** The body of the loop of [ListChanges], lines 43-76.  [parse] is
    [time.Parse(time.RFC3339, _)] and [now] the clock. *)
Definition changeInfoOf (parse : string -> option Z) (now : Z) (c : change) : ChangeInfo :=
  let changeTime :=
    if negb (is_empty (Time c)) then
      match parse (Time c) with Some t => t | None => now end
    else now in
  match File c with
  | None => mkChangeInfo (FileId c) EmptyString changeTime EmptyString (Removed c)
                         EmptyString EmptyString
  | Some f =>
      let modifiedBy :=
        match cf_LastModifyingUser f with
        | Some u => if is_empty (DisplayName u) then EmailAddress u else DisplayName u
        | None => EmptyString
        end in
      let changeType :=
        if Removed c then "Removed"
        else if negb (is_empty (cf_ModifiedTime f)) then "Modified"
        else "Added" in
      mkChangeInfo (FileId c) (cf_Name f) changeTime changeType (Removed c)
                   (cf_MimeType f) modifiedBy
  end%string.

(** [ListChanges].  [startToken] answers [GetStartPageToken],
    [changesList] answers [Changes.List], each with a value or the text
    of an error, and [now i] is the clock at the [i]-th change. *)
Fixpoint convertFrom (parse : string -> option Z) (now : nat -> Z) (i : nat)
         (cs : list change) : list ChangeInfo :=
  match cs with
  | [] => []
  | c :: rest => changeInfoOf parse (now i) c :: convertFrom parse now (S i) rest
  end.

Definition ListChanges (startToken : string + string)
           (changesList : string -> Z -> list change + string)
           (parse : string -> option Z) (now : nat -> Z) (pageSize : Z)
  : list ChangeInfo + string :=
  match startToken with
  | inr err => inr ("unable to get start page token: " ++ err)%string
  | inl token =>
      match changesList token pageSize with
      | inr err => inr ("unable to list changes: " ++ err)%string
      | inl changes => inl (convertFrom parse now 0 changes)
      end
  end.

End Changes.

(** ** What a change and its entry have in common *)

Module ChangesSpec.

Import Changes.

(** The entry of a change: same file, same removal flag, and a type that
    is empty exactly when the change carries no file, and [Removed]
    exactly when a change with a file is a removal. *)
Definition entryOf (c : change) (info : ChangeInfo) : Prop :=
  ci_FileID info = FileId c /\
  ci_Removed info = Removed c /\
  (File c = None -> ci_ChangeType info = EmptyString /\ ci_FileName info = EmptyString) /\
  (File c <> None ->
   In (ci_ChangeType info) ["Removed"; "Modified"; "Added"]%string /\
   (ci_ChangeType info = "Removed"%string <-> Removed c = true)).

End ChangesSpec.

(** ** What a query asks and how long it sleeps *)

Module ActivityMoreSpec.

Import Activity.

(** The time slept in a sequence of events. *)
Fixpoint sleptTotal (evs : list event) : Z :=
  match evs with
  | [] => 0
  | Slept d :: rest => d + sleptTotal rest
  | Queried _ _ :: rest => sleptTotal rest
  end.

(** The number of requests in a sequence of events. *)
Fixpoint requests (evs : list event) : nat :=
  match evs with
  | [] => 0%nat
  | Queried _ _ :: rest => S (requests rest)
  | Slept _ :: rest => requests rest
  end.

(** Every request of the sequence asks for pages of [size] activities
    under the filter [filter]. *)
Definition asks (size : Z) (filter : string) (ev : event) : Prop :=
  match ev with
  | Queried req _ => PageSize req = size /\ Filter req = filter
  | Slept _ => True
  end.

(** An upstream with a hundred activities on each page. *)
Definition fullPages (n : nat) (req : request) : answer nat :=
  Success (mkResponse (seq (100 * n) 100) "next").

(** The arguments under which the history tool keeps its cap: no
    [maxResults], or one that is not a number, or a number that is not
    positive, or a number from 1 up to, but not including, 2^63.  What
    is left out are the numbers strictly between 0 and 1 and those
    that [int64] cannot hold. *)
Definition capped (args : gmap string Json.value) : Prop :=
  match args !! "maxResults"%string with
  | Some (Json.Number mr) =>
      Qle mr 0 \/ (Qle 1 mr /\ Qlt mr (inject_Z (2 ^ 63)))
  | _ => True
  end.

End ActivityMoreSpec.

(** ** More of [service.go]: remote paths and downloads *)

Module Paths.

Import Drive DriveMore ToolsMore OAuth2More.

Definition DriveRootID : string := "root".
Definition DriveFolderMimeType : string := "application/vnd.google-apps.folder".

(** [strings.Trim(s, "/")]: the slashes at the right end, then those at
    the left end. *)
Fixpoint TrimLeftSlash (s : string) : string :=
  match s with
  | String c rest => if Ascii.eqb c "/" then TrimLeftSlash rest else s
  | EmptyString => EmptyString
  end.

Definition TrimSlash (s : string) : string := TrimLeftSlash (TrimRightSlash s).

(** [strings.Split(s, "/")] *)
Fixpoint Split (s : string) : list string :=
  match s with
  | EmptyString => [EmptyString]
  | String c rest =>
      if Ascii.eqb c "/" then EmptyString :: Split rest
      else
        match Split rest with
        | part :: parts => String c part :: parts
        | [] => [String c EmptyString]
        end
  end.

(** [ParseRemotePath] *)
Definition ParseRemotePath (remotePath : string) : list string :=
  let path := TrimSlash remotePath in
  if is_empty path then [] else Split path.

(** [FindItemByName].  [filesList q] is the answer of
    [Files.List().Q(q)...Do()], the files or the text of an error. *)
Definition itemQuery (name parentID mimeType : string) : string :=
  let query := ("name = '" ++ name ++ "' and '" ++ parentID ++
                "' in parents and trashed = false")%string in
  if negb (is_empty mimeType)
  then (query ++ " and mimeType = '" ++ mimeType ++ "'")%string
  else query.

Definition FindItemByName (filesList : string -> list File + string)
           (name parentID mimeType : string) : option File + string :=
  match filesList (itemQuery name parentID mimeType) with
  | inr err => inr err
  | inl files => inl (head files)
  end.

(** The loop of [ResolvePath].  The upstream is asked once for each
    component; [filesList i] is its answer for the [i]-th one. *)
Fixpoint resolveFrom (filesList : nat -> string -> list File + string)
         (remotePath : string) (mustExist : bool)
         (i : nat) (parts : list string) (currentID : string) : string + string :=
  match parts with
  | [] => inl currentID
  | part :: rest =>
      match FindItemByName (filesList i) part currentID DriveFolderMimeType with
      | inr err => inr err
      | inl None =>
          if mustExist then inr ("path not found: " ++ remotePath)%string
          else inl EmptyString
      | inl (Some item) => resolveFrom filesList remotePath mustExist (S i) rest (Id item)
      end
  end.

(** [ResolvePath] *)
Definition ResolvePath (filesList : nat -> string -> list File + string)
           (remotePath : string) (mustExist : bool) : string + string :=
  let parts := ParseRemotePath remotePath in
  if (length parts =? 0)%nat then inl DriveRootID
  else resolveFrom filesList remotePath mustExist 0 parts DriveRootID.

(** The metadata of a [Files.Create]. *)
Record newFolder := mkNewFolder {
  nf_Name : string;
  nf_MimeType : string;
  nf_Parent : string }.

(** The loop of [CreateFolderPath], with the folders it has asked the
    upstream to create so far.  [create i m] is the answer to the
    creation of [m] for the [i]-th component. *)
Fixpoint createFrom (filesList : nat -> string -> list File + string)
         (create : nat -> newFolder -> File + string)
         (i : nat) (parts : list string) (currentID : string) (sent : list newFolder)
  : (string + string) * list newFolder :=
  match parts with
  | [] => (inl currentID, sent)
  | part :: rest =>
      match FindItemByName (filesList i) part currentID
                           "application/vnd.google-apps.folder" with
      | inr err => (inr err, sent)
      | inl (Some item) => createFrom filesList create (S i) rest (Id item) sent
      | inl None =>
          let fileMetadata :=
            mkNewFolder part "application/vnd.google-apps.folder" currentID in
          match create i fileMetadata with
          | inr err => (inr err, sent ++ [fileMetadata])
          | inl folder =>
              createFrom filesList create (S i) rest (Id folder) (sent ++ [fileMetadata])
          end
      end
  end.

(** [CreateFolderPath] *)
Definition CreateFolderPath (filesList : nat -> string -> list File + string)
           (create : nat -> newFolder -> File + string) (remotePath : string)
  : (string + string) * list newFolder :=
  let parts := ParseRemotePath remotePath in
  if (length parts =? 0)%nat then (inl "root"%string, [])
  else createFrom filesList create 0 parts "root" [].

(** What [DownloadFile] decides, lines 255-283, before it fetches
    anything: an export to a MIME type, a plain download, or an error;
    and the local path it will write to. *)
Inductive fetch :=
| FilesExport (exportMimeType localPath : string)
| FilesGetMedia (localPath : string)
| NoFetch (err : string).

Definition DownloadFile_fetch (fileMetadata : File) (localPath : string) : fetch :=
  if IsGoogleWorkspaceFile fileMetadata then
    let exportFormat := GetDefaultExportFormat (MimeType fileMetadata) in
    if is_empty exportFormat then
      NoFetch ("cannot export file type: " ++ MimeType fileMetadata)
    else
      let exportMimeType := GetExportMimeType (MimeType fileMetadata) exportFormat in
      if is_empty exportMimeType then
        NoFetch ("unknown export format: " ++ exportFormat)
      else
        let localPath := AdjustFilename localPath exportFormat in
        FilesExport exportMimeType localPath
  else FilesGetMedia localPath.

End Paths.

(** ** The parts of a remote path *)

Module PathsSpec.

Import Drive Paths.

(** [n] slashes. *)
Definition slashes (n : nat) : string := string_of_list_ascii (repeat "/"%char n).

(** [strings.Join(parts, "/")] *)
Fixpoint Join (parts : list string) : string :=
  match parts with
  | [] => EmptyString
  | [part] => part
  | part :: rest => (part ++ "/" ++ Join rest)%string
  end.

(** An upstream with a folder [a] in the root and a folder [b] in it. *)
Definition folderA : File :=
  mkFile "1" "a" "application/vnd.google-apps.folder" EmptyString EmptyString 0
         EmptyString [] ["root"%string] EmptyString false.

Definition folderB : File :=
  mkFile "2" "b" "application/vnd.google-apps.folder" EmptyString EmptyString 0
         EmptyString [] ["1"%string] EmptyString false.

Definition twoFolders (i : nat) (q : string) : list File + string :=
  if String.eqb q ("name = 'a' and 'root' in parents and trashed = false" ++
                   " and mimeType = 'application/vnd.google-apps.folder'")
  then inl [folderA]
  else if String.eqb q ("name = 'b' and '1' in parents and trashed = false" ++
                        " and mimeType = 'application/vnd.google-apps.folder'")
  then inl [folderB]
  else inl [].

(** An upstream that creates every folder asked for, with the name as
    the identifier. *)
Definition createAll (i : nat) (m : newFolder) : File + string :=
  inl (mkFile (nf_Name m) (nf_Name m) (nf_MimeType m) EmptyString EmptyString 0
              EmptyString [] [nf_Parent m] EmptyString false).

End PathsSpec.

(** ** More of [service.go]: the search query *)

Module Search.

Import Drive DriveMore.

(** [strings.Join] *)
Fixpoint strings_Join (elems : list string) (sep : string) : string :=
  match elems with
  | [] => EmptyString
  | [e] => e
  | e :: rest => (e ++ sep ++ strings_Join rest sep)%string
  end.

(** The query that [SearchFiles] builds; [ToLower] is [strings.ToLower],
    used by [ExpandFileTypes]. *)
Definition searchQuery (ToLower : string -> string) (query : string)
           (fileTypes : list string) : string :=
  let searchQuery := ("name contains '" ++ query ++ "' and trashed = false")%string in
  if (0 <? length fileTypes)%nat then
    let mimeTypes := ExpandFileTypes ToLower fileTypes in
    if (0 <? length mimeTypes)%nat then
      let mimeConditions :=
        map (fun mime => ("mimeType = '" ++ mime ++ "'")%string) mimeTypes in
      (searchQuery ++ " and (" ++ strings_Join mimeConditions " or " ++ ")")%string
    else searchQuery
  else searchQuery.

(** [SearchFiles].  [filesList q n] is the answer of
    [Files.List().Q(q)...PageSize(n).Do()]. *)
Definition SearchFiles (filesList : string -> Z -> list File + string)
           (ToLower : string -> string) (query : string) (fileTypes : list string)
           (maxResults : Z) : list File + string :=
  match filesList (searchQuery ToLower query fileTypes) maxResults with
  | inr err => inr err
  | inl files => inl files
  end.

End Search.

(** ** More of [oauth2.go]: where the credentials come from *)

Module Loader.

Import OAuth2 Credentials.

(** What the loader reads: whether a Secret Manager client can be made
    (the error otherwise), the payload of a secret version, the content
    of a file, each with the text of the error when it fails, and
    whether [os.Stat] finds a path.  A payload is the JSON value it
    holds, [None] for bytes that are not JSON. *)
Record sources := mkSources {
  NewClient : option string;
  AccessSecretVersion : string -> option Json.value + string;
  ReadFile : string -> option Json.value + string;
  Stat : string -> bool }.

Inductive loadError :=
| Wrapped (text : string)            (* an error of the outside, with its prefix *)
| Malformed (e : credError)          (* an error of [parseCredentials] *)
| NotFound.                          (* "no OAuth credentials found: ..." *)

Definition parsed (data : option Json.value) : OAuthCredentials + loadError :=
  match parseCredentials data with
  | inl creds => inl creds
  | inr e => inr (Malformed e)
  end.

(** [loadFromSecretManager] *)
Definition loadFromSecretManager (w : sources) (secretName projectID : string)
  : OAuthCredentials + loadError :=
  match NewClient w with
  | Some err => inr (Wrapped ("create secret manager client: " ++ err))
  | None =>
      let name := ("projects/" ++ projectID ++ "/secrets/" ++ secretName ++
                   "/versions/latest")%string in
      match AccessSecretVersion w name with
      | inr err => inr (Wrapped ("access secret " ++ name ++ ": " ++ err))
      | inl data => parsed data
      end
  end%string.

(** [loadFromFile] *)
Definition loadFromFile (w : sources) (path : string) : OAuthCredentials + loadError :=
  match ReadFile w path with
  | inr err => inr (Wrapped ("read credential file " ++ path ++ ": " ++ err))
  | inl data => parsed data
  end%string.

(** The loop of [LoadOAuthCredentials] over the default locations. *)
Fixpoint tryDefaults (w : sources) (paths : list string) : OAuthCredentials + loadError :=
  match paths with
  | [] => inr NotFound
  | path :: rest => if Stat w path then loadFromFile w path else tryDefaults w rest
  end.

Definition defaultLocations : list string :=
  [ "credentials.json"; "google_credentials.json" ]%string.

(** [LoadOAuthCredentials] *)
Definition LoadOAuthCredentials (w : sources) (secretName secretProject credentialFile : string)
  : OAuthCredentials + loadError :=
  let fromFiles :=
    if negb (is_empty credentialFile) then loadFromFile w credentialFile
    else tryDefaults w defaultLocations in
  if negb (is_empty secretName) && negb (is_empty secretProject) then
    match loadFromSecretManager w secretName secretProject with
    | inl creds => inl creds
    | inr _ => fromFiles
    end
  else fromFiles.

End Loader.

(** ** Sample sources of credentials *)

Module LoaderSpec.

Import OAuth2 Credentials Loader.

(** A secret that is not JSON, no explicit file, and both default files
    in place, the first one without a client secret. *)
Definition brokenSecret : sources :=
  mkSources None
            (fun _ => inl None)
            (fun path =>
               if String.eqb path "credentials.json"
               then inl (Some (CredentialsSpec.flatShape (Some "id-1"%string) None))
               else inl (Some (CredentialsSpec.flatShape (Some "id-2"%string)
                                                         (Some "secret-2"%string))))
            (fun _ => true).

End LoaderSpec.

(* ===================================================================== *)
(** * Part III: properties *)
(* ===================================================================== *)

(** ** Strings *)

Module StringsFacts.

Lemma is_empty_false (x : string) : x <> EmptyString -> is_empty x = false.
Proof. intros H. unfold is_empty. apply String.eqb_neq. exact H. Qed.

Lemma is_empty_true (x : string) : is_empty x = true <-> x = EmptyString.
Proof. unfold is_empty. apply String.eqb_eq. Qed.

(** [strings.HasPrefix] and [strings.Contains] find what is there. *)
Lemma prefix_true_iff (sub s : string) :
  String.prefix sub s = true <-> exists post, s = (sub ++ post)%string.
Proof.
  revert s. induction sub as [|c sub IH]; intros s.
  - split; [intros _; exists s; reflexivity|]. intros _. destruct s; reflexivity.
  - destruct s as [|d s]; cbn [String.prefix].
    + split; [discriminate|]. intros [post H]. discriminate H.
    + destruct (ascii_dec c d) as [->|Hne].
      * rewrite IH. split; intros [post H]; exists post.
        -- exact (f_equal (String d) H).
        -- injection H as H. exact H.
      * split; [discriminate|]. intros [post H]. injection H as Hc _.
        symmetry in Hc. contradiction.
Qed.

Lemma Contains_true_iff (s sub : string) :
  Contains s sub = true <-> exists pre post, s = (pre ++ sub ++ post)%string.
Proof.
  induction s as [|c s IH]; cbn [Contains]; unfold HasPrefix.
  - rewrite orb_false_r, prefix_true_iff. split.
    + intros [post H]. exists EmptyString, post. exact H.
    + intros (pre & post & H). destruct pre; [exists post; exact H|discriminate H].
  - rewrite orb_true_iff, prefix_true_iff, IH. split.
    + intros [[post H]|(pre & post & H)].
      * exists EmptyString, post. exact H.
      * exists (String c pre), post. exact (f_equal (String c) H).
    + intros (pre & post & H). destruct pre as [|d pre].
      * left. exists post. exact H.
      * right. injection H as _ H. exists pre, post. exact H.
Qed.

End StringsFacts.

(** ** Single use of authorization states and codes *)

Module OAuth2Facts.

Import OAuth2 OAuth2Spec StringsFacts.

Lemma count_cons (P : goroutine -> bool) (g : goroutine) (pool : list goroutine) :
  count P (g :: pool) = (b2n (P g) + count P pool)%nat.
Proof. unfold count; simpl; destruct (P g); reflexivity. Qed.

(** Replacing one goroutine changes a count by that goroutine only. *)
Lemma count_insert (P : goroutine -> bool) (pool : list goroutine) (i : nat)
      (g g' : goroutine) :
  pool !! i = Some g ->
  (count P (<[i := g']> pool) + b2n (P g) = count P pool + b2n (P g'))%nat.
Proof.
  revert i; induction pool as [|h pool IH]; intros i Hi.
  - discriminate.
  - destruct i as [|i]; simpl in *.
    + injection Hi as ->. rewrite !count_cons. lia.
    + rewrite !count_cons. specialize (IH i Hi). lia.
Qed.

Lemma count_le (P Q : goroutine -> bool) (pool : list goroutine) :
  Forall (fun g => P g = true -> Q g = true) pool ->
  (count P pool <= count Q pool)%nat.
Proof.
  induction 1 as [|g pool Hg _ IH]; [reflexivity|].
  rewrite !count_cons. destruct (P g) eqn:HP.
  - rewrite (Hg eq_refl). simpl. lia.
  - simpl. lia.
Qed.

Lemma count_none (P : goroutine -> bool) (pool : list goroutine) :
  Forall (fun g => P g = false) pool -> count P pool = 0%nat.
Proof.
  induction 1 as [|g pool Hg _ IH]; [reflexivity|].
  rewrite count_cons, Hg, IH. reflexivity.
Qed.

Lemma present_le_1 {A} (k : string) (m : gmap string A) : (present k m <= 1)%nat.
Proof. unfold present. destruct (m !! k); lia. Qed.

Lemma present_delete {A} (k k' : string) (m : gmap string A) :
  present k (delete k' m) = if String.eqb k' k then 0%nat else present k m.
Proof.
  unfold present. destruct (String.eqb_spec k' k) as [->|Hne].
  - rewrite lookup_delete_eq. reflexivity.
  - rewrite lookup_delete_ne by assumption. reflexivity.
Qed.

Lemma present_insert {A} (k k' : string) (v : A) (m : gmap string A) :
  present k (<[k' := v]> m) = if String.eqb k' k then 1%nat else present k m.
Proof.
  unfold present. destruct (String.eqb_spec k' k) as [->|Hne].
  - rewrite lookup_insert_eq. reflexivity.
  - rewrite lookup_insert_ne by assumption. reflexivity.
Qed.

Lemma present_filter {A} (P : string * A -> Prop) `{!forall x, Decision (P x)}
      (k : string) (m : gmap string A) :
  (present k (filter P m) <= present k m)%nat.
Proof.
  unfold present. destruct (filter P m !! k) as [x|] eqn:Hf.
  - apply map_lookup_filter_Some in Hf as [-> _]. lia.
  - lia.
Qed.

Lemma callbackFound_states e r st s :
  states (callbackFound e r st s).1 = states s.
Proof.
  unfold callbackFound.
  destruct (_ >? _); [reflexivity|].
  destruct (Exchange e (q_code r)); [|reflexivity].
  destruct (Contains (h_Accept r) _); reflexivity.
Qed.

Lemma callbackFound_codes e r st s :
  (present (ourCode e) (codes (callbackFound e r st s).1) <= 1 /\
   forall c, String.eqb (ourCode e) c = false ->
             present c (codes (callbackFound e r st s).1) = present c (codes s))%nat.
Proof.
  split; [apply present_le_1|]. intros c Hc.
  unfold callbackFound.
  destruct (_ >? _); [reflexivity|].
  destruct (Exchange e (q_code r)); [|reflexivity].
  destruct (Contains (h_Accept r) _); simpl; rewrite present_insert, Hc; reflexivity.
Qed.

(** A step of one goroutine never adds to the shares of a state. *)
Lemma step_stateShares (k : string) (g : goroutine) (s : OAuth2Server) :
  (present k (states (step g s).1)
   + b2n (mintsState k (step g s).2) + b2n (sawState k (step g s).2)
   <= present k (states s) + b2n (mintsState k g) + b2n (sawState k g))%nat.
Proof.
  destruct g as [k' st|e r|e r st|r f resp|now r|r f resp|now|]; simpl; try lia.
  - rewrite present_insert. destruct (String.eqb k' k); simpl; [lia|lia].
  - destruct (negb (is_empty (q_error r))); simpl; [lia|].
    destruct (is_empty (q_code r) || is_empty (q_state r)); simpl; [lia|].
    unfold lookupDeleteState, present.
    destruct (states s !! q_state r) as [st|] eqn:Hl; simpl.
    + fold (present k (delete (q_state r) (states s))).
      rewrite present_delete. destruct (String.eqb_spec (q_state r) k) as [<-|Hne]; simpl.
      * rewrite Hl. lia.
      * unfold present. lia.
    + lia.
  - destruct (callbackFound e r st s) as [s' resp] eqn:Hc. simpl.
    pose proof (callbackFound_states e r st s) as Hs. rewrite Hc in Hs. simpl in Hs.
    rewrite Hs. lia.
  - destruct (is_empty (f_code r)); simpl; [lia|].
    unfold lookupDeleteCode. destruct (codes s !! f_code r); simpl; lia.
  - pose proof (present_filter
      (fun kv : string * authState => negb (now - as_CreatedAt kv.2 >? stateTTL))
      k (states s)). lia.
Qed.

(** A step of one goroutine never adds to the shares of a code. *)
Lemma step_codeShares (c : string) (g : goroutine) (s : OAuth2Server) :
  (present c (codes (step g s).1)
   + b2n (mintsCode c (step g s).2) + b2n (sawCode c (step g s).2)
   <= present c (codes s) + b2n (mintsCode c g) + b2n (sawCode c g))%nat.
Proof.
  destruct g as [k' st|e r|e r st|r f resp|now r|r f resp|now|]; simpl; try lia.
  - destruct (negb (is_empty (q_error r))); simpl; [lia|].
    destruct (is_empty (q_code r) || is_empty (q_state r)); simpl; [lia|].
    unfold lookupDeleteState.
    destruct (states s !! q_state r); simpl; lia.
  - destruct (callbackFound e r st s) as [s' resp] eqn:Hc. simpl.
    destruct (callbackFound_codes e r st s) as [H1 H2]. rewrite Hc in H1, H2. simpl in *.
    destruct (String.eqb_spec (ourCode e) c) as [<-|Hne]; simpl.
    + lia.
    + rewrite H2; [lia|]. apply String.eqb_neq. assumption.
  - destruct (is_empty (f_code r)); simpl; [lia|].
    unfold lookupDeleteCode, present.
    destruct (codes s !! f_code r) as [cd|] eqn:Hl; simpl.
    + fold (present c (delete (f_code r) (codes s))).
      rewrite present_delete. destruct (String.eqb_spec (f_code r) c) as [<-|Hne]; simpl.
      * rewrite Hl. lia.
      * unfold present. lia.
    + lia.
  - pose proof (present_filter
      (fun kv : string * authCode => negb (now - ac_CreatedAt kv.2 >? codeTTL))
      c (codes s)). lia.
Qed.

Lemma run_one_stateShares (k : string) (i : nat) (sp : system) :
  (stateShares k (run_one i sp) <= stateShares k sp)%nat.
Proof.
  destruct sp as [s pool]. unfold run_one. simpl.
  destruct (pool !! i) as [g|] eqn:Hi; [|reflexivity].
  pose proof (step_stateShares k g s) as Hstep.
  destruct (step g s) as [s' g']. unfold stateShares. simpl in *.
  pose proof (count_insert (mintsState k) pool i g g' Hi).
  pose proof (count_insert (sawState k) pool i g g' Hi).
  lia.
Qed.

Lemma run_one_codeShares (c : string) (i : nat) (sp : system) :
  (codeShares c (run_one i sp) <= codeShares c sp)%nat.
Proof.
  destruct sp as [s pool]. unfold run_one. simpl.
  destruct (pool !! i) as [g|] eqn:Hi; [|reflexivity].
  pose proof (step_codeShares c g s) as Hstep.
  destruct (step g s) as [s' g']. unfold codeShares. simpl in *.
  pose proof (count_insert (mintsCode c) pool i g g' Hi).
  pose proof (count_insert (sawCode c) pool i g g' Hi).
  lia.
Qed.

Lemma run_app (sched1 sched2 : list nat) (sp : system) :
  run (sched1 ++ sched2) sp = run sched2 (run sched1 sp).
Proof. unfold run. apply fold_left_app. Qed.

Lemma run_stateShares (k : string) (sched : list nat) (sp : system) :
  (stateShares k (run sched sp) <= stateShares k sp)%nat.
Proof.
  revert sp; induction sched as [|i sched IH]; intros sp; simpl; [reflexivity|].
  etransitivity; [apply IH|apply run_one_stateShares].
Qed.

Lemma run_codeShares (c : string) (sched : list nat) (sp : system) :
  (codeShares c (run sched sp) <= codeShares c sp)%nat.
Proof.
  revert sp; induction sched as [|i sched IH]; intros sp; simpl; [reflexivity|].
  etransitivity; [apply IH|apply run_one_codeShares].
Qed.

Lemma fresh_honest (g : goroutine) : fresh g = true -> honest g.
Proof. destruct g; simpl; intros H; try exact I; discriminate. Qed.

Lemma step_honest (g : goroutine) (s : OAuth2Server) : honest g -> honest (step g s).2.
Proof.
  destruct g as [k' st|e r|e r st|r f resp|now r|r f resp|now|]; simpl; intros H;
    try exact I; try exact H.
  - destruct (negb (is_empty (q_error r))) eqn:E1; simpl;
      [unfold callbackRefusal; rewrite E1; reflexivity|].
    destruct (is_empty (q_code r) || is_empty (q_state r)) eqn:E2; simpl;
      [unfold callbackRefusal; rewrite E1, E2; reflexivity|].
    unfold lookupDeleteState. destruct (states s !! q_state r); simpl; [exact I|].
    unfold callbackRefusal. rewrite E1, E2. reflexivity.
  - destruct (callbackFound e r st s). exact I.
  - destruct (is_empty (f_code r)) eqn:E1; simpl;
      [unfold tokenRefusal; rewrite E1; reflexivity|].
    unfold lookupDeleteCode. destruct (codes s !! f_code r); simpl; [exact I|].
    unfold tokenRefusal. rewrite E1. reflexivity.
Qed.

Lemma callbackRefusal_fails (r : callbackRequest) : is_success (callbackRefusal r) = false.
Proof.
  unfold callbackRefusal. destruct (negb _); [reflexivity|]. destruct (_ || _); reflexivity.
Qed.

Lemma tokenRefusal_fails (r : tokenRequest) : is_success (tokenRefusal r) = false.
Proof. unfold tokenRefusal. destruct (is_empty _); reflexivity. Qed.

Lemma run_one_honest (i : nat) (sp : system) :
  Forall honest sp.2 -> Forall honest (run_one i sp).2.
Proof.
  destruct sp as [s pool]. unfold run_one. simpl. intros H.
  destruct (pool !! i) as [g|] eqn:Hi; [|exact H].
  pose proof (step_honest g s) as Hs.
  destruct (step g s) as [s' g']. simpl in *.
  apply Forall_insert; [exact H|].
  apply Hs. eapply Forall_lookup_1; eassumption.
Qed.

Lemma run_honest (sched : list nat) (sp : system) :
  Forall honest sp.2 -> Forall honest (run sched sp).2.
Proof.
  revert sp; induction sched as [|i sched IH]; intros sp H; simpl; [exact H|].
  apply IH, run_one_honest, H.
Qed.

Lemma honest_callback (k : string) (g : goroutine) :
  honest g -> callbackSucceeded k g = true -> sawState k g = true.
Proof.
  destruct g as [| | |r [] resp| | | |]; simpl; try discriminate.
  - intros _ H. apply andb_true_iff in H as [_ H]. exact H.
  - intros ->. rewrite callbackRefusal_fails. discriminate.
Qed.

Lemma honest_token (c : string) (g : goroutine) :
  honest g -> tokenSucceeded c g = true -> sawCode c g = true.
Proof.
  destruct g as [| | | | |r [] resp| |]; simpl; try discriminate.
  - intros _ H. apply andb_true_iff in H as [_ H]. exact H.
  - intros ->. rewrite tokenRefusal_fails. discriminate.
Qed.

Lemma fresh_saw_nothing (k c : string) (pool : list goroutine) :
  forallb fresh pool = true ->
  count (sawState k) pool = 0%nat /\ count (sawCode c) pool = 0%nat.
Proof.
  intros H. rewrite forallb_forall in H.
  split; apply count_none; apply List.Forall_forall; intros g Hg;
    specialize (H g Hg); destruct g; simpl in *; try reflexivity; discriminate.
Qed.

(** C1.  Take any server, any set of requests that have not started
    (authorize, callback and token requests, sweeper ticks), and any
    interleaving of their critical sections.  If a state token [k] is
    minted at most once (it is in the map, or one authorize request is
    about to store it), at most one callback quoting [k] finds the entry
    and at most one answers with success; likewise, if a code [c] is
    minted at most once, at most one token exchange quoting [c] finds
    it and at most one answers with tokens.  Every request that did not
    find its entry is refused: with "Invalid or expired state" or
    "Invalid or expired authorization code" when it passed the checks
    made before the lookup. *)
Theorem single_use_of_states_and_codes
        (s : OAuth2Server) (pool : list goroutine) (sched : list nat) (k c : string) :
  forallb fresh pool = true ->
  (present k (states s) + count (mintsState k) pool <= 1)%nat ->
  (present c (codes s) + count (mintsCode c) pool <= 1)%nat ->
  (count (sawState k) (run sched (s, pool)).2 <= 1 /\
   count (callbackSucceeded k) (run sched (s, pool)).2 <= 1 /\
   count (sawCode c) (run sched (s, pool)).2 <= 1 /\
   count (tokenSucceeded c) (run sched (s, pool)).2 <= 1)%nat /\
  Forall honest (run sched (s, pool)).2.
Proof.
  intros Hfresh Hk Hc.
  destruct (fresh_saw_nothing k c pool Hfresh) as [Hs0 Hc0].
  assert (Hh : Forall honest (run sched (s, pool)).2).
  { apply run_honest. simpl. apply List.Forall_forall. intros g Hg.
    apply fresh_honest. rewrite forallb_forall in Hfresh. apply Hfresh, Hg. }
  pose proof (run_stateShares k sched (s, pool)) as HS.
  pose proof (run_codeShares c sched (s, pool)) as HC.
  unfold stateShares, codeShares in HS, HC. simpl in HS, HC.
  assert (count (callbackSucceeded k) (run sched (s, pool)).2
          <= count (sawState k) (run sched (s, pool)).2)%nat.
  { apply count_le. eapply Forall_impl; [exact Hh|]. intros g. apply honest_callback. }
  assert (count (tokenSucceeded c) (run sched (s, pool)).2
          <= count (sawCode c) (run sched (s, pool)).2)%nat.
  { apply count_le. eapply Forall_impl; [exact Hh|]. intros g. apply honest_token. }
  split; [lia|exact Hh].
Qed.

(** The handlers are their goroutines run without interruption. *)
Lemma HandleCallback_steps (e : callbackEnv) (r : callbackRequest) (s : OAuth2Server) :
  exists found,
    run [0%nat; 0%nat] (s, [Callback e r])
    = ((HandleCallback e r s).1, [CallbackDone r found (HandleCallback e r s).2]).
Proof.
  unfold run, run_one, HandleCallback. simpl.
  destruct (negb (is_empty (q_error r))); simpl; [eexists; reflexivity|].
  destruct (is_empty (q_code r) || is_empty (q_state r)); simpl; [eexists; reflexivity|].
  destruct (lookupDeleteState (q_state r) s) as [s1 [st|]]; simpl.
  - destruct (callbackFound e r st s1). eexists; reflexivity.
  - eexists; reflexivity.
Qed.

Lemma handleAuthorizationCodeGrant_steps (now : Z) (r : tokenRequest) (s : OAuth2Server) :
  exists found,
    run [0%nat] (s, [TokenGrant now r])
    = ((handleAuthorizationCodeGrant now r s).1,
       [TokenDone r found (handleAuthorizationCodeGrant now r s).2]).
Proof.
  unfold run, run_one, handleAuthorizationCodeGrant. simpl.
  destruct (is_empty (f_code r)); simpl; [eexists; reflexivity|].
  destruct (lookupDeleteCode (f_code r) s) as [s1 [cd|]]; simpl; eexists; reflexivity.
Qed.

Lemma single_use_of_states_and_codes_witness :
  let final := (run [1; 0; 3; 4; 0; 2; 1]%nat (server1, pool1)).2 in
  forallb fresh pool1 = true /\
  (present "s1" (states server1) + count (mintsState "s1") pool1 <= 1)%nat /\
  (present "c1" (codes server1) + count (mintsCode "c1") pool1 <= 1)%nat /\
  (count (sawState "s1") final <= 1 /\
   count (callbackSucceeded "s1") final <= 1 /\
   count (sawCode "c1") final <= 1 /\
   count (tokenSucceeded "c1") final <= 1)%nat /\
  Forall honest final.
Proof.
  assert (H1 : forallb fresh pool1 = true) by reflexivity.
  assert (H2 : (present "s1" (states server1) + count (mintsState "s1") pool1 <= 1)%nat)
    by (vm_compute; lia).
  assert (H3 : (present "c1" (codes server1) + count (mintsCode "c1") pool1 <= 1)%nat)
    by (vm_compute; lia).
  split; [exact H1|]. split; [exact H2|]. split; [exact H3|].
  exact (single_use_of_states_and_codes server1 pool1 [1; 0; 3; 4; 0; 2; 1]%nat
           "s1" "c1" H1 H2 H3).
Defined.

(** What the sample run ends with: the callback scheduled first got the
    state and the redirect, the other one is refused; the first
    exchange got the tokens, the second is refused. *)
Lemma sample_run_answers :
  map (fun g => match g with
                | CallbackDone _ found resp | TokenDone _ found resp => Some (found, resp)
                | _ => None
                end)
      (run [1; 0; 3; 4; 0; 2; 1]%nat (server1, pool1)).2
  = [ Some (false, OAuthError 400 "invalid_request" "Invalid or expired state");
      Some (true, Redirect 302 "http://localhost:3000/callback?code=c3&state=xyz");
      Some (false, OAuthError 400 "invalid_grant" "Invalid or expired authorization code");
      Some (true, TokenResponse "ya29.a" "Bearer" (Some "1//r"%string) None);
      None ].
Proof. vm_compute. reflexivity. Qed.

(** ** A failed exchange consumes the code *)

Lemma grantFound_fails (now : Z) (r : tokenRequest) (storedCode : authCode) :
  failsAfterLookup now r storedCode ->
  exists description, grantFound now r storedCode = OAuthError 400 "invalid_grant" description.
Proof.
  unfold grantFound, writeOAuthError. intros [Httl|[[Hch Hv]|[Hch Hp]]].
  - apply Z.gt_lt, Z.gtb_lt in Httl. rewrite Httl. eexists; reflexivity.
  - destruct (_ >? _); [eexists; reflexivity|].
    rewrite (is_empty_false _ Hch), Hv. simpl. eexists; reflexivity.
  - destruct (_ >? _); [eexists; reflexivity|].
    rewrite (is_empty_false _ Hch). simpl.
    destruct (is_empty (f_code_verifier r)); [eexists; reflexivity|].
    rewrite Hp. simpl. eexists; reflexivity.
Qed.

Lemma absent_code_rejected (now : Z) (r : tokenRequest) (s : OAuth2Server) :
  f_code r <> EmptyString ->
  codes s !! f_code r = None ->
  handleAuthorizationCodeGrant now r s
  = (s, OAuthError 400 "invalid_grant" "Invalid or expired authorization code").
Proof.
  intros Hne Habs. unfold handleAuthorizationCodeGrant, lookupDeleteCode.
  rewrite (is_empty_false _ Hne), Habs. reflexivity.
Qed.

(** C10.  An exchange that finds the code and then fails the TTL check
    or the PKCE check answers [invalid_grant] and leaves the server
    without the code; whatever requests run afterwards, as long as none
    of them mints the same code again, every later exchange quoting the
    code, whatever its verifier, is answered "Invalid or expired
    authorization code". *)
Theorem failed_exchange_consumes_code
        (s : OAuth2Server) (now : Z) (r : tokenRequest) (storedCode : authCode) :
  f_code r <> EmptyString ->
  codes s !! f_code r = Some storedCode ->
  failsAfterLookup now r storedCode ->
  (exists description,
      (handleAuthorizationCodeGrant now r s).2 = OAuthError 400 "invalid_grant" description) /\
  codes (handleAuthorizationCodeGrant now r s).1 !! f_code r = None /\
  forall (pool : list goroutine) (sched : list nat) (now' : Z) (r' : tokenRequest),
    forallb fresh pool = true ->
    count (mintsCode (f_code r)) pool = 0%nat ->
    f_code r' = f_code r ->
    (handleAuthorizationCodeGrant now' r'
       (run sched ((handleAuthorizationCodeGrant now r s).1, pool)).1).2
    = OAuthError 400 "invalid_grant" "Invalid or expired authorization code".
Proof.
  intros Hne Hl Hfail.
  assert (Hrun : handleAuthorizationCodeGrant now r s
                 = (set_codes s (delete (f_code r) (codes s)), grantFound now r storedCode)).
  { unfold handleAuthorizationCodeGrant, lookupDeleteCode.
    rewrite (is_empty_false _ Hne), Hl. reflexivity. }
  rewrite Hrun. simpl. split; [apply grantFound_fails, Hfail|].
  split; [apply lookup_delete_eq|].
  intros pool sched now' r' Hfresh Hmint Hr'.
  set (s1 := set_codes s (delete (f_code r) (codes s))).
  pose proof (run_codeShares (f_code r) sched (s1, pool)) as HC.
  destruct (fresh_saw_nothing (f_code r) (f_code r) pool Hfresh) as [_ Hsaw].
  unfold codeShares in HC. simpl in HC.
  rewrite Hmint, Hsaw, present_delete, String.eqb_refl in HC.
  assert (Habs : codes (run sched (s1, pool)).1 !! f_code r' = None).
  { rewrite Hr'. unfold present in HC.
    destruct (codes (run sched (s1, pool)).1 !! f_code r); [simpl in HC; lia|reflexivity]. }
  rewrite absent_code_rejected; [reflexivity| |exact Habs].
  rewrite Hr'. exact Hne.
Qed.

Lemma failed_exchange_consumes_code_witness :
  f_code wrongRequest <> EmptyString /\
  codes server1 !! f_code wrongRequest = Some code1 /\
  failsAfterLookup second wrongRequest code1 /\
  (exists description,
      (handleAuthorizationCodeGrant second wrongRequest server1).2
      = OAuthError 400 "invalid_grant" description) /\
  codes (handleAuthorizationCodeGrant second wrongRequest server1).1 !! f_code wrongRequest
  = None /\
  forall (pool : list goroutine) (sched : list nat) (now' : Z) (r' : tokenRequest),
    forallb fresh pool = true ->
    count (mintsCode (f_code wrongRequest)) pool = 0%nat ->
    f_code r' = f_code wrongRequest ->
    (handleAuthorizationCodeGrant now' r'
       (run sched ((handleAuthorizationCodeGrant second wrongRequest server1).1, pool)).1).2
    = OAuthError 400 "invalid_grant" "Invalid or expired authorization code".
Proof.
  assert (H1 : f_code wrongRequest <> EmptyString) by discriminate.
  assert (H2 : codes server1 !! f_code wrongRequest = Some code1)
    by (vm_compute; reflexivity).
  assert (H3 : failsAfterLookup second wrongRequest code1).
  { right; right. split; [discriminate|]. vm_compute. reflexivity. }
  split; [exact H1|]. split; [exact H2|]. split; [exact H3|].
  exact (failed_exchange_consumes_code server1 second wrongRequest code1 H1 H2 H3).
Defined.

End OAuth2Facts.

(** ** The PKCE check *)

Module PKCEFacts.

Import OAuth2.

(** [validatePKCE] accepts exactly when the method is S256 and the
    challenge is the unpadded base64url text of the SHA-256 digest of
    the verifier. *)
Lemma validatePKCE_iff (verifier challenge method : string) :
  validatePKCE verifier challenge method = true <->
  method = "S256"%string /\
  Base64.RawURLEncodeToString (Sha256.Sum256 (bytes_of_string verifier)) = challenge.
Proof.
  unfold validatePKCE. destruct (String.eqb_spec method "S256") as [->|Hne]; simpl.
  - rewrite String.eqb_eq. tauto.
  - split; [discriminate|]. intros [H _]. contradiction.
Qed.

(** The vector of RFC 7636, appendix B. *)
Lemma validatePKCE_rfc7636 :
  validatePKCE "dBjftJeZ4CVP-mB92K27uhbUJU1p1r_wW1gFWFOEjXk"
               "E9Melhoa2OwvFrEMTJguCHaoeK1t8URWbuGJSstw-cM" "S256" = true.
Proof. vm_compute. reflexivity. Qed.

(** The wrong verifier of [TestValidatePKCE]. *)
Lemma validatePKCE_wrong_verifier :
  validatePKCE "wrong-verifier" "E9Melhoa2OwvFrEMTJguCHaoeK1t8URWbuGJSstw-cM" "S256" = false.
Proof. vm_compute. reflexivity. Qed.

Lemma validatePKCE_plain (verifier challenge : string) :
  validatePKCE verifier challenge "plain" = false.
Proof. reflexivity. Qed.

(** A verifier is accepted for a challenge only if its digest is the
    one the challenge encodes: two verifiers accepted for the same
    challenge have digests with the same base64url text. *)
Lemma validatePKCE_same_digest (v1 v2 challenge method : string) :
  validatePKCE v1 challenge method = true ->
  validatePKCE v2 challenge method = true ->
  Base64.RawURLEncodeToString (Sha256.Sum256 (bytes_of_string v1))
  = Base64.RawURLEncodeToString (Sha256.Sum256 (bytes_of_string v2)).
Proof.
  intros H1 H2. apply validatePKCE_iff in H1 as [_ H1], H2 as [_ H2]. congruence.
Qed.

End PKCEFacts.

(** ** The credential parser *)

Module CredentialsFacts.

Import OAuth2 Credentials CredentialsSpec.

Ltac nonempty x H :=
  destruct x; [exfalso; apply H; reflexivity|].

(** X1.  With both fields present and not empty, each shape yields exactly
    the two values. *)
Lemma parseCredentials_complete (id secret : string) :
  id <> EmptyString -> secret <> EmptyString ->
  parseCredentials (Some (webShape (Some id) (Some secret))) = inl (mkCreds id secret) /\
  parseCredentials (Some (installedShape (Some id) (Some secret))) = inl (mkCreds id secret) /\
  parseCredentials (Some (flatShape (Some id) (Some secret))) = inl (mkCreds id secret).
Proof.
  intros Hid Hsec. nonempty id Hid. nonempty secret Hsec.
  repeat split; reflexivity.
Qed.

(** The flat shape with a field missing or empty is refused. *)
Lemma parseCredentials_flat_incomplete (id secret : option string) :
  blank id \/ blank secret ->
  parseCredentials (Some (flatShape id secret)) = inr MissingFields.
Proof.
  intros H. destruct id as [[|? ?]|], secret as [[|? ?]|]; try reflexivity;
    exfalso; destruct H as [[H|H]|[H|H]]; discriminate.
Qed.

(** The wrapped shapes with [client_id] missing or empty are refused. *)
Lemma parseCredentials_wrapped_without_id (id secret : option string) :
  blank id ->
  parseCredentials (Some (webShape id secret)) = inr MissingFields /\
  parseCredentials (Some (installedShape id secret)) = inr MissingFields.
Proof.
  intros H. destruct id as [[|? ?]|], secret as [[|? ?]|]; try (split; reflexivity);
    exfalso; destruct H as [H|H]; discriminate.
Qed.

(** C3 fails on the code.  The wrapped shapes are accepted as soon as
    [client_id] is not empty; [client_secret] is not looked at, so a
    payload without it yields credentials with an empty secret instead
    of the error that the flat shape gets. *)
Theorem parseCredentials_wrapped_without_secret :
  parseCredentials (Some (webShape (Some "web-id"%string) None))
  = inl (mkCreds "web-id" EmptyString) /\
  parseCredentials (Some (installedShape (Some "inst-id"%string) (Some EmptyString)))
  = inl (mkCreds "inst-id" EmptyString) /\
  parseCredentials (Some (flatShape (Some "flat-id"%string) None)) = inr MissingFields.
Proof. repeat split; reflexivity. Qed.

End CredentialsFacts.

(** ** The bearer middleware *)

Module ServerFacts.

Import OAuth2 Server ServerSpec.

Lemma substring_full (s : string) : String.substring 0 (String.length s) s = s.
Proof. induction s as [|c s IH]; simpl; [reflexivity|]. rewrite IH. reflexivity. Qed.

Lemma TrimPrefix_Bearer (tok : string) : TrimPrefix ("Bearer " ++ tok) "Bearer " = tok.
Proof.
  unfold TrimPrefix, HasPrefix. simpl.
  destruct tok as [|c tok]; simpl; [reflexivity|].
  rewrite substring_full. reflexivity.
Qed.

(** C4.  Without an [Authorization] header, or with one that does not
    start with "Bearer ", the answer is 401 with the challenge that
    points to the protected-resource metadata under the base URL; with
    the header "Bearer " and nothing after it, the answer is 401 with the
    same pointer and [error="invalid_token"]; with a bearer that is not
    empty, the validation returns the shared configuration paired with
    the presented token, whatever the token, and the inner handler
    runs. *)
Theorem bearer_middleware (srv : Server) :
  let url := (BaseURL (config srv) ++ "/.well-known/oauth-protected-resource")%string in
  let pointer := ("resource_metadata=" ++ dquote ++ url ++ dquote)%string in
  authMiddleware srv None
  = Rejected 401 ("Bearer " ++ pointer) "Authentication required" /\
  (forall header : string,
      HasPrefix header "Bearer " = false ->
      authMiddleware srv (Some header)
      = Rejected 401 ("Bearer " ++ pointer) "Authentication required") /\
  authMiddleware srv (Some "Bearer "%string)
  = Rejected 401 ("Bearer error=" ++ dquote ++ "invalid_token" ++ dquote ++ ", " ++ pointer)
             "Invalid token" /\
  (forall token : string,
      token <> EmptyString ->
      ValidateAccessToken (oauth2 srv) token
      = Some (oauthConfig (oauth2 srv), mkToken token EmptyString None) /\
      authMiddleware srv (Some ("Bearer " ++ token)%string) = Next).
Proof.
  simpl. split; [reflexivity|]. split; [|split].
  - intros header Hp. unfold authMiddleware. simpl. rewrite Hp.
    rewrite orb_true_r. reflexivity.
  - reflexivity.
  - intros token Hne.
    assert (Hv : ValidateAccessToken (oauth2 srv) token
                 = Some (oauthConfig (oauth2 srv), mkToken token EmptyString None)).
    { unfold ValidateAccessToken. rewrite (StringsFacts.is_empty_false _ Hne). reflexivity. }
    split; [exact Hv|].
    unfold authMiddleware.
    change (HeaderGet (Some ("Bearer " ++ token)%string)) with ("Bearer " ++ token)%string.
    rewrite TrimPrefix_Bearer, Hv.
    unfold HasPrefix, is_empty. simpl.
    destruct token; reflexivity.
Qed.

Lemma bearer_middleware_witness :
  HasPrefix "Basic dXNlcjpwYXNz" "Bearer " = false /\
  authMiddleware server2 (Some "Basic dXNlcjpwYXNz"%string)
  = Rejected 401 (challengeMissing server2) "Authentication required" /\
  "valid-test-token"%string <> EmptyString /\
  authMiddleware server2 (Some "Bearer valid-test-token"%string) = Next.
Proof.
  destruct (bearer_middleware server2) as (_ & Hscheme & _ & Htoken).
  assert (H1 : HasPrefix "Basic dXNlcjpwYXNz" "Bearer " = false) by reflexivity.
  assert (H2 : "valid-test-token"%string <> EmptyString) by discriminate.
  split; [exact H1|]. split; [exact (Hscheme _ H1)|].
  split; [exact H2|]. exact (proj2 (Htoken _ H2)).
Defined.

End ServerFacts.

(** ** Path reconstruction *)

Module DriveFacts.

Import Drive DriveSpec.

Lemma walk_sound (get : nat -> string -> option File) (fuel : nat) :
  forall n id acc r,
    walk fuel get n id acc = Some r ->
    exists p, PathOf get n id p /\ r = p ++ acc.
Proof.
  induction fuel as [|fuel IH]; intros n id acc r; simpl.
  - destruct (is_empty id) eqn:He; [|discriminate].
    intros [= <-]. apply StringsFacts.is_empty_true in He as ->.
    exists []. split; [constructor|reflexivity].
  - destruct (is_empty id) eqn:He.
    { intros [= <-]. apply StringsFacts.is_empty_true in He as ->.
      exists []. split; [constructor|reflexivity]. }
    assert (Hid : id <> EmptyString).
    { intros ->. discriminate. }
    destruct (get n id) as [f|] eqn:Hg.
    + destruct (Parents f) as [|parent others] eqn:Hp.
      * intros Hr. exists [pseudoRoot f; component f].
        split; [apply PathTop; assumption|].
        unfold pseudoRoot, is_empty in *.
        destruct (String.eqb (SharedWithMeTime f) EmptyString); simpl in Hr;
          injection Hr as <-; reflexivity.
      * intros H. apply IH in H as (p & Hp' & ->).
        exists (p ++ [component f]). split; [eapply PathUp; eassumption|].
        rewrite <- app_assoc. reflexivity.
    + intros [= <-]. exists []. split; [apply PathFetchFails; assumption|reflexivity].
Qed.

Lemma walk_total (get : nat -> string -> option File) (rank : string -> nat) :
  (forall n id f parent others,
      get n id = Some f -> Parents f = parent :: others -> (rank parent < rank id)%nat) ->
  forall fuel n id acc,
    (rank id < fuel)%nat -> exists r, walk fuel get n id acc = Some r.
Proof.
  intros Hrank. induction fuel as [|fuel IH]; intros n id acc Hlt; [lia|]. simpl.
  destruct (is_empty id); [eexists; reflexivity|].
  destruct (get n id) as [f|] eqn:Hg; [|eexists; reflexivity].
  destruct (Parents f) as [|parent others] eqn:Hp.
  - destruct (negb _); eexists; reflexivity.
  - apply IH. specialize (Hrank n id f parent others Hg Hp). lia.
Qed.

(** C7.  Whenever the parent chains are finite ([rank] decreases from a
    node to its first parent), [GetFilePath] returns, its error is
    [nil], and its path is the one described by [PathOf]: the names from
    the top down to the file, under the pseudo-root when the walk
    reached a node without parents, and only what was gathered when a
    fetch failed.  [GetFileInfo] and the [drive_file_info] handler then
    succeed as soon as the metadata request of the file does, whatever
    happens during the walk. *)
Theorem path_reconstruction
        (getInfo : string -> option File) (get : nat -> string -> option File)
        (rank : string -> nat) (args : gmap string Json.value) :
  (forall n id f parent others,
      get n id = Some f -> Parents f = parent :: others -> (rank parent < rank id)%nat) ->
  let fileID := Tools.stringArg args "fileId" in
  let fuel := S (rank fileID) in
  exists path,
    PathOf get 0 fileID path /\
    GetFilePath fuel get fileID = Some (path, None) /\
    forall file,
      getInfo fileID = Some file ->
      (exists info,
          GetFileInfo fuel getInfo get fileID = Some (inl info) /\ fi_Path info = path) /\
      (exists result,
          Tools.fileInfoHandler fuel getInfo get args = Some (inl result) /\
          Tools.r_path result = map pc_Name path).
Proof.
  intros Hrank fileID fuel.
  destruct (walk_total get rank Hrank fuel 0%nat fileID []) as [r Hr]; [unfold fuel; lia|].
  destruct (walk_sound get fuel 0%nat fileID [] r Hr) as (path & Hpath & ->).
  rewrite app_nil_r in Hr.
  assert (HG : GetFilePath fuel get fileID = Some (path, None)).
  { unfold GetFilePath. rewrite Hr. reflexivity. }
  exists path. split; [exact Hpath|]. split; [exact HG|].
  intros file Hfile.
  assert (HI : GetFileInfo fuel getInfo get fileID
               = Some (inl (mkFileInfo (Id file) (Name file) (MimeType file) (Size file)
                              (CreatedTime file) (ModifiedTime file) (WebViewLink file)
                              (Owners file) path))).
  { unfold GetFileInfo. rewrite Hfile, HG. reflexivity. }
  split.
  - eexists. split; [exact HI|reflexivity].
  - unfold Tools.fileInfoHandler. fold fileID. rewrite HI.
    eexists. split; reflexivity.
Qed.

Lemma sampleRank_decreases n id f parent others :
  sampleGet n id = Some f -> Parents f = parent :: others ->
  (sampleRank parent < sampleRank id)%nat.
Proof.
  unfold sampleGet, sampleRank.
  destruct (String.eqb id "file"); [intros [= <-] [= <- _]; simpl; lia|].
  destruct (String.eqb id "dir"); [intros [= <-]; discriminate|].
  destruct (String.eqb id "lost"); [intros [= <-] [= <- _]; simpl; lia|].
  discriminate.
Qed.

Lemma path_reconstruction_witness :
  exists path,
    PathOf sampleGet 0 "lost" path /\
    GetFilePath 2 sampleGet "lost" = Some (path, None) /\
    forall file,
      sampleGet 0 "lost" = Some file ->
      (exists info,
          GetFileInfo 2 (sampleGet 0) sampleGet "lost" = Some (inl info) /\
          fi_Path info = path) /\
      (exists result,
          Tools.fileInfoHandler 2 (sampleGet 0) sampleGet
            {[ "fileId"%string := Json.Str "lost" ]} = Some (inl result) /\
          Tools.r_path result = map pc_Name path).
Proof.
  exact (path_reconstruction (sampleGet 0) sampleGet sampleRank
           {[ "fileId"%string := Json.Str "lost" ]} sampleRank_decreases).
Defined.

End DriveFacts.

(** ** The tools *)

Module ToolsFacts.

Import Tools ToolsSpec.

(** *** [drive_folder_list] *)

(** The handler hands on what [Files.List] answered, entry by entry and
    in the same order. *)
Lemma folderListHandler_keeps_order
      (filesList : string -> option (list Drive.File)) (args : gmap string Json.value)
      (answer : list Drive.File) :
  filesList (Drive.folderQuery (stringArg args "folderId")) = Some answer ->
  folderListHandler filesList args = inl (map itemOf answer).
Proof.
  intros H. unfold folderListHandler, Drive.ListFolder. rewrite H. reflexivity.
Qed.

(** C8 fails on the code: the handler does not sort.  With an upstream
    that lists [a.txt] before the folder [b], so does the tool. *)
Theorem folder_list_is_not_sorted :
  folderListHandler listing {[ "folderId"%string := Json.Str "root" ]}
  = inl [itemOf notes; itemOf folderB] /\
  foldersFirstThenName [itemOf notes; itemOf folderB] = false /\
  foldersFirstThenName [itemOf folderB; itemOf notes] = true.
Proof. repeat split; vm_compute; reflexivity. Qed.

(** *** [drive_delete] *)

(** C9.  For a file that the upstream knows and a [Files.Get] that is
    served: if the file is in the trash, the handler sends no update and
    answers "File is already in trash", which is no error; if it is
    not, the handler sends exactly one update.  When the upstream
    serves that update the file is in the trash and the answer is "File
    moved to trash"; a second call then finds it there, sends nothing,
    answers "File is already in trash" and leaves the upstream as the
    first call left it.  When the upstream refuses the update, the tool
    fails with "trash file failed" and the files are as they were.  When
    the [Files.Get] is refused, nothing is sent at all. *)
Theorem delete_is_idempotent (up again : faults) (args : gmap string Json.value)
        (d : remote) (file : Drive.File) :
  files d !! stringArg args "fileId" = Some file ->
  let fileID := stringArg args "fileId" in
  let already := inl (mkDeleteResult (Drive.Id file) (Drive.Name file)
                                     "File is already in trash") in
  let d1 := (deleteHandler up args d).1 in
  (forall err, getFails up = Some err ->
               deleteHandler up args d = (d, inr ("file not found: " ++ err)%string)) /\
  (getFails up = None -> Drive.Trashed file = true ->
   deleteHandler up args d = (d, already)) /\
  (getFails up = None -> Drive.Trashed file = false ->
   updates d1 = updates d ++ [fileID] /\
   match updateFails up with
   | None =>
       (deleteHandler up args d).2
       = inl (mkDeleteResult (Drive.Id file) (Drive.Name file) "File moved to trash") /\
       files d1 = <[fileID := setTrashed file]> (files d) /\
       (getFails again = None -> deleteHandler again args d1 = (d1, already))
   | Some err =>
       (deleteHandler up args d).2 = inr ("trash file failed: " ++ err)%string /\
       files d1 = files d
   end).
Proof.
  intros Hfile fileID already d1. subst d1.
  unfold deleteHandler, FilesGet, FilesUpdateTrashed. fold fileID.
  unfold fileID in *. split; [|split].
  - intros err ->. reflexivity.
  - intros -> Ht. rewrite Hfile, Ht. reflexivity.
  - intros -> Ht. rewrite Hfile, Ht.
    destruct (updateFails up) as [err|]; simpl.
    + split; [reflexivity|]. split; reflexivity.
    + split; [reflexivity|]. split; [reflexivity|]. split; [reflexivity|].
      intros ->. rewrite lookup_insert_eq. reflexivity.
Qed.

Lemma delete_is_idempotent_witness :
  let args : gmap string Json.value := {[ "fileId"%string := Json.Str "1" ]} in
  let once := deleteHandler noFaults args remote1 in
  files remote1 !! stringArg args "fileId" = Some notes /\
  once.2 = inl (mkDeleteResult "1" "a.txt" "File moved to trash") /\
  updates (deleteHandler noFaults args once.1).1 = ["1"%string] /\
  (deleteHandler noFaults args once.1).2
  = inl (mkDeleteResult "1" "a.txt" "File is already in trash") /\
  deleteHandler (mkFaults None (Some "googleapi: Error 403: forbidden"%string)) args remote1
  = (mkRemote (files remote1) ["1"%string],
     inr "trash file failed: googleapi: Error 403: forbidden"%string).
Proof.
  intros args once.
  assert (H : files remote1 !! stringArg args "fileId" = Some notes)
    by (vm_compute; reflexivity).
  split; [exact H|].
  destruct (delete_is_idempotent noFaults noFaults args remote1 notes H) as (_ & _ & Hnew).
  destruct (Hnew eq_refl eq_refl) as (Hupd & Hmoved & _ & Hagain).
  split; [exact Hmoved|].
  unfold once. rewrite (Hagain eq_refl). simpl.
  split; [rewrite Hupd; reflexivity|]. split; [reflexivity|].
  destruct (delete_is_idempotent (mkFaults None (Some "googleapi: Error 403: forbidden"%string))
              noFaults args remote1 notes H) as (_ & _ & Hrefused).
  destruct (Hrefused eq_refl eq_refl) as (Hupd' & Herr & Hfiles).
  remember (deleteHandler (mkFaults None (Some "googleapi: Error 403: forbidden"%string))
                          args remote1) as out eqn:E in *.
  clear E. destruct out as [[fs ups] res].
  simpl in Hupd', Herr, Hfiles. rewrite Hupd', Herr, Hfiles. reflexivity.
Defined.

End ToolsFacts.

(** ** The activity query *)

Module ActivityFacts.

Import Activity Tools ActivitySpec.

(** *** The cap on the number of results *)

(** The clamp of the handler works: whatever the arguments, the
    effective [maxResults] is at most 200. *)
Lemma historyMaxResults_le_200 (outOfRange : Q -> Z) (args : gmap string Json.value) :
  historyMaxResults outOfRange args <= 200.
Proof.
  unfold historyMaxResults.
  match goal with |- (if ?m >? 200 then _ else _) <= _ => destruct (Z.gtb_spec m 200) end; lia.
Qed.

Section Bound.

Context {activity info : Type}.
Variable convert : activity -> info.
Variable Do : nat -> request -> answer activity.
Variable maxResults : Z.
Hypothesis positiveMax : 0 < maxResults.

Lemma processPage_bound (acts : list activity) :
  forall activities,
    Z.of_nat (length activities) < maxResults ->
    Z.of_nat (length (processPage convert maxResults acts activities).1) <= maxResults /\
    ((processPage convert maxResults acts activities).2 = false ->
     Z.of_nat (length (processPage convert maxResults acts activities).1) < maxResults).
Proof.
  induction acts as [|a rest IH]; intros activities Hlen; simpl.
  - split; [lia|intros _; exact Hlen].
  - assert (Hl : length (activities ++ [convert a]) = S (length activities)).
    { rewrite length_app. simpl. lia. }
    destruct (Z.gtb_spec maxResults 0) as [_|]; [|lia]. simpl.
    destruct (Z.geb_spec (Z.of_nat (length (activities ++ [convert a]))) maxResults)
      as [Hge|Hlt]; simpl.
    + split; [rewrite Hl in *; lia|discriminate].
    + apply IH. exact Hlt.
Qed.

(** With a positive [maxResults] the page loop returns at most
    [maxResults] activities. *)
Lemma pageLoop_bound (fuel : nat) :
  forall req pageToken pageCount activities w result w',
    Z.of_nat (length activities) < maxResults ->
    pageLoop convert Do fuel maxResults req pageToken pageCount activities w
    = Some (inl result, w') ->
    Z.of_nat (length result) <= maxResults.
Proof.
  induction fuel as [|fuel IH]; intros req pageToken pageCount activities w result w' Hlen;
    simpl; [discriminate|].
  destruct (fetchPage Do _ w) as [[resp|msg|] w1]; [|discriminate|discriminate].
  pose proof (processPage_bound (Activities resp) activities Hlen) as [Hle Hlt].
  destruct (processPage convert maxResults (Activities resp) activities) as [acts [|]];
    simpl in *.
  - intros [= <- _]. exact Hle.
  - specialize (Hlt eq_refl).
    destruct (is_empty (NextPageToken resp)); [intros [= <- _]; lia|].
    destruct ((maxResults >? 0) && (Z.of_nat (length acts) >=? maxResults));
      [intros [= <- _]; lia|].
    apply IH. exact Hlt.
Qed.

End Bound.

Lemma QueryDriveActivity_bound {activity info : Type} (convert : activity -> info)
      (timeFilter : Z -> string) (Do : nat -> request -> answer activity)
      (fuel : nat) (daysBack maxResults : Z) (w w' : world) (result : list info) :
  0 < maxResults ->
  QueryDriveActivity convert timeFilter Do fuel daysBack maxResults w = Some (inl result, w') ->
  Z.of_nat (length result) <= maxResults.
Proof.
  intros Hpos H. unfold QueryDriveActivity in H.
  eapply pageLoop_bound; [exact Hpos| |exact H]. simpl. lia.
Qed.

(** C5 fails on the code.  A [maxResults] between 0 and 1 passes the
    test [mr > 0] and is converted to 0, which neither the clamp nor
    [QueryDriveActivity] (where 0 means no limit) bounds: with three
    full pages upstream the tool returns 300 activities. *)
Theorem activity_history_exceeds_cap :
  historyMaxResults (fun _ => 0) halfArgs = 0 /\
  exists result,
    activityHistoryHandler (fun a : nat => a) (fun _ => EmptyString) threePages
                           (fun _ => 0) 10 halfArgs = Some (inl result) /\
    length result = 300%nat.
Proof.
  split; [vm_compute; reflexivity|].
  eexists. split; [vm_compute; reflexivity|]. vm_compute. reflexivity.
Qed.

(** Past the gap, that is with an effective [maxResults] of at least 1,
    the tool returns at most 200 activities. *)
Lemma activityHistoryHandler_bound {activity info : Type} (convert : activity -> info)
      (timeFilter : Z -> string) (Do : nat -> request -> answer activity)
      (outOfRange : Q -> Z) (fuel : nat) (args : gmap string Json.value)
      (result : list info) :
  1 <= historyMaxResults outOfRange args ->
  activityHistoryHandler convert timeFilter Do outOfRange fuel args = Some (inl result) ->
  (length result <= 200)%nat.
Proof.
  intros Hpos. unfold activityHistoryHandler.
  destruct (QueryDriveActivity _ _ _ _ _ _ _) as [[[acts|msg] w]|] eqn:HQ; [|discriminate..].
  intros [= <-].
  apply QueryDriveActivity_bound in HQ; [|lia].
  pose proof (historyMaxResults_le_200 outOfRange args). lia.
Qed.

(** *** Retries and pauses *)

Lemma backoff_delay (retry : Z) :
  0 <= retry -> baseDelay * Z.shiftl 1 retry = 2 ^ (retry + 1) * second.
Proof.
  intros H. rewrite Z.shiftl_1_l, Z.pow_add_r, Z.pow_1_r by lia.
  unfold baseDelay. ring.
Qed.

(** The test of the code is the condition of the specification. *)
Lemma isRateLimit_iff (msg : string) : isRateLimit msg = true <-> retryable msg.
Proof.
  unfold isRateLimit, retryable, holds.
  rewrite orb_true_iff, !StringsFacts.Contains_true_iff. reflexivity.
Qed.

Lemma isRateLimit_false (msg : string) : isRateLimit msg = false <-> ~ retryable msg.
Proof.
  rewrite <- isRateLimit_iff. destruct (isRateLimit msg); split; try discriminate; auto.
  intros H. exfalso. apply H. reflexivity.
Qed.

Section Traces.

Context {activity info : Type}.
Variable convert : activity -> info.
Variable Do : nat -> request -> answer activity.

Lemma retryLoop_trace (left : nat) :
  forall retry req w,
    0 <= retry <= 3 -> retry + Z.of_nat left = 4 ->
    exists pre,
      events (retryLoop Do left retry req w).2 = events w ++ pre /\
      match (retryLoop Do left retry req w).1 with
      | Got _ =>
          exists pre',
            pre = pre' ++ [Queried req None] /\
            forall c tail out,
              (forall k, LoopTrace c k (Queried req None :: tail) out) ->
              LoopTrace c retry (pre' ++ Queried req None :: tail) out
      | Failed msg => forall c, LoopTrace c retry pre (Some msg)
      | Exhausted => False
      end.
Proof.
  induction left as [|left IH]; intros retry req w Hr Hsum; [lia|]. simpl.
  destruct (Do (calls w) req) as [msg|resp]; simpl.
  - destruct (isRateLimit msg) eqn:HR; simpl.
    + unfold maxRetries. destruct (Z.ltb_spec retry 3) as [Hlt|Hge].
      * set (w1 := sleep _ _).
        destruct (IH (retry + 1) req w1) as (pre1 & Hev & Hres); [lia|lia|].
        exists (Queried req (Some msg) :: Slept (2 ^ (retry + 1) * second) :: pre1).
        split.
        { rewrite Hev. unfold w1, sleep. simpl.
          rewrite backoff_delay by lia. rewrite <- !app_assoc. reflexivity. }
        destruct (retryLoop Do left (retry + 1) req w1).1 as [resp|msg'|].
        -- destruct Hres as (pre' & -> & Hk).
           exists (Queried req (Some msg) :: Slept (2 ^ (retry + 1) * second) :: pre').
           split; [reflexivity|]. intros c tail out Htail. simpl.
           apply TraceRetry; [apply isRateLimit_iff, HR|exact Hlt|]. apply Hk, Htail.
        -- intros c. apply TraceRetry; [apply isRateLimit_iff, HR|exact Hlt|apply Hres].
        -- exact Hres.
      * exists [Queried req (Some msg)]. split; [reflexivity|].
        intros c. apply TraceFatal. right. lia.
    + exists [Queried req (Some msg)]. split; [reflexivity|].
      intros c. apply TraceFatal. left. apply isRateLimit_false, HR.
  - exists [Queried req None]. split; [reflexivity|].
    exists []. split; [reflexivity|]. intros c tail out Htail. apply Htail.
Qed.

(** Each page is fetched in at most four attempts. *)
Lemma fetchPage_returns (req : request) (w : world) :
  (fetchPage Do req w).1 <> Exhausted.
Proof.
  unfold fetchPage. intros H.
  destruct (retryLoop_trace (Z.to_nat (maxRetries + 1)) 0 req w) as (pre & _ & Hres);
    [lia|reflexivity|].
  rewrite H in Hres. exact Hres.
Qed.

Lemma pageLoop_trace (fuel : nat) :
  forall maxResults req pageToken pageCount activities w r w',
    pageLoop convert Do fuel maxResults req pageToken pageCount activities w = Some (r, w') ->
    exists tr out,
      events w' = events w ++ tr /\ LoopTrace pageCount 0 tr out /\ endsWith r out.
Proof.
  induction fuel as [|fuel IH];
    intros maxResults req pageToken pageCount activities w r w'; simpl; [discriminate|].
  set (req' := if negb (is_empty pageToken) then _ else _).
  unfold fetchPage.
  destruct (retryLoop_trace (Z.to_nat (maxRetries + 1)) 0 req' w) as (pre & Hev & Hres);
    [lia|reflexivity|].
  destruct (retryLoop Do (Z.to_nat (maxRetries + 1)) 0 req' w) as [[resp|msg|] w1];
    simpl in Hev, Hres.
  - destruct Hres as (pre' & -> & Hk).
    set (w2 := if Z.rem (pageCount + 1) maxPagesPerBatch =? 0 then _ else _).
    assert (Hfinish :
              forall w3 tr out,
                events w3 = events w2 ++ tr -> LoopTrace (pageCount + 1) 0 tr out ->
                exists tr', events w3 = events w ++ tr' /\ LoopTrace pageCount 0 tr' out).
    { intros w3 tr out Hw3 Htr. unfold w2, maxPagesPerBatch in Hw3.
      destruct (Z.eqb_spec (Z.rem (pageCount + 1) 90) 0) as [Hz|Hnz].
      - exists (pre' ++ Queried req' None :: Slept (60 * second) :: tr). split.
        + rewrite Hw3. unfold sleep. simpl. rewrite Hev, <- !app_assoc. reflexivity.
        + apply Hk. intros k. apply TracePause; assumption.
      - exists (pre' ++ Queried req' None :: tr). split.
        + rewrite Hw3, Hev, <- !app_assoc. reflexivity.
        + apply Hk. intros k. apply TracePage; assumption. }
    assert (Hstop : forall acts : list info,
               exists tr out,
                 events w2 = events w ++ tr /\ LoopTrace pageCount 0 tr out /\
                 endsWith (inl acts) out).
    { intros acts.
      destruct (Hfinish w2 [] None) as (tr & Htr & HT);
        [symmetry; apply app_nil_r|constructor|].
      exists tr, None. repeat split; assumption. }
    destruct (processPage convert maxResults (Activities resp) activities) as [acts [|]].
    + intros [= <- <-]. apply Hstop.
    + destruct (is_empty (NextPageToken resp)); [intros [= <- <-]; apply Hstop|].
      destruct ((maxResults >? 0) && (Z.of_nat (length acts) >=? maxResults));
        [intros [= <- <-]; apply Hstop|].
      intros Hloop. apply IH in Hloop as (tr & out & Hw' & Htr & Hout).
      destruct (Hfinish w' tr out Hw' Htr) as (tr' & Htr' & HT).
      exists tr', out. repeat split; assumption.
  - intros [= <- <-]. exists pre, (Some msg). repeat split; [exact Hev|apply Hres].
  - contradiction.
Qed.

(** *** The query returns *)

(** When every fetch that starts within the first [n] requests ends
    with a page within them, or with a failure that [Post] describes,
    the query returns once it has fuel for [n] more pages: with its
    activities within the first [n] requests, or with the error of a
    failed fetch. *)
Lemma pageLoop_returns (n : nat) (Post : string -> world -> Prop)
      (Hfetch : forall req w,
          (calls w <= n)%nat ->
          (calls w < calls (fetchPage Do req w).2)%nat /\
          match (fetchPage Do req w).1 with
          | Got _ => (calls (fetchPage Do req w).2 <= n)%nat
          | Failed msg => Post msg (fetchPage Do req w).2
          | Exhausted => False
          end)
      (fuel : nat) :
  forall maxResults req pageToken pageCount activities w,
    (calls w <= n)%nat -> (n - calls w < fuel)%nat ->
    exists r w',
      pageLoop convert Do fuel maxResults req pageToken pageCount activities w = Some (r, w') /\
      match r with
      | inl _ => (calls w' <= n)%nat
      | inr e => exists msg,
          e = ("unable to query drive activity: " ++ msg)%string /\ Post msg w'
      end.
Proof.
  induction fuel as [|fuel IH];
    intros maxResults req pageToken pageCount activities w Hw Hfuel; [lia|].
  cbn [pageLoop].
  set (req' := if negb (is_empty pageToken) then _ else _).
  destruct (Hfetch req' w Hw) as [Hlt Hres].
  destruct (fetchPage Do req' w) as [[resp|msg|] w1]; simpl in Hlt, Hres.
  - set (w2 := if Z.rem (pageCount + 1) maxPagesPerBatch =? 0 then _ else _).
    assert (Hw2 : calls w2 = calls w1).
    { unfold w2. destruct (Z.rem (pageCount + 1) maxPagesPerBatch =? 0); reflexivity. }
    destruct (processPage convert maxResults (Activities resp) activities) as [acts [|]].
    + exists (inl acts), w2. split; [reflexivity|lia].
    + destruct (is_empty (NextPageToken resp)); [exists (inl acts), w2; split; [reflexivity|lia]|].
      destruct ((maxResults >? 0) && (Z.of_nat (length acts) >=? maxResults));
        [exists (inl acts), w2; split; [reflexivity|lia]|].
      apply IH; lia.
  - exists (inr ("unable to query drive activity: " ++ msg)%string), w1.
    split; [reflexivity|]. exists msg. split; [reflexivity|exact Hres].
  - contradiction.
Qed.

(** A failure at request [n] that is not retryable ends the fetch that
    meets it. *)
Lemma retryLoop_fatal (n : nat) (msg : string)
      (Hfail : forall req, Do n req = Failure msg) (Hnot : ~ retryable msg) (left : nat) :
  forall retry req w,
    (calls w <= n)%nat -> 0 <= retry -> retry + Z.of_nat left = 4 -> (0 < left)%nat ->
    (calls w < calls (retryLoop Do left retry req w).2)%nat /\
    match (retryLoop Do left retry req w).1 with
    | Got _ => (calls (retryLoop Do left retry req w).2 <= n)%nat
    | Failed m =>
        (calls (retryLoop Do left retry req w).2 <= S n)%nat /\
        (calls (retryLoop Do left retry req w).2 = S n -> m = msg)
    | Exhausted => False
    end.
Proof.
  induction left as [|left IH]; intros retry req w Hw Hr Hsum Hleft; [lia|].
  cbn [retryLoop].
  destruct (Nat.eq_dec (calls w) n) as [Hn|Hn].
  - rewrite Hn, Hfail. apply isRateLimit_false in Hnot. rewrite Hnot. simpl.
    split; [lia|]. split; [lia|reflexivity].
  - destruct (Do (calls w) req) as [m|resp]; [|simpl; lia].
    destruct (isRateLimit m && (retry <? maxRetries)) eqn:Hretry.
    + apply andb_true_iff in Hretry as [_ Hlt]. apply Z.ltb_lt in Hlt.
      unfold maxRetries in Hlt.
      set (w1 := sleep _ _).
      assert (Hw1 : calls w1 = S (calls w)) by reflexivity.
      destruct (IH (retry + 1) req w1) as [Hcalls Hres]; [lia|lia|lia|lia|].
      split; [lia|exact Hres].
    + simpl. split; [lia|]. split; [lia|]. intros E. lia.
Qed.

(** When every request from the [n]-th on fails, no fetch that goes
    that far gets a page, and none makes more than four requests. *)
Lemma retryLoop_failing (n : nat)
      (Hall : forall m req, (n <= m)%nat -> exists msg, Do m req = Failure msg) (left : nat) :
  forall retry req w,
    (calls w <= n)%nat -> 0 <= retry -> retry + Z.of_nat left = 4 -> (0 < left)%nat ->
    (calls w < calls (retryLoop Do left retry req w).2)%nat /\
    match (retryLoop Do left retry req w).1 with
    | Got _ => (calls (retryLoop Do left retry req w).2 <= n)%nat
    | Failed m => (calls (retryLoop Do left retry req w).2 <= calls w + left)%nat
    | Exhausted => False
    end.
Proof.
  assert (Hany : forall left retry req w,
             0 <= retry -> retry + Z.of_nat left = 4 -> (0 < left)%nat ->
             (calls w < calls (retryLoop Do left retry req w).2)%nat /\
             (calls (retryLoop Do left retry req w).2 <= calls w + left)%nat /\
             match (retryLoop Do left retry req w).1 with
             | Got _ => (calls (retryLoop Do left retry req w).2 <= n)%nat
             | Failed m => True
             | Exhausted => False
             end).
  { clear left. induction left as [|left IH]; intros retry req w Hr Hsum Hleft; [lia|].
    cbn [retryLoop].
    destruct (Do (calls w) req) as [m|resp] eqn:Hans.
    - destruct (isRateLimit m && (retry <? maxRetries)) eqn:Hretry.
      + apply andb_true_iff in Hretry as [_ Hlt]. apply Z.ltb_lt in Hlt.
        unfold maxRetries in Hlt.
        set (w1 := sleep _ _).
        assert (Hw1 : calls w1 = S (calls w)) by reflexivity.
        destruct (IH (retry + 1) req w1) as (H1 & H2 & H3); [lia|lia|lia|].
        split; [lia|]. split; [lia|exact H3].
      + simpl. split; [lia|]. split; [lia|exact I].
    - simpl. split; [lia|]. split; [lia|].
      destruct (Nat.le_gt_cases n (calls w)) as [Hge|Hlt]; [|lia].
      destruct (Hall (calls w) req Hge) as [m Hm]. rewrite Hm in Hans. discriminate. }
  intros retry req w Hw Hr Hsum Hleft.
  destruct (Hany left retry req w Hr Hsum Hleft) as (H1 & H2 & H3).
  split; [exact H1|].
  destruct (retryLoop Do left retry req w).1; [exact H3|exact H2|exact H3].
Qed.

End Traces.

(** C6.  The requests and sleeps of every query that returns follow
    [LoopTrace]: a failed request is followed by a sleep and another
    attempt exactly when its message holds "429" or "rateLimitExceeded"
    and fewer than three retries were made for the page, the sleeps
    before retries 1, 2 and 3 being 2 s, 4 s and 8 s; any other failure
    is the last event and the query returns the error; and the answer
    that completes a multiple of 90 pages is followed by a sleep of
    60 s before anything else.

    And the query does return on a failure.  When the upstream answers
    its [n]-th request with a failure that is not retryable, a query
    with room for more than [n] pages returns without a request after
    that one, and with that error if it got that far.  When the
    upstream fails every request from the [n]-th on, the query returns
    after at most four of them, with an error if it got that far. *)
Theorem activity_retry_and_throttle {activity info : Type} (convert : activity -> info)
        (timeFilter : Z -> string) (Do : nat -> request -> answer activity)
        (fuel : nat) (daysBack maxResults : Z) :
  let run := QueryDriveActivity convert timeFilter Do fuel daysBack maxResults world0 in
  (forall r w,
      run = Some (r, w) -> exists out, LoopTrace 0 0 (events w) out /\ endsWith r out) /\
  (forall n msg,
      (forall req, Do n req = Failure msg) -> ~ retryable msg -> (n < fuel)%nat ->
      exists r w,
        run = Some (r, w) /\ (calls w <= S n)%nat /\
        (calls w = S n -> r = inr ("unable to query drive activity: " ++ msg)%string)) /\
  (forall n,
      (forall m req, (n <= m)%nat -> exists msg, Do m req = Failure msg) -> (n < fuel)%nat ->
      exists r w,
        run = Some (r, w) /\ (calls w <= n + 4)%nat /\
        ((n < calls w)%nat -> exists e, r = inr e)).
Proof.
  cbv zeta. unfold QueryDriveActivity. split; [|split].
  - intros r w H.
    apply pageLoop_trace in H as (tr & out & Hev & Htr & Hout).
    simpl in Hev. subst tr. exists out. split; assumption.
  - intros n msg Hfail Hnot Hfuel.
    assert (Hfetch : forall req w,
               (calls w <= n)%nat ->
               (calls w < calls (fetchPage Do req w).2)%nat /\
               match (fetchPage Do req w).1 with
               | Got _ => (calls (fetchPage Do req w).2 <= n)%nat
               | Failed m =>
                   (calls (fetchPage Do req w).2 <= S n)%nat /\
                   (calls (fetchPage Do req w).2 = S n -> m = msg)
               | Exhausted => False
               end).
    { intros req w Hw. unfold fetchPage.
      apply (retryLoop_fatal Do n msg Hfail Hnot);
        [exact Hw|lia|reflexivity|unfold maxRetries; simpl; lia]. }
    match goal with
    | |- context [pageLoop _ _ _ _ ?rq _ _ _ _] =>
        destruct (pageLoop_returns convert Do n
                    (fun m w => (calls w <= S n)%nat /\ (calls w = S n -> m = msg))
                    Hfetch fuel maxResults rq EmptyString 0 [] world0)
          as (r & w & Hrun & Hr); [simpl; lia|simpl; lia|]
    end.
    exists r, w. split; [exact Hrun|].
    destruct r as [acts|e].
    + split; [lia|]. intros E. lia.
    + destruct Hr as (m & -> & Hle & Hm). split; [exact Hle|].
      intros E. rewrite (Hm E). reflexivity.
  - intros n Hall Hfuel.
    assert (Hfetch : forall req w,
               (calls w <= n)%nat ->
               (calls w < calls (fetchPage Do req w).2)%nat /\
               match (fetchPage Do req w).1 with
               | Got _ => (calls (fetchPage Do req w).2 <= n)%nat
               | Failed m => (calls (fetchPage Do req w).2 <= n + 4)%nat
               | Exhausted => False
               end).
    { intros req w Hw. unfold fetchPage.
      destruct (retryLoop_failing Do n Hall (Z.to_nat (maxRetries + 1)) 0 req w)
        as [H1 H2]; [exact Hw|lia|reflexivity|unfold maxRetries; simpl; lia|].
      split; [exact H1|].
      destruct (retryLoop Do (Z.to_nat (maxRetries + 1)) 0 req w).1;
        [exact H2| |exact H2].
      change (Z.to_nat (maxRetries + 1)) with 4%nat in *. lia. }
    match goal with
    | |- context [pageLoop _ _ _ _ ?rq _ _ _ _] =>
        destruct (pageLoop_returns convert Do n (fun m w => (calls w <= n + 4)%nat)
                    Hfetch fuel maxResults rq EmptyString 0 [] world0)
          as (r & w & Hrun & Hr); [simpl; lia|simpl; lia|]
    end.
    exists r, w. split; [exact Hrun|].
    destruct r as [acts|e].
    + split; [lia|]. intros E. lia.
    + destruct Hr as (m & -> & Hle). split; [exact Hle|]. intros _. eexists. reflexivity.
Qed.

Lemma activity_retry_and_throttle_witness :
  QueryDriveActivity (fun a : nat => a) (fun _ => EmptyString) burst 5 0 100 world0
  = Some (burstError, mkWorld 7 burstEvents) /\
  (exists out, LoopTrace 0 0 burstEvents out /\ endsWith burstError out) /\
  exists w,
    QueryDriveActivity (fun a : nat => a) (fun _ => EmptyString) denied 5 0 100 world0
    = Some (deniedError, w) /\
    calls w = 2%nat.
Proof.
  assert (H : QueryDriveActivity (fun a : nat => a) (fun _ => EmptyString) burst 5 0 100 world0
              = Some (burstError, mkWorld 7 burstEvents)) by (vm_compute; reflexivity).
  split; [exact H|]. split.
  - destruct (activity_retry_and_throttle (fun a : nat => a) (fun _ => EmptyString)
                burst 5 0 100) as [Htrace _].
    exact (Htrace _ _ H).
  - destruct (activity_retry_and_throttle (fun a : nat => a) (fun _ => EmptyString)
                denied 5 0 100) as (_ & Hfatal & _).
    destruct (Hfatal 1%nat "googleapi: Error 403: insufficientPermissions"%string)
      as (r & w & Hrun & Hle & Herr).
    + intros req. reflexivity.
    + intros Hretry. apply isRateLimit_iff in Hretry. vm_compute in Hretry.
      discriminate Hretry.
    + lia.
    + assert (Hw : calls w = 2%nat).
      { vm_compute in Hrun. injection Hrun as _ <-. reflexivity. }
      exists w. split; [|exact Hw]. rewrite Hrun, (Herr Hw). reflexivity.
Defined.

Lemma pause_after_ninety_pages :
  exists result w,
    QueryDriveActivity (fun a : nat => a) (fun _ => EmptyString) trickle 100 0 100 world0
    = Some (inl result, w) /\
    length result = 100%nat /\
    calls w = 100%nat /\
    List.filter (fun e => match e with Slept _ => true | _ => false end) (events w)
    = [Slept (60 * second)] /\
    nth_error (events w) 89 = Some (Queried (mkRequest 100 EmptyString "more") None) /\
    nth_error (events w) 90 = Some (Slept (60 * second)).
Proof.
  eexists. eexists. split; [vm_compute; reflexivity|].
  repeat split; vm_compute; reflexivity.
Qed.

End ActivityFacts.

(** ** The sweeper, the token endpoint and PKCE at use time *)

Module OAuth2MoreFacts.

Import OAuth2 OAuth2More StringsFacts.

(** One tick of the sweeper removes exactly the entries older than their
    TTL: an entry of age at most ten minutes is kept as it is, any other
    is gone, and the base URL and the configuration are not touched. *)
Lemma cleanup_lookup (now : Z) (s : OAuth2Server) (k : string) :
  states (cleanup now s) !! k
  = match states s !! k with
    | Some st => if now - as_CreatedAt st >? stateTTL then None else Some st
    | None => None
    end /\
  codes (cleanup now s) !! k
  = match codes s !! k with
    | Some c => if now - ac_CreatedAt c >? codeTTL then None else Some c
    | None => None
    end /\
  baseURL (cleanup now s) = baseURL s /\
  oauthConfig (cleanup now s) = oauthConfig s.
Proof.
  unfold cleanup. simpl. repeat split.
  - destruct (states s !! k) as [st|] eqn:Hk.
    + destruct (now - as_CreatedAt st >? stateTTL) eqn:Hage.
      * apply map_lookup_filter_None. right. intros x Hx.
        rewrite Hk in Hx. injection Hx as <-. simpl. rewrite Hage. simpl. tauto.
      * apply map_lookup_filter_Some. split; [exact Hk|]. simpl. rewrite Hage. exact I.
    + apply map_lookup_filter_None. left. exact Hk.
  - destruct (codes s !! k) as [c|] eqn:Hk.
    + destruct (now - ac_CreatedAt c >? codeTTL) eqn:Hage.
      * apply map_lookup_filter_None. right. intros x Hx.
        rewrite Hk in Hx. injection Hx as <-. simpl. rewrite Hage. simpl. tauto.
      * apply map_lookup_filter_Some. split; [exact Hk|]. simpl. rewrite Hage. exact I.
    + apply map_lookup_filter_None. left. exact Hk.
Qed.

Lemma callbackFound_response e r st (s s' : OAuth2Server) :
  baseURL s = baseURL s' ->
  (callbackFound e r st s).2 = (callbackFound e r st s').2.
Proof.
  intros Hb. unfold callbackFound.
  destruct (_ >? _); [reflexivity|].
  destruct (Exchange e (q_code r)); [|reflexivity].
  destruct (Contains (h_Accept r) _); reflexivity.
Qed.

Lemma callbackFound_expired e r st (s : OAuth2Server) :
  now_check e - as_CreatedAt st > stateTTL ->
  (callbackFound e r st s).2 = OAuthError 400 "invalid_request" "Invalid or expired state".
Proof.
  intros H. unfold callbackFound. apply Z.gt_lt, Z.gtb_lt in H. rewrite H. reflexivity.
Qed.

(** X3.  The sweeper is invisible to clients: a callback or a token exchange
    that runs after a tick gets the answer it would have got without the
    tick.  What the tick removes is refused by the handlers' own TTL
    checks with the same error. *)
Theorem sweep_is_invisible (now : Z) (s : OAuth2Server) :
  (forall (e : callbackEnv) (r : callbackRequest),
      now <= now_check e ->
      (HandleCallback e r (cleanup now s)).2 = (HandleCallback e r s).2) /\
  (forall (now' : Z) (r : tokenRequest),
      now <= now' ->
      (handleAuthorizationCodeGrant now' r (cleanup now s)).2
      = (handleAuthorizationCodeGrant now' r s).2).
Proof.
  split.
  - intros e r Hle. unfold HandleCallback.
    destruct (negb (is_empty (q_error r))); [reflexivity|].
    destruct (is_empty (q_code r) || is_empty (q_state r)); [reflexivity|].
    unfold lookupDeleteState.
    destruct (cleanup_lookup now s (q_state r)) as (Hst & _ & _ & _).
    rewrite Hst. destruct (states s !! q_state r) as [st|]; [|reflexivity].
    destruct (Z.gtb_spec (now - as_CreatedAt st) stateTTL) as [Hold|Hyoung]; simpl.
    + rewrite callbackFound_expired by lia. reflexivity.
    + apply callbackFound_response. reflexivity.
  - intros now' r Hle. unfold handleAuthorizationCodeGrant.
    destruct (is_empty (f_code r)); [reflexivity|].
    unfold lookupDeleteCode.
    destruct (cleanup_lookup now s (f_code r)) as (_ & Hcd & _ & _).
    rewrite Hcd. destruct (codes s !! f_code r) as [c|]; [|reflexivity].
    destruct (Z.gtb_spec (now - ac_CreatedAt c) codeTTL) as [Hold|Hyoung]; simpl.
    + unfold grantFound.
      assert (H : (now' - ac_CreatedAt c >? codeTTL) = true) by (apply Z.gtb_lt; lia).
      rewrite H. reflexivity.
    + reflexivity.
Qed.

Lemma absent_state_rejected e r (s : OAuth2Server) :
  q_error r = EmptyString -> q_code r <> EmptyString -> q_state r <> EmptyString ->
  states s !! q_state r = None ->
  HandleCallback e r s = (s, OAuthError 400 "invalid_request" "Invalid or expired state").
Proof.
  intros He Hc Hs Habs. unfold HandleCallback, lookupDeleteState.
  rewrite He, (is_empty_false _ Hc), (is_empty_false _ Hs), Habs. reflexivity.
Qed.

(** X4.  A callback consumes its state whatever comes next.  A callback that
    fails the checks of its parameters leaves the server as it was.  One
    that passes them removes the state it quotes and no other, also when
    the state turns out to be too old or Google refuses the code; then,
    whatever requests run afterwards, as long as none of them mints the
    same state again, every later callback quoting the state is answered
    "Invalid or expired state": the flow has to start again from the
    authorize endpoint. *)
Theorem callback_consumes_state (e : callbackEnv) (r : callbackRequest) (s : OAuth2Server) :
  (q_error r <> EmptyString \/ q_code r = EmptyString \/ q_state r = EmptyString ->
   (HandleCallback e r s).1 = s) /\
  (q_error r = EmptyString -> q_code r <> EmptyString -> q_state r <> EmptyString ->
   states (HandleCallback e r s).1 = delete (q_state r) (states s) /\
   forall (pool : list goroutine) (sched : list nat) (e' : callbackEnv) (r' : callbackRequest),
     forallb fresh pool = true ->
     count (mintsState (q_state r)) pool = 0%nat ->
     q_error r' = EmptyString -> q_code r' <> EmptyString -> q_state r' = q_state r ->
     (HandleCallback e' r' (run sched ((HandleCallback e r s).1, pool)).1).2
     = OAuthError 400 "invalid_request" "Invalid or expired state").
Proof.
  split.
  - unfold HandleCallback. intros [H|[H|H]].
    + rewrite (is_empty_false _ H). reflexivity.
    + rewrite H. destruct (negb (is_empty (q_error r))); reflexivity.
    + rewrite H. rewrite orb_true_r. destruct (negb (is_empty (q_error r))); reflexivity.
  - intros He Hc Hs.
    assert (Hst : states (HandleCallback e r s).1 = delete (q_state r) (states s)).
    { unfold HandleCallback, lookupDeleteState.
      rewrite He, (is_empty_false _ Hc), (is_empty_false _ Hs). simpl.
      destruct (states s !! q_state r) as [st|] eqn:Hl.
      - rewrite OAuth2Facts.callbackFound_states. reflexivity.
      - simpl. symmetry. apply delete_id. exact Hl. }
    split; [exact Hst|].
    intros pool sched e' r' Hfresh Hmint He' Hc' Hs'.
    set (s1 := (HandleCallback e r s).1) in *.
    pose proof (OAuth2Facts.run_stateShares (q_state r) sched (s1, pool)) as HS.
    destruct (OAuth2Facts.fresh_saw_nothing (q_state r) (q_state r) pool Hfresh) as [Hsaw _].
    unfold OAuth2Spec.stateShares in HS. simpl in HS.
    rewrite Hmint, Hsaw, Hst, OAuth2Facts.present_delete, String.eqb_refl in HS.
    assert (Habs : states (run sched (s1, pool)).1 !! q_state r' = None).
    { rewrite Hs'. unfold present in HS.
      destruct (states (run sched (s1, pool)).1 !! q_state r); [simpl in HS; lia|reflexivity]. }
    rewrite absent_state_rejected; [reflexivity|exact He'|exact Hc'| |exact Habs].
    rewrite Hs'. exact Hs.
Qed.

Lemma callback_consumes_state_witness :
  (HandleCallback OAuth2MoreSamples.refusedEnv OAuth2MoreSamples.refusedCallback
                  OAuth2Spec.server1).2
  = OAuthError 500 "server_error" "Failed to exchange authorization code" /\
  states (HandleCallback OAuth2MoreSamples.refusedEnv OAuth2MoreSamples.refusedCallback
                         OAuth2Spec.server1).1 = ∅ /\
  (HandleCallback (OAuth2Spec.env1 "c2") OAuth2MoreSamples.refusedCallback
     (HandleCallback OAuth2MoreSamples.refusedEnv OAuth2MoreSamples.refusedCallback
                     OAuth2Spec.server1).1).2
  = OAuthError 400 "invalid_request" "Invalid or expired state".
Proof.
  destruct (callback_consumes_state OAuth2MoreSamples.refusedEnv
              OAuth2MoreSamples.refusedCallback OAuth2Spec.server1) as [_ H].
  destruct H as [Hst Hlater]; [reflexivity|discriminate|discriminate|].
  split; [reflexivity|]. split.
  - rewrite Hst. apply map_eq. intros k. rewrite lookup_empty.
    destruct (String.eqb_spec k "s1") as [->|Hne].
    + apply lookup_delete_eq.
    + rewrite lookup_delete_ne by (intros E; apply Hne; symmetry; exact E).
      apply lookup_singleton_ne. intros E; apply Hne; symmetry; exact E.
  - apply (Hlater [] [] (OAuth2Spec.env1 "c2") OAuth2MoreSamples.refusedCallback);
      try reflexivity; discriminate.
Defined.

(** X5.  A code whose challenge came with a method other than S256 can never
    be redeemed: whatever the verifier and the time, the exchange is
    refused with [invalid_grant], and the code is consumed all the same. *)
Theorem other_methods_rejected_at_use
        (s : OAuth2Server) (now : Z) (r : tokenRequest) (storedCode : authCode) :
  f_code r <> EmptyString ->
  codes s !! f_code r = Some storedCode ->
  ac_CodeChallenge storedCode <> EmptyString ->
  ac_CodeMethod storedCode <> "S256"%string ->
  (exists description,
      (handleAuthorizationCodeGrant now r s).2 = OAuthError 400 "invalid_grant" description) /\
  codes (handleAuthorizationCodeGrant now r s).1 !! f_code r = None.
Proof.
  intros Hcode Hl Hch Hm.
  unfold handleAuthorizationCodeGrant, lookupDeleteCode.
  rewrite (is_empty_false _ Hcode), Hl. simpl. split; [|apply lookup_delete_eq].
  unfold grantFound, validatePKCE, writeOAuthError.
  destruct (_ >? _); [eexists; reflexivity|].
  rewrite (is_empty_false _ Hch). simpl.
  destruct (is_empty (f_code_verifier r)); [eexists; reflexivity|].
  apply String.eqb_neq in Hm. rewrite Hm. simpl. eexists; reflexivity.
Qed.

Lemma other_methods_rejected_at_use_witness :
  let plainCode := mkAuthCode "c9" "client" "http://localhost:3000/callback"
                              "challenge" "plain" (mkToken "ya29.a" EmptyString None) 0 in
  let s := mkServer "https://drive.mcp.example.com" (mkConfig "id" "secret" EmptyString)
                    ∅ {[ "c9"%string := plainCode ]} in
  let r := mkTokenReq "c9" "challenge" in
  (exists description,
      (handleAuthorizationCodeGrant second r s).2 = OAuthError 400 "invalid_grant" description) /\
  codes (handleAuthorizationCodeGrant second r s).1 !! f_code r = None.
Proof.
  intros plainCode s r.
  apply (other_methods_rejected_at_use s second r plainCode).
  - discriminate.
  - vm_compute. reflexivity.
  - discriminate.
  - discriminate.
Defined.

(** X6.  PKCE is optional: for a code stored without a challenge the verifier
    is not looked at, and an exchange within the TTL returns Google's
    access token with the Bearer type, whatever verifier it sends. *)
Theorem no_challenge_no_pkce
        (s : OAuth2Server) (now : Z) (r : tokenRequest) (storedCode : authCode) :
  f_code r <> EmptyString ->
  codes s !! f_code r = Some storedCode ->
  ac_CodeChallenge storedCode = EmptyString ->
  now - ac_CreatedAt storedCode <= codeTTL ->
  exists refresh expires,
    (handleAuthorizationCodeGrant now r s).2
    = TokenResponse (AccessToken (ac_GoogleToken storedCode)) "Bearer" refresh expires /\
    forall verifier,
      (handleAuthorizationCodeGrant now (mkTokenReq (f_code r) verifier) s).2
      = (handleAuthorizationCodeGrant now r s).2.
Proof.
  intros Hcode Hl Hch Httl.
  assert (Hrun : forall v,
             (handleAuthorizationCodeGrant now (mkTokenReq (f_code r) v) s).2
             = grantFound now (mkTokenReq (f_code r) v) storedCode).
  { intros v. unfold handleAuthorizationCodeGrant, lookupDeleteCode. simpl.
    rewrite (is_empty_false _ Hcode), Hl. reflexivity. }
  assert (Hfound : forall v,
             grantFound now (mkTokenReq (f_code r) v) storedCode
             = grantFound now r storedCode).
  { intros v. unfold grantFound. rewrite Hch. simpl. reflexivity. }
  assert (Hr : (handleAuthorizationCodeGrant now r s).2 = grantFound now r storedCode).
  { unfold handleAuthorizationCodeGrant, lookupDeleteCode.
    rewrite (is_empty_false _ Hcode), Hl. reflexivity. }
  rewrite Hr. unfold grantFound at 1. rewrite Hch. simpl.
  destruct (Z.gtb_spec (now - ac_CreatedAt storedCode) codeTTL) as [Hold|_]; [lia|].
  eexists. eexists. split; [reflexivity|].
  intros v. rewrite Hrun, Hfound. reflexivity.
Qed.

Lemma no_challenge_no_pkce_witness :
  let openCode := mkAuthCode "c8" "client" "http://localhost:3000/callback"
                             EmptyString EmptyString (mkToken "ya29.a" "1//r" None) 0 in
  let s := mkServer "https://drive.mcp.example.com" (mkConfig "id" "secret" EmptyString)
                    ∅ {[ "c8"%string := openCode ]} in
  exists refresh expires,
    (handleAuthorizationCodeGrant second (mkTokenReq "c8" EmptyString) s).2
    = TokenResponse "ya29.a" "Bearer" refresh expires /\
    forall verifier,
      (handleAuthorizationCodeGrant second (mkTokenReq "c8" verifier) s).2
      = (handleAuthorizationCodeGrant second (mkTokenReq "c8" EmptyString) s).2.
Proof.
  intros openCode s.
  apply (no_challenge_no_pkce s second (mkTokenReq "c8" EmptyString) openCode).
  - discriminate.
  - vm_compute. reflexivity.
  - reflexivity.
  - vm_compute. discriminate.
Defined.

(** The token endpoint touches the stores for the authorization-code
    grant only: with any other method, form or grant type the server is
    left as it was.  A POST with a grant type other than the two known
    ones is refused with [unsupported_grant_type] and a description that
    names it. *)
Theorem token_endpoint_dispatch
        (Refresh : string -> option Token) (now : Z) (r : tokenHttpRequest)
        (s : OAuth2Server) :
  (t_method r <> "POST"%string ->
   HandleToken Refresh now r s = (s, PlainError 405 "Method not allowed")) /\
  (t_grant_type r <> "authorization_code"%string ->
   (HandleToken Refresh now r s).1 = s) /\
  (t_method r = "POST"%string -> t_formOK r = true ->
   t_grant_type r <> "authorization_code"%string ->
   t_grant_type r <> "refresh_token"%string ->
   HandleToken Refresh now r s
   = (s, OAuth (OAuthError 400 "unsupported_grant_type"
                           ("Unsupported grant type: " ++ t_grant_type r)%string))) /\
  (t_method r = "POST"%string -> t_formOK r = true ->
   t_grant_type r = "authorization_code"%string ->
   HandleToken Refresh now r s
   = ((handleAuthorizationCodeGrant now (t_form r) s).1,
      OAuth (handleAuthorizationCodeGrant now (t_form r) s).2)).
Proof.
  unfold HandleToken. repeat split.
  - intros H. apply String.eqb_neq in H. rewrite H. reflexivity.
  - intros H. apply String.eqb_neq in H. rewrite H.
    destruct (negb (String.eqb (t_method r) "POST")); [reflexivity|].
    destruct (negb (t_formOK r)); [reflexivity|].
    destruct (String.eqb (t_grant_type r) "refresh_token"); reflexivity.
  - intros Hm Hf Hg1 Hg2. rewrite Hm, Hf. simpl.
    apply String.eqb_neq in Hg1, Hg2. rewrite Hg1, Hg2. reflexivity.
  - intros Hm Hf Hg. rewrite Hm, Hf, Hg. simpl.
    destruct (handleAuthorizationCodeGrant now (t_form r) s). reflexivity.
Qed.

(** The handler run without interruption, in one piece. *)
Lemma HandleAuthorize_alone
      (AuthCodeURL : Config -> string -> string) (e : authorizeEnv)
      (r : authorizeRequest) (s : FullServer) :
  a_client_id r <> EmptyString -> a_redirect_uri r <> EmptyString ->
  HandleAuthorize AuthCodeURL e r s
  = let s :=
      match clients s !! a_client_id r with
      | Some _ => s
      | None =>
          (registerClientWithID (a_client_id r) (newSecret e) [a_redirect_uri r]
                                (now_register e) s).1
      end in
    let c := storeState (internalState e)
               (mkAuthState (a_client_id r) (a_redirect_uri r) (a_code_challenge r)
                            (a_code_challenge_method r) (a_state r) (now_state e))
               (core s) in
    let c := set_RedirectURL c (baseURL c ++ "/oauth/callback") in
    (mkFull c (clients s), Redirect 302 (AuthCodeURL (oauthConfig c) (internalState e))).
Proof.
  intros Hc Hu. unfold HandleAuthorize, HandleAuthorizeAmid, autoRegister, clientExists.
  rewrite (is_empty_false _ Hc), (is_empty_false _ Hu).
  destruct (clients s !! a_client_id r); reflexivity.
Qed.

(** X7.  The whole authorization-code flow.  After an authorize request with
    a client and a redirect URI, a callback that quotes the internal
    state within ten minutes and whose Google code is exchanged answers
    with the client's redirect URI carrying our code and the client's
    state; an exchange of that code within ten minutes, with a verifier
    that is not empty and matches the challenge (or any verifier when
    there was no challenge), returns Google's access token.  At the end
    the state and the code are gone and the client is registered. *)
Theorem authorization_code_flow
        (AuthCodeURL : Config -> string -> string) (s : FullServer)
        (ea : authorizeEnv) (ra : authorizeRequest)
        (ec : callbackEnv) (rc : callbackRequest)
        (now : Z) (rt : tokenRequest) (tok : Token) :
  a_client_id ra <> EmptyString -> a_redirect_uri ra <> EmptyString ->
  internalState ea <> EmptyString ->
  q_error rc = EmptyString -> q_code rc <> EmptyString -> q_state rc = internalState ea ->
  now_check ec - now_state ea <= stateTTL ->
  Exchange ec (q_code rc) = Some tok ->
  ourCode ec <> EmptyString -> f_code rt = ourCode ec ->
  now - now_store ec <= codeTTL ->
  (a_code_challenge ra = EmptyString \/
   (f_code_verifier rt <> EmptyString /\
    validatePKCE (f_code_verifier rt) (a_code_challenge ra)
                 (a_code_challenge_method ra) = true)) ->
  let s1 := (HandleAuthorize AuthCodeURL ea ra s).1 in
  let c2 := (HandleCallback ec rc (core s1)).1 in
  let c3 := (handleAuthorizationCodeGrant now rt c2).1 in
  let target :=
    (let u := a_redirect_uri ra ++
              (if Contains (a_redirect_uri ra) "?" then "&" else "?") ++
              "code=" ++ ourCode ec in
     if negb (is_empty (a_state ra)) then u ++ "&state=" ++ a_state ra else u)%string in
  (exists url, (HandleAuthorize AuthCodeURL ea ra s).2 = Redirect 302 url) /\
  clients s1 !! a_client_id ra <> None /\
  (HandleCallback ec rc (core s1)).2
  = (if Contains (h_Accept rc) "text/html" then SuccessPage target
     else Redirect 302 target) /\
  (exists refresh expires,
      (handleAuthorizationCodeGrant now rt c2).2
      = TokenResponse (AccessToken tok) "Bearer" refresh expires) /\
  states c3 !! internalState ea = None /\
  codes c3 !! ourCode ec = None.
Proof.
  intros Hcid Huri Hk Herr Hgc Hqs Hsttl Hex Hoc Hfc Hcttl Hpkce.
  rewrite (HandleAuthorize_alone AuthCodeURL ea ra s Hcid Huri). simpl.
  set (sreg := match clients s !! a_client_id ra with Some _ => s | None => _ end).
  set (st := mkAuthState _ _ _ _ _ _).
  assert (Hreg : clients sreg !! a_client_id ra <> None).
  { unfold sreg. destruct (clients s !! a_client_id ra) eqn:Hc.
    - rewrite Hc. discriminate.
    - simpl. rewrite lookup_insert_eq. discriminate. }
  split; [eexists; reflexivity|]. split; [exact Hreg|].
  set (c1 := set_RedirectURL (storeState (internalState ea) st (core sreg)) _).
  assert (Hc1 : states c1 !! internalState ea = Some st).
  { unfold c1. simpl. apply lookup_insert_eq. }
  unfold HandleCallback.
  rewrite Herr. simpl.
  rewrite (is_empty_false _ Hgc), Hqs, (is_empty_false _ Hk). simpl.
  unfold lookupDeleteState. rewrite Hc1.
  set (c1' := set_states c1 _).
  unfold callbackFound.
  destruct (Z.gtb_spec (now_check ec - as_CreatedAt st) stateTTL) as [Hold|_];
    [unfold st in Hold; simpl in Hold; lia|].
  rewrite Hex.
  set (code := mkAuthCode _ _ _ _ _ _ _).
  set (c2 := storeCode (ourCode ec) code _).
  assert (Hc2c : codes c2 !! ourCode ec = Some code).
  { unfold c2. simpl. apply lookup_insert_eq. }
  assert (Hc2s : states c2 !! internalState ea = None).
  { unfold c2, c1'. simpl. apply lookup_delete_eq. }
  assert (Hgrant : handleAuthorizationCodeGrant now rt c2
                   = (set_codes c2 (delete (ourCode ec) (codes c2)), grantFound now rt code)).
  { unfold handleAuthorizationCodeGrant, lookupDeleteCode.
    rewrite Hfc, (is_empty_false _ Hoc), Hc2c. reflexivity. }
  assert (Hsame : forall (b : bool) (x y : response),
             (if b then (c2, x) else (c2, y)) = (c2, if b then x else y)).
  { intros []; reflexivity. }
  rewrite Hsame. simpl. split; [reflexivity|].
  rewrite Hgrant. simpl. repeat split.
  - unfold grantFound. unfold code at 1 2 3 4. simpl.
    destruct (Z.gtb_spec (now - now_store ec) codeTTL) as [Hold|_]; [lia|].
    destruct Hpkce as [Hnone|[Hv Hp]].
    + rewrite Hnone. simpl. eexists. eexists. reflexivity.
    + rewrite (is_empty_false _ Hv), Hp. rewrite !andb_false_r. simpl.
      eexists. eexists. reflexivity.
  - exact Hc2s.
  - apply lookup_delete_eq.
Qed.

Lemma authorization_code_flow_witness :
  let s1 := (HandleAuthorize OAuth2MoreSamples.consentURL OAuth2MoreSamples.sampleAuthorizeEnv
               OAuth2MoreSamples.sampleAuthorize OAuth2MoreSamples.emptyServer).1 in
  let c2 := (HandleCallback OAuth2MoreSamples.sampleCallbackEnv
               OAuth2MoreSamples.sampleCallback (core s1)).1 in
  (HandleCallback OAuth2MoreSamples.sampleCallbackEnv
     OAuth2MoreSamples.sampleCallback (core s1)).2
  = Redirect 302 "http://localhost:3000/callback?code=c0de&state=xyz" /\
  exists refresh expires,
    (handleAuthorizationCodeGrant (2 * minute) OAuth2MoreSamples.sampleExchange c2).2
    = TokenResponse "ya29.a" "Bearer" refresh expires.
Proof.
  intros s1 c2.
  destruct (authorization_code_flow
              OAuth2MoreSamples.consentURL OAuth2MoreSamples.emptyServer
              OAuth2MoreSamples.sampleAuthorizeEnv OAuth2MoreSamples.sampleAuthorize
              OAuth2MoreSamples.sampleCallbackEnv OAuth2MoreSamples.sampleCallback
              (2 * minute) OAuth2MoreSamples.sampleExchange OAuth2MoreSamples.googleToken)
    as (_ & _ & Hcb & Htok & _).
  - discriminate.
  - discriminate.
  - discriminate.
  - reflexivity.
  - discriminate.
  - reflexivity.
  - vm_compute. discriminate.
  - reflexivity.
  - discriminate.
  - reflexivity.
  - vm_compute. discriminate.
  - right. split; [discriminate|]. vm_compute. reflexivity.
  - split; [exact Hcb|exact Htok].
Defined.

(** X8.  An authorize request among other requests.  Without a client
    or a redirect URI it stores nothing.  Otherwise it changes the
    server in three places only, whatever the others do in between.  It
    writes a fresh registration exactly when its look-up, made before,
    did not find the client; the registration that is there by then is
    replaced.  It adds one state, which holds the redirect URI as it
    came: the URI is not compared with the registered ones.  And it sets
    the redirect URL of the configuration.  Run alone, the request
    leaves the registration of a known client as it is; but when
    another request for the same unknown client runs between its
    look-up and its registration, the registration made by the other,
    although the client is known by then, is replaced. *)
Theorem authorize_registration
        (others : nat -> FullServer -> FullServer)
        (AuthCodeURL : Config -> string -> string) (e : authorizeEnv)
        (r : authorizeRequest) (s : FullServer) :
  let fresh := mkClient (a_client_id r) (newSecret e) [a_redirect_uri r] (now_register e) in
  let stored := mkAuthState (a_client_id r) (a_redirect_uri r) (a_code_challenge r)
                            (a_code_challenge_method r) (a_state r) (now_state e) in
  let s0 := others 0%nat s in
  let s1 := autoRegister e r (clientExists (a_client_id r) s) s0 in
  let s2 := others 1%nat s1 in
  let s3 := storeAuthState e r s2 in
  let s4 := others 2%nat s3 in
  let out := (HandleAuthorizeAmid others AuthCodeURL e r s).1 in
  let alone := (HandleAuthorize AuthCodeURL e r s).1 in
  (a_client_id r = EmptyString \/ a_redirect_uri r = EmptyString ->
   HandleAuthorizeAmid others AuthCodeURL e r s
   = (s, OAuthError 400 "invalid_request" "client_id and redirect_uri are required")) /\
  (a_client_id r <> EmptyString -> a_redirect_uri r <> EmptyString ->
   (core s1 = core s0 /\
    clients s1 = match clients s !! a_client_id r with
                 | Some _ => clients s0
                 | None => <[a_client_id r := fresh]> (clients s0)
                 end) /\
   (clients s3 = clients s2 /\
    codes (core s3) = codes (core s2) /\
    states (core s3) = <[internalState e := stored]> (states (core s2))) /\
   (clients out = clients s4 /\
    states (core out) = states (core s4) /\
    codes (core out) = codes (core s4) /\
    baseURL (core out) = baseURL (core s4) /\
    cfg_RedirectURL (oauthConfig (core out)) = (baseURL (core s4) ++ "/oauth/callback")%string) /\
   (clients alone = match clients s !! a_client_id r with
                    | Some _ => clients s
                    | None => <[a_client_id r := fresh]> (clients s)
                    end /\
    states (core alone) = <[internalState e := stored]> (states (core s)) /\
    codes (core alone) = codes (core s)) /\
   (clients s !! a_client_id r = None ->
    forall e' : authorizeEnv,
      let other := fun t => (HandleAuthorize AuthCodeURL e' r t).1 in
      clients (other s) !! a_client_id r
      = Some (mkClient (a_client_id r) (newSecret e') [a_redirect_uri r] (now_register e')) /\
      clients (HandleAuthorizeAmid (OAuth2MoreSpec.meanwhile other) AuthCodeURL e r s).1
      !! a_client_id r = Some fresh)).
Proof.
  cbv zeta. split.
  - unfold HandleAuthorizeAmid.
    intros [H|H]; rewrite H; simpl; rewrite ?orb_true_r; reflexivity.
  - intros Hc Hu.
    assert (Hamid : forall others',
               HandleAuthorizeAmid others' AuthCodeURL e r s
               = redirectToGoogle AuthCodeURL e
                   (others' 2%nat
                      (storeAuthState e r
                         (others' 1%nat
                            (autoRegister e r (clientExists (a_client_id r) s)
                                          (others' 0%nat s)))))).
    { intros others'. unfold HandleAuthorizeAmid.
      rewrite (is_empty_false _ Hc), (is_empty_false _ Hu). reflexivity. }
    split; [|split; [|split; [|split]]].
    + unfold autoRegister, clientExists.
      destruct (clients s !! a_client_id r); split; reflexivity.
    + split; [reflexivity|]. split; reflexivity.
    + rewrite Hamid. repeat split; reflexivity.
    + rewrite (HandleAuthorize_alone AuthCodeURL e r s Hc Hu).
      destruct (clients s !! a_client_id r); repeat split; reflexivity.
    + intros Hnew e'. cbv zeta.
      assert (Hother : clients (HandleAuthorize AuthCodeURL e' r s).1 !! a_client_id r
                       = Some (mkClient (a_client_id r) (newSecret e') [a_redirect_uri r]
                                        (now_register e'))).
      { rewrite (HandleAuthorize_alone AuthCodeURL e' r s Hc Hu), Hnew. simpl.
        apply lookup_insert_eq. }
      split; [exact Hother|].
      rewrite Hamid. unfold OAuth2MoreSpec.meanwhile, autoRegister, clientExists.
      rewrite Hnew. simpl. apply lookup_insert_eq.
Qed.

(** Two requests for the same new client: the secret that the first one
    registered is gone. *)
Lemma authorize_registration_witness :
  let other := fun t => (HandleAuthorize OAuth2MoreSamples.consentURL
                           OAuth2MoreSamples.otherAuthorizeEnv
                           OAuth2MoreSamples.sampleAuthorize t).1 in
  clients (other OAuth2MoreSamples.emptyServer) !! "test-client"%string
  = Some (mkClient "test-client" "0ther5" ["http://localhost:3000/callback"%string] 0) /\
  clients (HandleAuthorizeAmid (OAuth2MoreSpec.meanwhile other) OAuth2MoreSamples.consentURL
             OAuth2MoreSamples.sampleAuthorizeEnv OAuth2MoreSamples.sampleAuthorize
             OAuth2MoreSamples.emptyServer).1 !! "test-client"%string
  = Some (mkClient "test-client" "5ec2e7" ["http://localhost:3000/callback"%string] 0).
Proof.
  intros other.
  destruct (authorize_registration (fun _ t => t) OAuth2MoreSamples.consentURL
              OAuth2MoreSamples.sampleAuthorizeEnv OAuth2MoreSamples.sampleAuthorize
              OAuth2MoreSamples.emptyServer) as [_ H].
  destruct H as (_ & _ & _ & _ & Hrace); [discriminate|discriminate|].
  exact (Hrace eq_refl OAuth2MoreSamples.otherAuthorizeEnv).
Defined.

(** *** Tokens *)

Lemma byte_of_nibbles (x : Z) :
  0 <= x < 256 ->
  0 <= Z.shiftr x 4 < 16 /\ 0 <= Z.land x 15 < 16 /\ x = 16 * Z.shiftr x 4 + Z.land x 15.
Proof.
  intros Hx. rewrite Z.shiftr_div_pow2 by lia.
  change 15 with (Z.ones 4). rewrite Z.land_ones by lia.
  change (2 ^ 4) with 16.
  pose proof (Z.div_mod x 16 ltac:(lia)). pose proof (Z.mod_pos_bound x 16 ltac:(lia)).
  assert (0 <= x / 16 < 16).
  { split; [apply Z.div_pos; lia|apply Z.div_lt_upper_bound; lia]. }
  lia.
Qed.

Lemma hexValue_hexDigit (n : Z) :
  0 <= n < 16 -> OAuth2MoreSpec.hexValue (hexDigit n) = Some n.
Proof.
  intros Hn. destruct n as [|p|p]; [reflexivity| |lia].
  do 4 (try destruct p as [p|p|]); try lia; vm_compute; reflexivity.
Qed.

Lemma DecodeString_generateToken (b : list Z) :
  Forall (fun x => 0 <= x < 256) b ->
  OAuth2MoreSpec.DecodeString (generateToken b) = Some b.
Proof.
  unfold generateToken. induction 1 as [|x b Hx Hb IH]; [reflexivity|].
  cbn [hexEncodeToString OAuth2MoreSpec.DecodeString].
  destruct (byte_of_nibbles x Hx) as (H1 & H2 & E).
  rewrite (hexValue_hexDigit _ H1), (hexValue_hexDigit _ H2), IH.
  rewrite <- E. reflexivity.
Qed.

(** X9.  A token is the lower-case hexadecimal text of the random bytes,
    two digits for each byte with the high half first: reading the
    digits back gives the bytes.  So a token has 64 characters for the
    32 bytes drawn, and two draws give the same token only when they
    are the same bytes. *)
Theorem generateToken_is_faithful (b b' : list Z) :
  Forall (fun x => 0 <= x < 256) b -> Forall (fun x => 0 <= x < 256) b' ->
  OAuth2MoreSpec.DecodeString (generateToken b) = Some b /\
  String.length (generateToken b) = (2 * length b)%nat /\
  (generateToken b = generateToken b' -> b = b').
Proof.
  intros Hb Hb'. split; [apply DecodeString_generateToken, Hb|]. split.
  - unfold generateToken. clear Hb. induction b as [|x b IH]; [reflexivity|].
    cbn [hexEncodeToString String.length length]. rewrite IH. lia.
  - intros E.
    pose proof (DecodeString_generateToken b Hb) as H.
    rewrite E, (DecodeString_generateToken b' Hb') in H.
    injection H as H. symmetry. exact H.
Qed.

Lemma generateToken_is_faithful_witness :
  let drawn := [0; 171; 255; 16] ++ repeat 9 28 in
  let other := [0; 171; 255; 17] ++ repeat 9 28 in
  generateToken drawn
  = ("00abff10" ++ "09090909090909090909090909090909090909090909090909090909")%string /\
  OAuth2MoreSpec.DecodeString (generateToken drawn) = Some drawn /\
  String.length (generateToken drawn) = 64%nat /\
  generateToken drawn <> generateToken other.
Proof.
  intros drawn other.
  destruct (generateToken_is_faithful drawn other) as (Hback & Hlen & Hinj).
  - unfold drawn. repeat constructor; lia.
  - unfold other. repeat constructor; lia.
  - split; [vm_compute; reflexivity|]. split; [exact Hback|]. split; [exact Hlen|].
    intros E. apply Hinj in E. discriminate E.
Defined.

(** *** The base URL *)

Lemma dropSlashes_spec (rs : list ascii) :
  (exists n, rs = repeat "/"%char n ++ dropSlashes rs) /\
  (forall t, dropSlashes rs <> "/"%char :: t).
Proof.
  induction rs as [|c rs [[n Hn] Hhead]]; simpl.
  - split; [exists 0%nat; reflexivity|discriminate].
  - destruct (Ascii.eqb_spec c "/") as [->|Hne].
    + split; [|exact Hhead]. exists (S n). simpl. rewrite <- Hn. reflexivity.
    + split; [exists 0%nat; reflexivity|]. intros t [= Hc _]. contradiction.
Qed.

Lemma string_of_list_ascii_app (l1 l2 : list ascii) :
  string_of_list_ascii (l1 ++ l2)
  = (string_of_list_ascii l1 ++ string_of_list_ascii l2)%string.
Proof. induction l1 as [|c l1 IH]; simpl; [reflexivity|]. rewrite IH. reflexivity. Qed.

Lemma list_ascii_of_string_app (s1 s2 : string) :
  list_ascii_of_string (s1 ++ s2)%string
  = list_ascii_of_string s1 ++ list_ascii_of_string s2.
Proof. induction s1 as [|c s1 IH]; simpl; [reflexivity|]. rewrite IH. reflexivity. Qed.

(** X10.  The server's base URL is the configured one without its trailing
    slashes, whatever their number: it never ends with a slash, so the
    issuer and the endpoints of the metadata are never built with a
    doubled slash.  The server starts with empty maps. *)
Theorem base_url_is_trimmed (base : string) (creds : OAuthCredentials) :
  let s := core (NewOAuth2Server base creds) in
  (exists n, base = (baseURL s ++ string_of_list_ascii (repeat "/"%char n))%string) /\
  (forall v, baseURL s <> (v ++ "/")%string) /\
  token_endpoint (HandleAuthorizationServerMetadata s) = (baseURL s ++ "/oauth/token")%string /\
  states s = ∅ /\ codes s = ∅.
Proof.
  simpl. unfold TrimRightSlash.
  destruct (dropSlashes_spec (rev (list_ascii_of_string base))) as [[n Hn] Hhead].
  set (d := dropSlashes (rev (list_ascii_of_string base))) in *.
  repeat split.
  - exists n. rewrite <- string_of_list_ascii_app.
    rewrite <- (string_of_list_ascii_of_string base) at 1. f_equal.
    rewrite <- (rev_involutive (list_ascii_of_string base)), Hn.
    rewrite rev_app_distr, rev_repeat. reflexivity.
  - intros v Hv. apply (f_equal list_ascii_of_string) in Hv.
    rewrite list_ascii_of_string_of_list_ascii, list_ascii_of_string_app in Hv.
    apply (f_equal (@rev ascii)) in Hv. rewrite rev_involutive, rev_app_distr in Hv.
    simpl in Hv. exact (Hhead _ Hv).
Qed.

End OAuth2MoreFacts.

(** ** The request scope *)

Module ServerMoreFacts.

Import OAuth2 Server ServerMore StringsFacts.

Lemma prefix_split (pre s : string) :
  HasPrefix s pre = true -> s = (pre ++ TrimPrefix s pre)%string.
Proof.
  unfold TrimPrefix. intros H. rewrite H. unfold HasPrefix in H.
  revert s H. induction pre as [|c pre IH]; intros s H; simpl.
  - rewrite Nat.sub_0_r. symmetry. apply ServerFacts.substring_full.
  - destruct s as [|d s]; simpl in H; [discriminate|].
    destruct (ascii_dec c d) as [->|]; [|discriminate].
    transitivity
      (String d (pre ++ substring (String.length pre)
                                  (String.length s - String.length pre) s))%string;
      [f_equal; apply IH, H|reflexivity].
Qed.

(** X11.  The middleware and the scope agree.  When the middleware lets a
    request through, the scope built for it carries the shared
    configuration and a token whose access token is the presented
    bearer, so the tools run with the caller's credentials; when the
    middleware rejects, the scope is left as it was. *)
Theorem scope_follows_middleware (srv : Server) (ctx : context) (header : option string) :
  (authMiddleware srv header = Next ->
   exists bearer,
     header = Some ("Bearer " ++ bearer)%string /\ bearer <> EmptyString /\
     httpContextFunc srv ctx header
     = mkContext (Some (oauthConfig (oauth2 srv)))
                 (Some (mkToken bearer EmptyString None)) /\
     hasClient (httpContextFunc srv ctx header) = true) /\
  (authMiddleware srv header <> Next -> httpContextFunc srv ctx header = ctx).
Proof.
  unfold authMiddleware, httpContextFunc.
  destruct (HasPrefix (HeaderGet header) "Bearer ") eqn:Hp; simpl.
  - rewrite orb_false_r.
    destruct (is_empty (HeaderGet header)) eqn:He.
    { apply is_empty_true in He. rewrite He in Hp. discriminate. }
    unfold ValidateAccessToken.
    destruct (is_empty (TrimPrefix (HeaderGet header) "Bearer ")) eqn:Ht.
    + split; [discriminate|reflexivity].
    + split; [|intros H; contradiction].
      intros _. exists (TrimPrefix (HeaderGet header) "Bearer ").
      split; [|split; [|split; reflexivity]].
      * destruct header as [h|]; [|discriminate]. simpl in *.
        f_equal. apply prefix_split. exact Hp.
      * intros E. rewrite E in Ht. discriminate.
  - rewrite orb_true_r. split; [discriminate|reflexivity].
Qed.

End ServerMoreFacts.

(** ** File types and export formats *)

Module DriveMoreFacts.

Import Drive DriveMore DriveMoreSpec.

(** The table of formats and the defaults, side by side. *)
Lemma default_in_table (mimeType : string) :
  match lookup mimeType ExportFormats with
  | Some formats =>
      exists exportMimeType,
        lookup (GetDefaultExportFormat mimeType) formats = Some exportMimeType /\
        exportMimeType <> EmptyString /\
        GetDefaultExportFormat mimeType <> EmptyString
  | None => GetDefaultExportFormat mimeType = EmptyString
  end.
Proof.
  unfold GetDefaultExportFormat, ExportFormats. cbn [lookup].
  destruct (String.eqb_spec mimeType "application/vnd.google-apps.document") as [->|H1];
    [eexists; split; [reflexivity|split; discriminate]|].
  destruct (String.eqb_spec mimeType "application/vnd.google-apps.spreadsheet") as [->|H2];
    [eexists; split; [reflexivity|split; discriminate]|].
  destruct (String.eqb_spec mimeType "application/vnd.google-apps.presentation") as [->|H3];
    [eexists; split; [reflexivity|split; discriminate]|].
  reflexivity.
Qed.

(** X12.  The default export format of a type is always one the type can be
    exported to, and the types without a default are exactly those
    without any export format. *)
Theorem default_export_format_is_valid (mimeType : string) :
  (GetDefaultExportFormat mimeType <> EmptyString ->
   GetExportMimeType mimeType (GetDefaultExportFormat mimeType) <> EmptyString) /\
  (GetDefaultExportFormat mimeType = EmptyString ->
   forall format, GetExportMimeType mimeType format = EmptyString).
Proof.
  pose proof (default_in_table mimeType) as H. unfold GetExportMimeType.
  destruct (lookup mimeType ExportFormats) as [formats|].
  - destruct H as (exportMimeType & Hl & Hm & Hd). rewrite Hl.
    split; [intros _; exact Hm|]. intros E. contradiction.
  - split; [intros Hd; contradiction|]. reflexivity.
Qed.

Lemma addUnseen_spec (types : list string) :
  forall st,
    consistent st ->
    consistent (addUnseen types st) /\
    forall x, x ∈ (addUnseen types st).1 <-> x ∈ st.1 \/ x ∈ types.
Proof.
  induction types as [|m rest IH]; intros st Hst; simpl.
  - split; [exact Hst|]. intros x. rewrite elem_of_nil. tauto.
  - destruct Hst as [Hnd Hseen].
    destruct (bool_decide (m ∈ st.2)) eqn:Hm.
    + apply bool_decide_eq_true in Hm. apply Hseen in Hm.
      destruct (IH st (conj Hnd Hseen)) as [Hc Hx]. split; [exact Hc|].
      intros x. rewrite Hx, elem_of_cons.
      split; [intros [H|H]; auto|intros [H|[->|H]]; auto].
    + apply bool_decide_eq_false in Hm.
      assert (Hst' : consistent (st.1 ++ [m], {[ m ]} ∪ st.2)).
      { split; simpl.
        - apply NoDup_app. split; [exact Hnd|]. split; [|apply NoDup_singleton].
          intros x Hx1 Hx2. apply list_elem_of_singleton in Hx2 as ->.
          apply Hm, Hseen, Hx1.
        - intros x. rewrite elem_of_union, elem_of_singleton, elem_of_app,
            list_elem_of_singleton, Hseen. tauto. }
      destruct (IH _ Hst') as [Hc Hx]. split; [exact Hc|].
      intros x. rewrite Hx. simpl.
      rewrite elem_of_app, list_elem_of_singleton, elem_of_cons. tauto.
Qed.

Lemma expandFrom_spec (ToLower : string -> string) (fileTypes : list string) :
  forall st,
    consistent st ->
    consistent (expandFrom ToLower fileTypes st) /\
    forall x, x ∈ (expandFrom ToLower fileTypes st).1 <->
              x ∈ st.1 \/ exists fileType, fileType ∈ fileTypes /\ yields ToLower fileType x.
Proof.
  induction fileTypes as [|ft rest IH]; intros st Hst; cbn [expandFrom].
  - split; [exact Hst|]. intros x. split; [auto|]. intros [H|(f & Hf & _)]; [exact H|].
    apply elem_of_nil in Hf. contradiction.
  - assert (Hstep : forall st',
               consistent st' ->
               (forall x, x ∈ st'.1 <-> x ∈ st.1 \/ yields ToLower ft x) ->
               consistent (expandFrom ToLower rest st') /\
               forall x, x ∈ (expandFrom ToLower rest st').1 <->
                         x ∈ st.1 \/
                         exists fileType, fileType ∈ ft :: rest /\ yields ToLower fileType x).
    { intros st' Hc' Hx'. destruct (IH st' Hc') as [Hc Hx]. split; [exact Hc|].
      intros x. rewrite Hx, Hx'. split.
      - intros [[H|H]|(f & Hf & Hy)]; [auto| |].
        + right. exists ft. split; [apply elem_of_cons; auto|exact H].
        + right. exists f. split; [apply elem_of_cons; auto|exact Hy].
      - intros [H|(f & Hf & Hy)]; [auto|].
        apply elem_of_cons in Hf as [->|Hf]; [auto|]. right. exists f. auto. }
    destruct (Contains ft "/") eqn:Hslash.
    + destruct (addUnseen_spec [ft] st Hst) as [Hc Hx]. apply Hstep; [exact Hc|].
      intros x. unfold yields. rewrite Hslash, Hx, list_elem_of_singleton. tauto.
    + destruct (lookup (ToLower ft) MIMETypeMappings) as [types|] eqn:Hl.
      * destruct (addUnseen_spec types st Hst) as [Hc Hx]. apply Hstep; [exact Hc|].
        intros x. unfold yields. rewrite Hslash, Hl. apply Hx.
      * apply Hstep; [exact Hst|]. intros x. unfold yields. rewrite Hslash, Hl. tauto.
Qed.

(** X13.  [ExpandFileTypes] never returns a MIME type twice, and it returns
    exactly the types its entries stand for: an entry with a slash stands
    for itself, a known shortcut for the types of the table, and an
    unknown shortcut is dropped. *)
Theorem ExpandFileTypes_has_no_duplicates
        (ToLower : string -> string) (fileTypes : list string) :
  NoDup (ExpandFileTypes ToLower fileTypes) /\
  forall mimeType,
    mimeType ∈ ExpandFileTypes ToLower fileTypes <->
    exists fileType, fileType ∈ fileTypes /\ yields ToLower fileType mimeType.
Proof.
  unfold ExpandFileTypes.
  assert (H0 : consistent ([], ∅)).
  { split; simpl; [apply NoDup_nil_2|]. intros x. rewrite elem_of_nil, elem_of_empty. tauto. }
  destruct (expandFrom_spec ToLower fileTypes _ H0) as [[Hnd _] Hx].
  split; [exact Hnd|]. intros m. rewrite Hx. simpl. rewrite elem_of_nil. tauto.
Qed.

End DriveMoreFacts.

(** ** File names *)

Module NamesFacts.

Import ToolsMore StringsFacts.

Lemma length_append (a b : string) :
  String.length (a ++ b)%string = (String.length a + String.length b)%nat.
Proof. induction a as [|c a IH]; simpl; [reflexivity|]. rewrite IH. reflexivity. Qed.

Lemma append_empty_r (a : string) : a = (a ++ EmptyString)%string.
Proof.
  induction a as [|c a IH]; [reflexivity|].
  transitivity (String c (a ++ EmptyString))%string; [f_equal; exact IH|reflexivity].
Qed.

Lemma get_append_r (a b : string) (i : nat) :
  String.get (String.length a + i) (a ++ b)%string = String.get i b.
Proof. induction a as [|c a IH]; simpl; [reflexivity|exact IH]. Qed.

Lemma substring_none (s : string) (i : nat) : String.substring i 0 s = EmptyString.
Proof.
  revert i; induction s as [|c s IH]; intros [|i]; simpl; try reflexivity. apply IH.
Qed.

Lemma substring_append_r (a b : string) (n : nat) :
  String.substring (String.length a) n (a ++ b)%string = String.substring 0 n b.
Proof. induction a as [|c a IH]; simpl; [reflexivity|exact IH]. Qed.

Lemma substring_append_l (a b : string) :
  String.substring 0 (String.length a) (a ++ b)%string = a.
Proof.
  induction a as [|c a IH]; simpl; [apply substring_none|]. rewrite IH. reflexivity.
Qed.

Lemma substring_split (s : string) :
  forall i, (i <= String.length s)%nat ->
    s = (String.substring 0 i s ++ String.substring i (String.length s - i) s)%string /\
    String.length (String.substring i (String.length s - i) s) = (String.length s - i)%nat.
Proof.
  induction s as [|c s IH]; intros [|i] Hi; simpl in *; try lia.
  - split; reflexivity.
  - rewrite ServerFacts.substring_full. split; reflexivity.
  - destruct (IH i ltac:(lia)) as [H1 H2]. split; [|exact H2].
    transitivity
      (String c (String.substring 0 i s ++
                 String.substring i (String.length s - i) s))%string;
      [f_equal; exact H1|reflexivity].
Qed.

Lemma TrimSuffix_split (s : string) (i : nat) :
  (i <= String.length s)%nat ->
  TrimSuffix s (String.substring i (String.length s - i) s) = String.substring 0 i s.
Proof.
  intros Hi. destruct (substring_split s i Hi) as [_ Hlen].
  unfold TrimSuffix, HasSuffix. rewrite Hlen.
  replace (String.length s - (String.length s - i))%nat with i by lia.
  rewrite String.eqb_refl.
  destruct (Nat.leb_spec (String.length s - i) (String.length s)); [reflexivity|lia].
Qed.

Lemma TrimSuffix_append (a suffix : string) : TrimSuffix (a ++ suffix) suffix = a.
Proof.
  unfold TrimSuffix, HasSuffix. rewrite length_append.
  replace (String.length a + String.length suffix - String.length suffix)%nat
    with (String.length a) by lia.
  rewrite substring_append_r, ServerFacts.substring_full, String.eqb_refl.
  destruct (Nat.leb_spec (String.length suffix) (String.length a + String.length suffix));
    [|lia].
  simpl. apply substring_append_l.
Qed.

Lemma extScan_suffix (path : string) (n : nat) :
  (n <= String.length path)%nat ->
  extScan path n = EmptyString \/
  exists i, (i < n)%nat /\
            extScan path n = String.substring i (String.length path - i) path.
Proof.
  induction n as [|n IH]; intros Hn; simpl; [left; reflexivity|].
  destruct (String.get n path) as [c|]; [|left; reflexivity].
  destruct (Ascii.eqb c "/"); [left; reflexivity|].
  destruct (Ascii.eqb c ".").
  - right. exists n. split; [lia|reflexivity].
  - destruct (IH ltac:(lia)) as [H|(i & Hi & H)]; [left; exact H|].
    right. exists i. split; [lia|exact H].
Qed.

Lemma AdjustFilename_split (localPath exportFormat : string) :
  exportFormat <> EmptyString ->
  exists baseName,
    localPath = (baseName ++ Ext localPath)%string /\
    AdjustFilename localPath exportFormat = (baseName ++ "." ++ exportFormat)%string.
Proof.
  unfold AdjustFilename.
  - intros Hne. rewrite (is_empty_false _ Hne). unfold Ext.
    destruct (extScan_suffix localPath (String.length localPath) (le_n _))
      as [H|(i & Hi & H)]; rewrite H.
    + exists localPath. split.
      * apply append_empty_r.
      * f_equal. unfold TrimSuffix, HasSuffix. simpl.
        rewrite Nat.sub_0_r, substring_none, ServerFacts.substring_full. reflexivity.
    + exists (String.substring 0 i localPath). split.
      * apply substring_split. lia.
      * rewrite TrimSuffix_split by lia. reflexivity.
Qed.

(** X14.  Only the extension of a name is replaced: the name is some base
    followed by what [filepath.Ext] finds, and the adjusted name is that
    base followed by a dot and the format.  With an empty format the
    name is returned as it is. *)
Theorem AdjustFilename_replaces_the_extension (localPath exportFormat : string) :
  (exportFormat = EmptyString -> AdjustFilename localPath exportFormat = localPath) /\
  (exportFormat <> EmptyString ->
   exists baseName,
     localPath = (baseName ++ Ext localPath)%string /\
     AdjustFilename localPath exportFormat = (baseName ++ "." ++ exportFormat)%string).
Proof.
  split.
  - intros ->. reflexivity.
  - apply AdjustFilename_split.
Qed.

Lemma no_char (c : ascii) (f : string) :
  Contains f (String c EmptyString) = false -> forall i, String.get i f <> Some c.
Proof.
  induction f as [|d f IH]; intros H i; [destruct i; discriminate|].
  cbn [Contains] in H. apply orb_false_elim in H as [Hp Hrest].
  unfold HasPrefix in Hp. simpl in Hp.
  destruct i as [|i]; simpl.
  - intros [= ->]. destruct (ascii_dec c c) as [_|Hne]; [|contradiction].
    destruct f; discriminate.
  - apply IH. exact Hrest.
Qed.

Lemma get_some (f : string) (j : nat) :
  (j < String.length f)%nat -> exists c, String.get j f = Some c.
Proof.
  revert j; induction f as [|d f IH]; intros j Hj; simpl in Hj; [lia|].
  destruct j as [|j]; simpl; [eexists; reflexivity|]. apply IH. lia.
Qed.

Lemma neq_eqb (c d : ascii) : c <> d -> Ascii.eqb c d = false.
Proof. intros H. apply Ascii.eqb_neq. exact H. Qed.

Lemma extScan_finds_dot (base f : string) :
  Contains f "." = false -> Contains f "/" = false ->
  forall j, (j <= String.length f)%nat ->
    extScan (base ++ "." ++ f) (String.length base + S j) = ("." ++ f)%string.
Proof.
  intros Hdot Hslash. induction j as [|j IH]; intros Hj.
  - replace (String.length base + 1)%nat with (S (String.length base + 0)) by lia.
    cbn [extScan]. rewrite get_append_r. cbn [String.get String.append].
    change (Ascii.eqb "." "/") with false. change (Ascii.eqb "." ".") with true.
    cbv iota. rewrite Nat.add_0_r, length_append.
    replace (String.length base + String.length ("." ++ f)%string - String.length base)%nat
      with (String.length ("." ++ f)%string) by lia.
    rewrite substring_append_r. apply ServerFacts.substring_full.
  - replace (String.length base + S (S j))%nat with (S (String.length base + S j)) by lia.
    cbn [extScan]. rewrite get_append_r.
    change (String.get (S j) ("." ++ f)%string) with (String.get j f).
    destruct (get_some f j ltac:(lia)) as [c Hc]. rewrite Hc.
    assert (c <> "/"%char) by (intros ->; exact (no_char _ _ Hslash j Hc)).
    assert (c <> "."%char) by (intros ->; exact (no_char _ _ Hdot j Hc)).
    rewrite !neq_eqb by assumption. apply IH. lia.
Qed.

(** X15.  Adjusting a name twice to the same format changes nothing more, for
    a format without a dot and without a slash: the extension added the
    first time is the one replaced the second time. *)
Theorem AdjustFilename_is_idempotent (localPath exportFormat : string) :
  Contains exportFormat "." = false -> Contains exportFormat "/" = false ->
  AdjustFilename (AdjustFilename localPath exportFormat) exportFormat
  = AdjustFilename localPath exportFormat.
Proof.
  intros Hdot Hslash.
  destruct (String.eqb_spec exportFormat EmptyString) as [->|Hf].
  - reflexivity.
  - destruct (AdjustFilename_split localPath exportFormat Hf) as (baseName & _ & ->).
    unfold AdjustFilename. rewrite (is_empty_false _ Hf). unfold Ext.
    rewrite length_append.
    replace (String.length ("." ++ exportFormat)%string)
      with (S (String.length exportFormat)) by reflexivity.
    rewrite extScan_finds_dot by (try assumption; lia).
    rewrite TrimSuffix_append. reflexivity.
Qed.

Lemma AdjustFilename_is_idempotent_witness :
  AdjustFilename (AdjustFilename "reports/q3.final.gdoc" "pdf") "pdf"
  = AdjustFilename "reports/q3.final.gdoc" "pdf" /\
  AdjustFilename "reports/q3.final.gdoc" "pdf" = "reports/q3.final.pdf"%string /\
  AdjustFilename ".hidden" "pdf" = ".pdf"%string /\
  AdjustFilename "v1.2/notes" "txt" = "v1.2/notes.txt"%string.
Proof.
  split; [apply AdjustFilename_is_idempotent; reflexivity|].
  repeat split; vm_compute; reflexivity.
Defined.

Lemma lastDot_finds_dot (base e : string) :
  Contains e "." = false ->
  forall j, (j <= String.length e)%nat ->
    lastDot (base ++ "." ++ e) (String.length base + S j) = Some (String.length base).
Proof.
  intros Hdot. induction j as [|j IH]; intros Hj.
  - replace (String.length base + 1)%nat with (S (String.length base + 0)) by lia.
    cbn [lastDot]. rewrite get_append_r. cbn [String.get String.append].
    change (Ascii.eqb "." ".") with true. cbv iota. f_equal. lia.
  - replace (String.length base + S (S j))%nat with (S (String.length base + S j)) by lia.
    cbn [lastDot]. rewrite get_append_r.
    change (String.get (S j) ("." ++ e)%string) with (String.get j e).
    destruct (get_some e j ltac:(lia)) as [c Hc]. rewrite Hc.
    assert (c <> "."%char) by (intros ->; exact (no_char _ _ Hdot j Hc)).
    rewrite neq_eqb by assumption. apply IH. lia.
Qed.

Lemma lastDot_none (s : string) (n : nat) :
  Contains s "." = false -> lastDot s n = None.
Proof.
  intros Hdot. induction n as [|n IH]; [reflexivity|]. cbn [lastDot].
  destruct (String.get n s) as [c|] eqn:Hc; [|reflexivity].
  assert (c <> "."%char) by (intros ->; exact (no_char _ _ Hdot n Hc)).
  rewrite neq_eqb by assumption. exact IH.
Qed.

Lemma mimeTypes_keys (k v : string) :
  DriveMore.lookup k mimeTypes = Some v -> exists rest, k = String "." rest.
Proof.
  unfold mimeTypes. cbn [DriveMore.lookup].
  repeat match goal with
         | |- context [String.eqb k ?x] =>
             destruct (String.eqb_spec k x) as [->|_]; [intros _; eexists; reflexivity|]
         end.
  discriminate.
Qed.

(** X16.  The MIME type of an upload depends on the text after the last dot of
    the lower-cased name only, and a name without a dot is always
    [application/octet-stream]. *)
Theorem detectMimeType_reads_the_last_extension
        (ToLower : string -> string) (filename : string) :
  (Contains (ToLower filename) "." = false ->
   detectMimeType ToLower filename = "application/octet-stream"%string) /\
  (forall base e,
      ToLower filename = (base ++ "." ++ e)%string -> Contains e "." = false ->
      detectMimeType ToLower filename
      = match DriveMore.lookup ("." ++ e)%string mimeTypes with
        | Some mt => mt
        | None => "application/octet-stream"%string
        end).
Proof.
  unfold detectMimeType. split.
  - intros Hdot. rewrite lastDot_none by exact Hdot.
    destruct (DriveMore.lookup (ToLower filename) mimeTypes) as [mt|] eqn:Hl; [|reflexivity].
    destruct (mimeTypes_keys _ _ Hl) as [rest Hk]. rewrite Hk in Hdot.
    cbn [Contains] in Hdot. apply orb_false_elim in Hdot as [Hp _].
    unfold HasPrefix in Hp. simpl in Hp. destruct rest; discriminate.
  - intros base e -> Hdot. rewrite length_append.
    replace (String.length ("." ++ e)%string) with (S (String.length e)) by reflexivity.
    rewrite lastDot_finds_dot by (try assumption; lia).
    replace (String.length base + S (String.length e) - String.length base)%nat
      with (String.length ("." ++ e)%string)
      by (change (String.length ("." ++ e)%string) with (S (String.length e)); lia).
    rewrite substring_append_r, ServerFacts.substring_full. reflexivity.
Qed.

End NamesFacts.

(** ** Download and export URLs *)

Module URLFacts.

Import Drive DriveMore Tools ToolsMore ToolsMoreSamples StringsFacts.

(** X17.  The two URL tools are each other's duals.  For a file that is found,
    with a token in the scope: a file that is not a Workspace file gets
    a download URL and is refused by the export tool, which names
    [drive_download_url]; a Workspace file is refused by the download
    tool, which names [drive_export_url], and gets an export URL exactly
    when the format is one its type can be exported to.  Both URLs carry
    the identifier and the access token as they are. *)
Theorem download_and_export_are_duals
        (get : string -> File + string) (token : OAuth2.Token)
        (args : gmap string Json.value) (file : File) :
  get (stringArg args "fileId") = inl file ->
  let fileID := stringArg args "fileId" in
  let format := stringArg args "format" in
  (IsGoogleWorkspaceFile file = false ->
   downloadURLHandler get (Some token) args
   = inl (mkDownloadResult
            ("https://www.googleapis.com/drive/v3/files/" ++ fileID ++
             "?alt=media&access_token=" ++ OAuth2.AccessToken token)
            (Name file) (MimeType file) (Size file) 3600) /\
   exportURLHandler get (Some token) args
   = inr (Message ("file '" ++ Name file ++ "' (" ++ MimeType file ++
                   ") is not a Google Workspace file. Use drive_download_url instead")))%string /\
  (IsGoogleWorkspaceFile file = true ->
   downloadURLHandler get (Some token) args
   = inr (Message ("cannot download Google Workspace file '" ++ Name file ++ "' (" ++
                   MimeType file ++
                   "). Use drive_export_url to export it to a standard format"))%string /\
   (GetExportMimeType (MimeType file) format <> EmptyString ->
    exportURLHandler get (Some token) args
    = inl (mkExportResult
             ("https://www.googleapis.com/drive/v3/files/" ++ fileID ++
              "/export?mimeType=" ++ GetExportMimeType (MimeType file) format ++
              "&access_token=" ++ OAuth2.AccessToken token)
             (AdjustFilename (Name file) format)
             (GetExportMimeType (MimeType file) format) 3600))%string /\
   (GetExportMimeType (MimeType file) format = EmptyString ->
    exists supported,
      exportURLHandler get (Some token) args
      = inr (UnsupportedFormat format (MimeType file) supported))).
Proof.
  intros Hget fileID format. unfold downloadURLHandler, exportURLHandler.
  fold fileID. fold format. unfold fileID in Hget |- *. rewrite Hget.
  split; intros Hw; rewrite Hw; simpl.
  - split; reflexivity.
  - split; [reflexivity|]. split.
    + intros Hm. rewrite (is_empty_false _ Hm). reflexivity.
    + intros Hm. rewrite Hm. simpl. eexists. reflexivity.
Qed.

Lemma download_and_export_are_duals_witness :
  let args : gmap string Json.value :=
    {[ "fileId"%string := Json.Str "8"; "format"%string := Json.Str "xlsx" ]} in
  exportURLHandler (fun _ => inl sheet) (Some bearer) args
  = inl (mkExportResult
           ("https://www.googleapis.com/drive/v3/files/8/export?mimeType=" ++
            "application/vnd.openxmlformats-officedocument.spreadsheetml.sheet" ++
            "&access_token=ya29.a")
           "budget.xlsx"
           "application/vnd.openxmlformats-officedocument.spreadsheetml.sheet" 3600) /\
  downloadURLHandler (fun _ => inl photo) (Some bearer) args
  = inl (mkDownloadResult
           "https://www.googleapis.com/drive/v3/files/8?alt=media&access_token=ya29.a"
           "cat.JPG" "image/jpeg" 2048 3600).
Proof.
  intros args. split.
  - destruct (download_and_export_are_duals (fun _ => inl sheet) bearer args sheet eq_refl)
      as [_ Hw].
    destruct (Hw eq_refl) as (_ & Hex & _).
    rewrite Hex; [reflexivity|discriminate].
  - destruct (download_and_export_are_duals (fun _ => inl photo) bearer args photo eq_refl)
      as [Hn _].
    destruct (Hn eq_refl) as [Hdl _].
    rewrite Hdl. reflexivity.
Defined.

(** X18.  A form, a drawing, a map or a site has no URL at all: the download
    tool refuses it as a Workspace file and the export tool refuses
    every format, the list of supported formats being empty. *)
Theorem no_url_for_forms_drawings_maps_sites
        (get : string -> File + string) (token : option OAuth2.Token)
        (args : gmap string Json.value) (file : File) :
  get (stringArg args "fileId") = inl file ->
  In (MimeType file) [ "application/vnd.google-apps.form";
                       "application/vnd.google-apps.drawing";
                       "application/vnd.google-apps.map";
                       "application/vnd.google-apps.site" ]%string ->
  (exists text, downloadURLHandler get token args = inr (Message text)) /\
  exportURLHandler get token args
  = inr (UnsupportedFormat (stringArg args "format") (MimeType file) []).
Proof.
  intros Hget Hmime. unfold downloadURLHandler, exportURLHandler. rewrite Hget.
  assert (Hw : IsGoogleWorkspaceFile file = true /\
               forall format, GetExportMimeType (MimeType file) format = EmptyString /\
                              lookup (MimeType file) ExportFormats = None).
  { unfold IsGoogleWorkspaceFile, GetExportMimeType.
    simpl in Hmime. destruct Hmime as [<-|[<-|[<-|[<-|[]]]]]; split; intros; split; reflexivity. }
  destruct Hw as [Hw Hf]. rewrite Hw. cbn [negb].
  split; [eexists; reflexivity|].
  destruct (Hf (stringArg args "format")) as [-> ->]. reflexivity.
Qed.

Lemma no_url_for_forms_drawings_maps_sites_witness :
  let args : gmap string Json.value :=
    {[ "fileId"%string := Json.Str "7"; "format"%string := Json.Str "pdf" ]} in
  (exists text, downloadURLHandler (fun _ => inl drawing) None args = inr (Message text)) /\
  exportURLHandler (fun _ => inl drawing) None args
  = inr (UnsupportedFormat (stringArg args "format")
           "application/vnd.google-apps.drawing" []).
Proof.
  intros args.
  apply (no_url_for_forms_drawings_maps_sites (fun _ => inl drawing) None args drawing).
  - reflexivity.
  - simpl. tauto.
Defined.

End URLFacts.

(** ** Permissions and changes *)

Module SharingFacts.

Import Tools Sharing.

(** X19.  The permissions tool validates before it sends.  With arguments that
    are not well formed (an action other than add and remove, a type
    other than user and anyone, no e-mail for a user, no permission
    identifier for a removal) it sends nothing and fails.  Otherwise it
    sends exactly one change; when the upstream refuses it the tool fails
    without listing, and when the upstream accepts it the tool lists the
    permissions of the file once and returns them. *)
Theorem permissions_update_validates_first
        (Do : request -> option string) (listing : string -> list Permission + string)
        (args : gmap string Json.value) :
  let fileID := stringArg args "fileId" in
  let sent := (permissionsUpdateHandler Do listing args).1 in
  let result := (permissionsUpdateHandler Do listing args).2 in
  (wellFormed args = false -> sent = [] /\ exists e, result = inr e) /\
  (wellFormed args = true ->
   exists req,
     isChange req = true /\
     (Do req <> None -> sent = [req] /\ exists e, result = inr e) /\
     (Do req = None ->
      sent = [req; PermissionsList fileID] /\
      result = match listing fileID with
               | inl perms => inl perms
               | inr err => inr ("list permissions failed: " ++ err)%string
               end)).
Proof.
  assert (Hsend : forall (req : request) (failure : string),
             isChange req = true ->
             let out := match Do req with
                        | None => listAfter listing (stringArg args "fileId") [req]
                        | Some err => ([req], inr (failure ++ err)%string)
                        end in
             exists req',
               isChange req' = true /\
               (Do req' <> None -> out.1 = [req'] /\ exists e, out.2 = inr e) /\
               (Do req' = None ->
                out.1 = [req'; PermissionsList (stringArg args "fileId")] /\
                out.2 = match listing (stringArg args "fileId") with
                        | inl perms => inl perms
                        | inr err => inr ("list permissions failed: " ++ err)%string
                        end)).
  { intros req failure Hreq. exists req. split; [exact Hreq|].
    unfold listAfter. destruct (Do req) as [err|]; simpl.
    - split; [intros _; split; [reflexivity|eexists; reflexivity]|discriminate].
    - split; [intros H; contradiction|].
      intros _. destruct (listing (stringArg args "fileId")); split; reflexivity. }
  unfold permissionsUpdateHandler, wellFormed. simpl.
  destruct (String.eqb_spec (stringArg args "action") "add") as [Ha|Ha].
  - rewrite Ha. simpl. rewrite orb_false_r.
    destruct (String.eqb_spec (stringArg args "type") "user") as [Ht|Ht].
    + rewrite Ht. simpl. rewrite orb_false_r.
      destruct (is_empty (stringArg args "email")); simpl.
      * split; [intros _; split; [reflexivity|eexists; reflexivity]|discriminate].
      * split; [discriminate|]. intros _. apply Hsend. reflexivity.
    + simpl. destruct (String.eqb (stringArg args "type") "anyone"); simpl.
      * split; [discriminate|]. intros _. apply Hsend. reflexivity.
      * split; [intros _; split; [reflexivity|eexists; reflexivity]|discriminate].
  - simpl. destruct (String.eqb (stringArg args "action") "remove"); simpl.
    + destruct (is_empty (stringArg args "permissionId")); simpl.
      * split; [intros _; split; [reflexivity|eexists; reflexivity]|discriminate].
      * split; [discriminate|]. intros _. apply Hsend. reflexivity.
    + split; [intros _; split; [reflexivity|eexists; reflexivity]|discriminate].
Qed.

(** X20.  Sharing with a user sends a notification unless the caller passes
    [notify] as a JSON boolean: a missing value, or one of another type,
    counts as true; and the message is sent only when it is not empty. *)
Theorem sharing_notifies_by_default
        (Do : request -> option string) (listing : string -> list Permission + string)
        (args : gmap string Json.value) :
  stringArg args "action" = "add"%string ->
  stringArg args "type" = "user"%string ->
  stringArg args "email" <> EmptyString ->
  head (permissionsUpdateHandler Do listing args).1
  = Some (PermissionsCreate (stringArg args "fileId") "user" (stringArg args "role")
            (stringArg args "email")
            (Some (match args !! "notify"%string with
                   | Some (Json.JBool false) => false
                   | _ => true
                   end))
            (if String.eqb (stringArg args "message") EmptyString then None
             else Some (stringArg args "message"))).
Proof.
  intros Ha Ht He. unfold permissionsUpdateHandler, ShareFile, notifyArg, listAfter.
  rewrite Ha, Ht. simpl. rewrite (StringsFacts.is_empty_false _ He).
  unfold is_empty.
  assert (Hn : match args !! "notify"%string with
               | Some (Json.JBool n) => n | _ => true end
               = match args !! "notify"%string with
                 | Some (Json.JBool false) => false | _ => true end).
  { destruct (args !! "notify"%string) as [[| [] | | | |]|]; reflexivity. }
  rewrite Hn.
  destruct (String.eqb (stringArg args "message") EmptyString); simpl;
    destruct (Do _); simpl; try reflexivity;
    destruct (listing _); reflexivity.
Qed.

Lemma sharing_notifies_by_default_witness :
  let args : gmap string Json.value :=
    {[ "fileId"%string := Json.Str "f1"; "action"%string := Json.Str "add";
       "type"%string := Json.Str "user"; "role"%string := Json.Str "reader";
       "email"%string := Json.Str "ann@example.com"; "notify"%string := Json.Str "false" ]} in
  head (permissionsUpdateHandler (fun _ => None) (fun _ => inl []) args).1
  = Some (PermissionsCreate "f1" "user" "reader" "ann@example.com" (Some true) None).
Proof.
  intros args.
  rewrite (sharing_notifies_by_default (fun _ => None) (fun _ => inl []) args);
    [reflexivity|reflexivity|reflexivity|discriminate].
Defined.

End SharingFacts.

Module ChangesFacts.

Import Changes ChangesSpec.

Lemma changeInfoOf_entry (parse : string -> option Z) (now : Z) (c : change) :
  entryOf c (changeInfoOf parse now c).
Proof.
  unfold entryOf, changeInfoOf. destruct (File c) as [f|]; simpl.
  - split; [reflexivity|]. split; [reflexivity|]. split; [discriminate|].
    intros _. destruct (Removed c).
    + split; [tauto|]. split; reflexivity.
    + destruct (negb (is_empty (cf_ModifiedTime f)));
        (split; [tauto|]; split; discriminate).
  - split; [reflexivity|]. split; [reflexivity|]. split; [intros _; split; reflexivity|].
    intros Hf. contradiction.
Qed.

Lemma convertFrom_entries (parse : string -> option Z) (now : nat -> Z) (cs : list change) :
  forall i, Forall2 entryOf cs (convertFrom parse now i cs).
Proof.
  induction cs as [|c cs IH]; intros i; simpl; constructor.
  - apply changeInfoOf_entry.
  - apply IH.
Qed.

(** X21.  [ListChanges] returns one entry for each change of the upstream
    answer, in the same order.  An entry has one of the types Removed,
    Modified, Added when its change carries a file; a change without a
    file gets an entry with an empty type and an empty name, also when
    it is a removal. *)
Theorem changes_without_file_have_no_type
        (startToken : string) (changesList : string -> Z -> list change + string)
        (parse : string -> option Z) (now : nat -> Z) (pageSize : Z)
        (changes : list change) :
  changesList startToken pageSize = inl changes ->
  exists infos,
    ListChanges (inl startToken) changesList parse now pageSize = inl infos /\
    Forall2 entryOf changes infos.
Proof.
  intros H. unfold ListChanges. rewrite H. eexists. split; [reflexivity|].
  apply convertFrom_entries.
Qed.

Lemma changes_without_file_have_no_type_witness :
  let gone := mkChange "f1" true "2024-05-01T10:00:00Z" None in
  let edited := mkChange "f2" false EmptyString
                         (Some (mkChangedFile "a.txt" "text/plain" "2024-05-01T09:00:00Z"
                                              (Some (mkUser EmptyString "ann@example.com")))) in
  ListChanges (inl "42"%string) (fun _ _ => inl [gone; edited]) (fun _ => Some 1) (fun _ => 0) 50
  = inl [ mkChangeInfo "f1" EmptyString 1 EmptyString true EmptyString EmptyString;
          mkChangeInfo "f2" "a.txt" 0 "Modified" false "text/plain" "ann@example.com" ] /\
  exists infos,
    ListChanges (inl "42"%string) (fun _ _ => inl [gone; edited]) (fun _ => Some 1)
                (fun _ => 0) 50 = inl infos /\
    Forall2 entryOf [gone; edited] infos.
Proof.
  intros gone edited. split; [reflexivity|].
  apply (changes_without_file_have_no_type "42" (fun _ _ => inl [gone; edited])
           (fun _ => Some 1) (fun _ => 0) 50 [gone; edited]).
  reflexivity.
Defined.

End ChangesFacts.

(** ** More on the activity query *)

Module ActivityMoreFacts.

Import Activity Tools ActivityMoreSpec.

Lemma sleptTotal_app (l1 l2 : list event) :
  sleptTotal (l1 ++ l2) = sleptTotal l1 + sleptTotal l2.
Proof. induction l1 as [|[req err|d] l1 IH]; simpl; lia. Qed.

Lemma requests_app (l1 l2 : list event) :
  requests (l1 ++ l2) = (requests l1 + requests l2)%nat.
Proof. induction l1 as [|[req err|d] l1 IH]; simpl; lia. Qed.

Section Fetch.

Context {activity : Type}.
Variable Do : nat -> request -> answer activity.

Lemma retryLoop_cost (left : nat) :
  forall retry req w,
    0 <= retry <= 3 -> retry + Z.of_nat left = 4 ->
    exists evs,
      events (retryLoop Do left retry req w).2 = events w ++ evs /\
      Forall (fun ev => match ev with Queried q _ => q = req | Slept _ => True end) evs /\
      calls (retryLoop Do left retry req w).2 = (calls w + requests evs)%nat /\
      (1 <= requests evs <= left)%nat /\
      sleptTotal evs <= (2 ^ 4 - 2 ^ (retry + 1)) * second /\
      (retryLoop Do left retry req w).1 <> Exhausted.
Proof.
  induction left as [|left IH]; intros retry req w Hr Hsum; [lia|]. cbn [retryLoop].
  assert (Hpow : 2 ^ (retry + 1) <= 2 ^ 4) by (apply Z.pow_le_mono_r; lia).
  assert (Hsec : 0 < second) by reflexivity.
  assert (Hzero : 0 <= (2 ^ 4 - 2 ^ (retry + 1)) * second)
    by (apply Z.mul_nonneg_nonneg; lia).
  destruct (Do (calls w) req) as [msg|resp]; cbn [errorOf].
  - destruct (isRateLimit msg && (retry <? maxRetries)) eqn:Hretry.
    + apply andb_true_iff in Hretry as [_ Hlt]. apply Z.ltb_lt in Hlt.
      unfold maxRetries in Hlt.
      set (w1 := sleep _ _).
      destruct (IH (retry + 1) req w1) as (evs & Hev & Hreq & Hcalls & Hn & Hs & Hex);
        [lia|lia|].
      exists (Queried req (Some msg) :: Slept (baseDelay * Z.shiftl 1 retry) :: evs).
      split; [rewrite Hev; unfold w1, sleep; simpl; rewrite <- !app_assoc; reflexivity|].
      split; [repeat constructor; exact Hreq|].
      split; [rewrite Hcalls; unfold w1, sleep; simpl; lia|].
      split; [simpl; lia|]. split; [|exact Hex].
      simpl. rewrite ActivityFacts.backoff_delay by lia.
      replace (retry + 1 + 1) with (Z.succ (retry + 1)) in Hs by lia.
      rewrite Z.pow_succ_r in Hs by lia. nia.
    + exists [Queried req (Some msg)]. simpl.
      split; [reflexivity|]. split; [repeat constructor|]. split; [lia|].
      split; [lia|]. split; [exact Hzero|discriminate].
  - exists [Queried req None]. simpl.
    split; [reflexivity|]. split; [repeat constructor|]. split; [lia|].
    split; [lia|]. split; [exact Hzero|discriminate].
Qed.

Lemma fetchPage_same_request (req : request) (w : world) :
  exists evs,
    events (fetchPage Do req w).2 = events w ++ evs /\
    Forall (fun ev => match ev with Queried q _ => q = req | Slept _ => True end) evs /\
    calls (fetchPage Do req w).2 = (calls w + requests evs)%nat.
Proof.
  unfold fetchPage.
  destruct (retryLoop_cost (Z.to_nat (maxRetries + 1)) 0 req w)
    as (evs & H1 & H2 & H3 & _); [lia|reflexivity|].
  exists evs. split; [exact H1|]. split; [exact H2|exact H3].
Qed.

(** X22.  Fetching one page sends between one and four requests, all of them
    the same request, sleeps at most 2 + 4 + 8 = 14 seconds in between
    and always comes back with a page or an error. *)
Theorem page_fetch_is_bounded (req : request) (w : world) :
  exists evs,
    events (fetchPage Do req w).2 = events w ++ evs /\
    Forall (fun ev => match ev with Queried q _ => q = req | Slept _ => True end) evs /\
    calls (fetchPage Do req w).2 = (calls w + requests evs)%nat /\
    (1 <= requests evs <= 4)%nat /\
    sleptTotal evs <= 14 * second /\
    (fetchPage Do req w).1 <> Exhausted.
Proof.
  unfold fetchPage.
  destruct (retryLoop_cost (Z.to_nat (maxRetries + 1)) 0 req w)
    as (evs & H1 & H2 & H3 & H4 & H5 & H6); [lia|reflexivity|].
  exists evs. split; [exact H1|]. split; [exact H2|]. split; [exact H3|].
  split; [exact H4|]. split; [exact H5|exact H6].
Qed.

End Fetch.

Section Pages.

Context {activity info : Type}.
Variable convert : activity -> info.
Variable Do : nat -> request -> answer activity.

Lemma pageLoop_asks (fuel : nat) :
  forall maxResults req pageToken pageCount activities w r w',
    pageLoop convert Do fuel maxResults req pageToken pageCount activities w = Some (r, w') ->
    exists evs,
      events w' = events w ++ evs /\
      Forall (asks (PageSize req) (Filter req)) evs /\
      calls w' = (calls w + requests evs)%nat.
Proof.
  induction fuel as [|fuel IH];
    intros maxResults req pageToken pageCount activities w r w'; cbn [pageLoop];
    [discriminate|].
  set (req' := if negb (is_empty pageToken) then _ else _).
  assert (Hreq' : PageSize req' = PageSize req /\ Filter req' = Filter req).
  { unfold req'. destruct (negb (is_empty pageToken)); split; reflexivity. }
  destruct (fetchPage_same_request Do req' w) as (evs & Hev & Hsame & Hcalls).
  assert (Hasks : Forall (asks (PageSize req) (Filter req)) evs).
  { eapply Forall_impl; [exact Hsame|]. intros [q err|d] Hq; simpl; [|exact I].
    subst q. exact Hreq'. }
  destruct (fetchPage Do req' w) as [[resp|msg|] w1]; simpl in Hev, Hcalls.
  - set (w2 := if Z.rem (pageCount + 1) maxPagesPerBatch =? 0 then _ else _).
    assert (Hw2 : exists evs2,
               events w2 = events w ++ evs2 /\
               Forall (asks (PageSize req) (Filter req)) evs2 /\
               calls w2 = (calls w + requests evs2)%nat).
    { unfold w2. destruct (Z.rem (pageCount + 1) maxPagesPerBatch =? 0).
      - exists (evs ++ [Slept (60 * second)]). unfold sleep. simpl.
        rewrite Hev, <- app_assoc, requests_app. simpl.
        split; [reflexivity|]. split; [|lia].
        apply Forall_app. split; [exact Hasks|]. repeat constructor.
      - exists evs. auto. }
    destruct Hw2 as (evs2 & Hev2 & Hasks2 & Hcalls2).
    destruct (processPage convert maxResults (Activities resp) activities) as [acts [|]].
    + intros [= <- <-]. exists evs2. auto.
    + destruct (is_empty (NextPageToken resp)); [intros [= <- <-]; exists evs2; auto|].
      destruct ((maxResults >? 0) && (Z.of_nat (length acts) >=? maxResults));
        [intros [= <- <-]; exists evs2; auto|].
      intros Hloop. apply IH in Hloop as (evs3 & Hev3 & Hasks3 & Hcalls3).
      destruct Hreq' as [Hsize Hfilter]. rewrite Hsize, Hfilter in Hasks3.
      exists (evs2 ++ evs3). rewrite Hev3, Hev2, <- app_assoc, requests_app.
      split; [reflexivity|]. split; [apply Forall_app; auto|lia].
  - intros [= <- <-]. exists evs. auto.
  - discriminate.
Qed.

(** X23.  All the requests of a query ask for the same page size, which is
    [maxResults] when it lies between 1 and 99 and 100 otherwise, and
    for the same time filter, which is empty when [daysBack] is not
    positive; and the query counts every request it sends. *)
Theorem query_asks_for_the_same_pages
        (timeFilter : Z -> string) (fuel : nat) (daysBack maxResults : Z)
        (r : list info + string) (w : world) :
  QueryDriveActivity convert timeFilter Do fuel daysBack maxResults world0 = Some (r, w) ->
  let size := if (maxResults >? 0) && (maxResults <? 100) then maxResults else 100 in
  let filter := if daysBack >? 0 then timeFilter daysBack else EmptyString in
  1 <= size <= 100 /\
  Forall (asks size filter) (events w) /\
  calls w = requests (events w).
Proof.
  unfold QueryDriveActivity. intros H.
  apply pageLoop_asks in H as (evs & Hev & Hasks & Hcalls).
  simpl in Hev, Hasks, Hcalls. subst evs.
  split; [|split; [exact Hasks|exact Hcalls]].
  destruct (Z.gtb_spec maxResults 0); destruct (Z.ltb_spec maxResults 100); simpl; lia.
Qed.

End Pages.

Lemma query_asks_for_the_same_pages_witness :
  exists r w,
    QueryDriveActivity (fun a : nat => a) (fun _ => "time >= x"%string) fullPages 5 7 250 world0
    = Some (r, w) /\
    Forall (asks 100 "time >= x") (events w) /\
    calls w = 3%nat.
Proof.
  eexists. eexists.
  assert (H : QueryDriveActivity (fun a : nat => a) (fun _ => "time >= x"%string)
                fullPages 5 7 250 world0
              = Some (inl (seq 0 250),
                      mkWorld 3 [ Queried (mkRequest 100 "time >= x" EmptyString) None;
                                  Queried (mkRequest 100 "time >= x" "next") None;
                                  Queried (mkRequest 100 "time >= x" "next") None ]))
    by (vm_compute; reflexivity).
  split; [exact H|].
  destruct (query_asks_for_the_same_pages (fun a : nat => a) fullPages
              (fun _ => "time >= x"%string) 5 7 250 _ _ H) as (_ & Hasks & _).
  split; [exact Hasks|reflexivity].
Defined.

(** *** The cap of the history tool *)

Lemma capped_from_one (outOfRange : Q -> Z) (args : gmap string Json.value) :
  capped args -> 1 <= historyMaxResults outOfRange args.
Proof.
  unfold capped, historyMaxResults, float64Arg.
  assert (Hclamp : forall m, 1 <= m -> 1 <= (if m >? 200 then 200 else m)).
  { intros m Hm. destruct (Z.gtb_spec m 200); lia. }
  destruct (args !! "maxResults"%string) as [[| |mr| | |]|];
    try (intros _; apply Hclamp; lia).
  unfold positive, toInt64, truncate, Qle, Qlt. destruct mr as [num den]. simpl.
  intros [Hle|[Hge Hlt]]; apply Hclamp.
  - destruct (Z.ltb_spec 0 num); lia.
  - destruct (Z.ltb_spec 0 num) as [Hpos|]; [|lia].
    rewrite Z.quot_div_nonneg by lia.
    assert (H1 : 1 <= num / Z.pos den) by (apply Z.div_le_lower_bound; lia).
    assert (H2 : num / Z.pos den < 2 ^ 63) by (apply Z.div_lt_upper_bound; lia).
    destruct (Z.leb_spec (- 2 ^ 63) (num / Z.pos den)); [|lia].
    destruct (Z.ltb_spec (num / Z.pos den) (2 ^ 63)); [|lia].
    simpl. exact H1.
Qed.

(** X2.  The history tool returns at most 200 activities whenever its
    [maxResults] argument is absent, is not a number, is not positive,
    or is at least 1 and below 2^63. *)
Theorem history_cap_outside_the_gaps
        {activity info : Type} (convert : activity -> info)
        (timeFilter : Z -> string) (Do : nat -> request -> answer activity)
        (outOfRange : Q -> Z) (fuel : nat) (args : gmap string Json.value)
        (result : list info) :
  capped args ->
  activityHistoryHandler convert timeFilter Do outOfRange fuel args = Some (inl result) ->
  (length result <= 200)%nat.
Proof.
  intros Hargs Hrun.
  apply (ActivityFacts.activityHistoryHandler_bound convert timeFilter Do outOfRange
           fuel args result); [|exact Hrun].
  apply capped_from_one. exact Hargs.
Qed.

(** The cap at work: asked for 250 results from an upstream with full
    pages, the tool returns 200. *)
Lemma history_cap_outside_the_gaps_witness :
  let args : gmap string Json.value := {[ "maxResults"%string := Json.Number (250 # 1) ]} in
  capped args /\
  activityHistoryHandler (fun a : nat => a) (fun _ => EmptyString) fullPages
                         (fun _ => 0) 5 args = Some (inl (seq 0 200)) /\
  (length (seq 0 200) <= 200)%nat.
Proof.
  intros args.
  assert (H1 : capped args).
  { right. split; [discriminate|reflexivity]. }
  assert (H2 : activityHistoryHandler (fun a : nat => a) (fun _ => EmptyString) fullPages
                 (fun _ => 0) 5 args = Some (inl (seq 0 200)))
    by (vm_compute; reflexivity).
  split; [exact H1|]. split; [exact H2|].
  exact (history_cap_outside_the_gaps _ _ _ _ _ _ _ H1 H2).
Defined.

End ActivityMoreFacts.

(** ** Remote paths *)

Module PathsFacts.

Import Drive DriveMore ToolsMore OAuth2More Paths PathsSpec.

Lemma Contains_slash (c : ascii) (s : string) :
  Contains (String c s) "/" = Ascii.eqb c "/" || Contains s "/".
Proof.
  cbn [Contains]. f_equal. unfold HasPrefix. cbn [String.prefix].
  destruct (ascii_dec "/" c) as [<-|Hne].
  - destruct s; reflexivity.
  - symmetry. apply Ascii.eqb_neq. intros E. apply Hne. symmetry. exact E.
Qed.

Lemma Split_not_nil (s : string) : Split s <> [].
Proof.
  destruct s as [|c s]; simpl; [discriminate|].
  destruct (Ascii.eqb c "/"); [discriminate|]. destruct (Split s); discriminate.
Qed.

Lemma Split_no_slash (s : string) :
  Forall (fun part => Contains part "/" = false) (Split s).
Proof.
  induction s as [|c s IH]; simpl.
  - constructor; [reflexivity|constructor].
  - destruct (Ascii.eqb c "/") eqn:Hc.
    + constructor; [reflexivity|exact IH].
    + destruct (Split s) as [|part parts];
        [repeat constructor; rewrite Contains_slash, Hc; reflexivity|].
      inversion IH as [|? ? Hpart Hparts]; subst.
      constructor; [|exact Hparts]. rewrite Contains_slash, Hc. exact Hpart.
Qed.

Lemma Join_Split (s : string) : Join (Split s) = s.
Proof.
  induction s as [|c s IH]; simpl; [reflexivity|].
  destruct (Ascii.eqb_spec c "/") as [->|Hne].
  - pose proof (Split_not_nil s) as Hn.
    destruct (Split s) as [|part parts]; [contradiction|].
    cbn [Join]. cbn [Join] in IH. rewrite IH. reflexivity.
  - destruct (Split s) as [|part parts]; [simpl in IH; subst; reflexivity|].
    destruct parts as [|part' parts].
    + simpl in IH. subst. reflexivity.
    + cbn [Join] in IH |- *. rewrite <- IH. reflexivity.
Qed.

Lemma Split_head (s : string) (parts : list string) :
  Split s = EmptyString :: parts -> s = EmptyString \/ exists t, s = String "/" t.
Proof.
  destruct s as [|c s]; simpl; [left; reflexivity|].
  destruct (Ascii.eqb_spec c "/") as [->|Hne]; [right; eexists; reflexivity|].
  destruct (Split s); discriminate.
Qed.

Lemma Split_last (s : string) :
  last (Split s) = Some EmptyString ->
  s = EmptyString \/ exists v, s = (v ++ "/")%string.
Proof.
  induction s as [|c s IH]; [left; reflexivity|]. simpl. right.
  pose proof (Split_not_nil s) as Hn.
  destruct (Ascii.eqb_spec c "/") as [->|Hne].
  - destruct (Split s) as [|part parts] eqn:Hs; [contradiction|].
    rewrite last_cons_cons in H.
    destruct (IH H) as [->|[v ->]].
    + exists EmptyString. reflexivity.
    + exists (String "/" v). reflexivity.
  - destruct (Split s) as [|part parts] eqn:Hs; [contradiction|].
    destruct parts as [|part' parts]; [discriminate|].
    rewrite last_cons_cons in H.
    destruct (IH H) as [->|[v ->]].
    + discriminate.
    + exists (String c v). reflexivity.
Qed.

Lemma append_assoc (a b c : string) : ((a ++ b) ++ c = a ++ b ++ c)%string.
Proof. induction a as [|x a IH]; [reflexivity|]. exact (f_equal (String x) IH). Qed.

Lemma TrimLeftSlash_spec (s : string) :
  (exists n, s = (slashes n ++ TrimLeftSlash s)%string) /\
  (forall t, TrimLeftSlash s <> String "/" t).
Proof.
  induction s as [|c s [[n Hn] Hhead]]; simpl.
  - split; [exists 0%nat; reflexivity|discriminate].
  - destruct (Ascii.eqb_spec c "/") as [->|Hne].
    + split; [|exact Hhead]. exists (S n). exact (f_equal (String "/") Hn).
    + split; [exists 0%nat; reflexivity|]. intros t [= Hc _]. contradiction.
Qed.

Lemma TrimRightSlash_spec (s : string) :
  (exists n, s = (TrimRightSlash s ++ slashes n)%string) /\
  (forall v, TrimRightSlash s <> (v ++ "/")%string).
Proof.
  unfold TrimRightSlash, slashes.
  destruct (OAuth2MoreFacts.dropSlashes_spec (rev (list_ascii_of_string s))) as [[n Hn] Hhead].
  set (d := dropSlashes (rev (list_ascii_of_string s))) in *.
  split.
  - exists n. rewrite <- OAuth2MoreFacts.string_of_list_ascii_app.
    rewrite <- (string_of_list_ascii_of_string s) at 1. f_equal.
    rewrite <- (rev_involutive (list_ascii_of_string s)), Hn.
    rewrite rev_app_distr, rev_repeat. reflexivity.
  - intros v Hv. apply (f_equal list_ascii_of_string) in Hv.
    rewrite list_ascii_of_string_of_list_ascii, OAuth2MoreFacts.list_ascii_of_string_app in Hv.
    apply (f_equal (@rev ascii)) in Hv. rewrite rev_involutive, rev_app_distr in Hv.
    simpl in Hv. exact (Hhead _ Hv).
Qed.

Lemma TrimSlash_spec (s : string) :
  (exists a b, s = (slashes a ++ TrimSlash s ++ slashes b)%string) /\
  (forall t, TrimSlash s <> String "/" t) /\
  (forall v, TrimSlash s <> (v ++ "/")%string).
Proof.
  unfold TrimSlash.
  destruct (TrimRightSlash_spec s) as [[b Hb] Hend].
  destruct (TrimLeftSlash_spec (TrimRightSlash s)) as [[a Ha] Hhead].
  split; [|split; [exact Hhead|]].
  - exists a, b. rewrite <- append_assoc, <- Ha. exact Hb.
  - intros v Hv. apply (Hend (slashes a ++ v)%string).
    rewrite append_assoc, <- Hv. exact Ha.
Qed.

(** X24.  [ParseRemotePath] cuts a path at its slashes.  The path is the parts
    joined by slashes, with any number of slashes before and after; no
    part holds a slash; and the first and the last part are not empty.
    So slashes at the ends are ignored, while a doubled slash inside the
    path gives an empty part. *)
Theorem ParseRemotePath_parts (remotePath : string) :
  let parts := ParseRemotePath remotePath in
  (exists a b, remotePath = (slashes a ++ Join parts ++ slashes b)%string) /\
  Forall (fun part => Contains part "/" = false) parts /\
  (forall part, head parts = Some part \/ last parts = Some part -> part <> EmptyString).
Proof.
  unfold ParseRemotePath.
  destruct (TrimSlash_spec remotePath) as [(a & b & Hab) [Hhead Hend]].
  set (path := TrimSlash remotePath) in *.
  destruct (is_empty path) eqn:He.
  - apply StringsFacts.is_empty_true in He. rewrite He in Hab.
    split; [exists a, b; exact Hab|]. split; [constructor|].
    intros part [H|H]; discriminate.
  - assert (Hne : path <> EmptyString).
    { intros E. rewrite E in He. discriminate. }
    split; [exists a, b; rewrite Join_Split; exact Hab|].
    split; [apply Split_no_slash|].
    intros part [H|H] ->.
    + destruct (Split path) as [|part parts] eqn:Hs; [discriminate|].
      injection H as ->.
      destruct (Split_head _ _ Hs) as [E|[t E]]; [contradiction|exact (Hhead _ E)].
    + destruct (Split_last _ H) as [E|[v E]]; [contradiction|exact (Hend _ E)].
Qed.

Lemma dropSlashes_snoc (l : list ascii) (c : ascii) :
  dropSlashes (l ++ [c])
  = match dropSlashes l with
    | [] => if Ascii.eqb c "/" then [] else [c]
    | d => d ++ [c]
    end.
Proof.
  induction l as [|x l IH]; simpl; [reflexivity|].
  destruct (Ascii.eqb x "/"); [exact IH|reflexivity].
Qed.

Lemma TrimSlash_cons (s : string) : TrimSlash (String "/" s) = TrimSlash s.
Proof.
  unfold TrimSlash, TrimRightSlash. simpl. rewrite dropSlashes_snoc.
  destruct (dropSlashes (rev (list_ascii_of_string s))) as [|x d]; [reflexivity|].
  rewrite rev_app_distr. reflexivity.
Qed.

Lemma TrimSlash_snoc (s : string) : TrimSlash (s ++ "/") = TrimSlash s.
Proof.
  unfold TrimSlash, TrimRightSlash.
  rewrite OAuth2MoreFacts.list_ascii_of_string_app, rev_app_distr. reflexivity.
Qed.

Lemma TrimSlash_slashes_l (a : nat) (s : string) : TrimSlash (slashes a ++ s) = TrimSlash s.
Proof.
  induction a as [|a IH]; [reflexivity|].
  change (slashes (S a) ++ s)%string with (String "/" (slashes a ++ s)).
  rewrite TrimSlash_cons. exact IH.
Qed.

Lemma TrimSlash_slashes_r (b : nat) : forall s, TrimSlash (s ++ slashes b) = TrimSlash s.
Proof.
  induction b as [|b IH]; intros s.
  - unfold slashes. simpl. rewrite <- NamesFacts.append_empty_r. reflexivity.
  - change (slashes (S b)) with ("/" ++ slashes b)%string.
    rewrite <- append_assoc, IH. apply TrimSlash_snoc.
Qed.

(** X25.  Slashes around a path do not count, whatever their number, and a
    path made of slashes only is the root: it is resolved, and
    "created", without any request to the upstream. *)
Theorem outer_slashes_are_ignored
        (filesList : nat -> string -> list File + string)
        (create : nat -> newFolder -> File + string)
        (mustExist : bool) (a b : nat) (remotePath : string) :
  ParseRemotePath (slashes a ++ remotePath ++ slashes b) = ParseRemotePath remotePath /\
  ResolvePath filesList (slashes a) mustExist = inl "root"%string /\
  CreateFolderPath filesList create (slashes a) = (inl "root"%string, []).
Proof.
  assert (H0 : ParseRemotePath (slashes a) = []).
  { unfold ParseRemotePath.
    rewrite (NamesFacts.append_empty_r (slashes a)), TrimSlash_slashes_l. reflexivity. }
  split; [|split].
  - unfold ParseRemotePath. rewrite TrimSlash_slashes_l, TrimSlash_slashes_r. reflexivity.
  - unfold ResolvePath. rewrite H0. reflexivity.
  - unfold CreateFolderPath. rewrite H0. reflexivity.
Qed.

(** *** Resolving and creating *)

Section Upstream.

Variable filesList : nat -> string -> list File + string.
Variable create : nat -> newFolder -> File + string.

Lemma resolveFrom_lenient (remotePath : string) (parts : list string) :
  forall i currentID,
    (forall id, resolveFrom filesList remotePath true i parts currentID = inl id ->
                resolveFrom filesList remotePath false i parts currentID = inl id) /\
    (forall err, resolveFrom filesList remotePath false i parts currentID = inr err ->
                 resolveFrom filesList remotePath true i parts currentID = inr err).
Proof.
  induction parts as [|part rest IH]; intros i currentID; simpl.
  - split; [auto|discriminate].
  - destruct (FindItemByName (filesList i) part currentID DriveFolderMimeType)
      as [[item|]|err]; [apply IH|split; discriminate|split; auto].
Qed.

Lemma createFrom_found (remotePath : string) (parts : list string) :
  forall i currentID sent id,
    resolveFrom filesList remotePath true i parts currentID = inl id ->
    createFrom filesList create i parts currentID sent = (inl id, sent).
Proof.
  induction parts as [|part rest IH]; intros i currentID sent id; simpl.
  - intros [= ->]. reflexivity.
  - change "application/vnd.google-apps.folder"%string with DriveFolderMimeType.
    destruct (FindItemByName (filesList i) part currentID DriveFolderMimeType)
      as [[item|]|err]; [apply IH|discriminate..].
Qed.

Lemma createFrom_sent (parts : list string) :
  forall i currentID sent,
    exists added,
      (createFrom filesList create i parts currentID sent).2 = sent ++ added /\
      Forall (fun m => nf_MimeType m = DriveFolderMimeType) added /\
      sublist (map nf_Name added) parts.
Proof.
  induction parts as [|part rest IH]; intros i currentID sent; simpl.
  - exists []. rewrite app_nil_r. split; [reflexivity|]. split; constructor.
  - destruct (FindItemByName (filesList i) part currentID _) as [[item|]|err].
    + destruct (IH (S i) (Id item) sent) as (added & H1 & H2 & H3).
      exists added. split; [exact H1|]. split; [exact H2|]. apply sublist_cons. exact H3.
    + set (m := mkNewFolder part _ currentID).
      destruct (create i m) as [folder|err].
      * destruct (IH (S i) (Id folder) (sent ++ [m])) as (added & H1 & H2 & H3).
        exists (m :: added). rewrite H1, <- app_assoc. split; [reflexivity|].
        split; [constructor; [reflexivity|exact H2]|]. simpl. apply sublist_skip. exact H3.
      * exists [m]. simpl. split; [reflexivity|].
        split; [repeat constructor|]. apply sublist_skip. apply sublist_nil_l.
    + exists []. simpl. rewrite app_nil_r. split; [reflexivity|].
      split; [constructor|]. apply sublist_nil_l.
Qed.

(** X26.  On a path that exists, the three ways to walk it agree: when the
    strict resolution succeeds, the lenient one returns the same
    identifier and [CreateFolderPath] returns it too, without creating
    anything.  The lenient resolution fails only where the strict one
    fails with the same error, that is on an error of the upstream. *)
Theorem existing_path_is_kept (remotePath : string) :
  (forall id,
      ResolvePath filesList remotePath true = inl id ->
      ResolvePath filesList remotePath false = inl id /\
      CreateFolderPath filesList create remotePath = (inl id, [])) /\
  (forall err,
      ResolvePath filesList remotePath false = inr err ->
      ResolvePath filesList remotePath true = inr err).
Proof.
  unfold ResolvePath, CreateFolderPath.
  destruct (length (ParseRemotePath remotePath) =? 0)%nat.
  - split; [|discriminate]. intros id [= <-]. split; reflexivity.
  - split.
    + intros id H. split.
      * apply resolveFrom_lenient. exact H.
      * apply (createFrom_found remotePath). exact H.
    + intros err H. apply resolveFrom_lenient. exact H.
Qed.

(** X27.  [CreateFolderPath] creates nothing but folders named after the
    components of the path, at most one for each component and in their
    order. *)
Theorem only_components_are_created (remotePath : string) :
  let sent := (CreateFolderPath filesList create remotePath).2 in
  Forall (fun m => nf_MimeType m = DriveFolderMimeType) sent /\
  sublist (map nf_Name sent) (ParseRemotePath remotePath) /\
  (length sent <= length (ParseRemotePath remotePath))%nat.
Proof.
  unfold CreateFolderPath.
  assert (H : let sent := (createFrom filesList create 0 (ParseRemotePath remotePath)
                                      "root" []).2 in
              Forall (fun m => nf_MimeType m = DriveFolderMimeType) sent /\
              sublist (map nf_Name sent) (ParseRemotePath remotePath)).
  { destruct (createFrom_sent (ParseRemotePath remotePath) 0%nat "root"%string [])
      as (added & H1 & H2 & H3).
    simpl. rewrite H1. simpl. split; [exact H2|exact H3]. }
  destruct (length (ParseRemotePath remotePath) =? 0)%nat eqn:Hl; simpl.
  - split; [constructor|]. split; [apply sublist_nil_l|lia].
  - destruct H as [H2 H3]. split; [exact H2|]. split; [exact H3|].
    apply sublist_length in H3. rewrite length_map in H3. exact H3.
Qed.

End Upstream.

Lemma existing_path_is_kept_witness :
  ParseRemotePath "/a/b/" = ["a"; "b"]%string /\
  ParseRemotePath "a//b" = ["a"; EmptyString; "b"]%string /\
  ResolvePath twoFolders "/a/b/" true = inl "2"%string /\
  ResolvePath twoFolders "/a/b/" false = inl "2"%string /\
  CreateFolderPath twoFolders createAll "/a/b/" = (inl "2"%string, []) /\
  CreateFolderPath twoFolders createAll "a/c/d"
  = (inl "d"%string,
     [ mkNewFolder "c" "application/vnd.google-apps.folder" "1";
       mkNewFolder "d" "application/vnd.google-apps.folder" "c" ]).
Proof.
  assert (H : ResolvePath twoFolders "/a/b/" true = inl "2"%string)
    by (vm_compute; reflexivity).
  destruct (existing_path_is_kept twoFolders createAll "/a/b/") as [Hkept _].
  destruct (Hkept _ H) as [Hlenient Hcreate].
  split; [vm_compute; reflexivity|]. split; [vm_compute; reflexivity|].
  split; [exact H|]. split; [exact Hlenient|]. split; [exact Hcreate|].
  vm_compute. reflexivity.
Defined.

(** *** Downloads *)

(** X28.  What [DownloadFile] fetches.  A file that is not a Workspace file is
    downloaded to the path given.  A document, a spreadsheet or a
    presentation is exported to the MIME type of its default format, to
    the path with its extension replaced by that format.  Any other
    Workspace file is refused with "cannot export file type"; the error
    "unknown export format" is never produced. *)
Theorem DownloadFile_never_meets_an_unknown_format (fileMetadata : File) (localPath : string) :
  match DownloadFile_fetch fileMetadata localPath with
  | FilesGetMedia path => IsGoogleWorkspaceFile fileMetadata = false /\ path = localPath
  | FilesExport exportMimeType path =>
      IsGoogleWorkspaceFile fileMetadata = true /\
      exportMimeType <> EmptyString /\
      exportMimeType = GetExportMimeType (MimeType fileMetadata)
                         (GetDefaultExportFormat (MimeType fileMetadata)) /\
      exists baseName,
        localPath = (baseName ++ Ext localPath)%string /\
        path = (baseName ++ "." ++ GetDefaultExportFormat (MimeType fileMetadata))%string
  | NoFetch err =>
      IsGoogleWorkspaceFile fileMetadata = true /\
      (forall format, GetExportMimeType (MimeType fileMetadata) format = EmptyString) /\
      err = ("cannot export file type: " ++ MimeType fileMetadata)%string
  end.
Proof.
  unfold DownloadFile_fetch.
  destruct (IsGoogleWorkspaceFile fileMetadata); [|split; reflexivity].
  pose proof (DriveMoreFacts.default_in_table (MimeType fileMetadata)) as H.
  unfold GetExportMimeType.
  destruct (lookup (MimeType fileMetadata) ExportFormats) as [formats|].
  - destruct H as (exportMimeType & Hl & Hm & Hd).
    rewrite (StringsFacts.is_empty_false _ Hd), Hl, (StringsFacts.is_empty_false _ Hm).
    split; [reflexivity|]. split; [exact Hm|]. split; [reflexivity|].
    apply NamesFacts.AdjustFilename_split. exact Hd.
  - rewrite H. simpl. split; [reflexivity|]. split; reflexivity.
Qed.

End PathsFacts.

(** ** The credential shapes, once more *)

Module CredentialsMoreFacts.

Import OAuth2 Credentials CredentialsSpec.

Lemma parseCredentials_complete_witness :
  parseCredentials (Some (webShape (Some "web-id"%string) (Some "s3cret"%string)))
  = inl (mkCreds "web-id" "s3cret") /\
  parseCredentials (Some (installedShape (Some "web-id"%string) (Some "s3cret"%string)))
  = inl (mkCreds "web-id" "s3cret") /\
  parseCredentials (Some (flatShape (Some "web-id"%string) (Some "s3cret"%string)))
  = inl (mkCreds "web-id" "s3cret").
Proof.
  apply (CredentialsFacts.parseCredentials_complete "web-id" "s3cret"); discriminate.
Defined.

End CredentialsMoreFacts.

(** ** The search query *)

Module SearchFacts.

Import Drive DriveMore DriveMoreSpec Search.

Lemma prefix_append (sub rest : string) : String.prefix sub (sub ++ rest) = true.
Proof.
  induction sub as [|c sub IH]; [destruct rest; reflexivity|].
  change (String c sub ++ rest)%string with (String c (sub ++ rest)).
  cbn [String.prefix]. destruct (ascii_dec c c) as [_|Hne]; [exact IH|contradiction].
Qed.

Lemma prefix_append_r (sub s rest : string) :
  String.prefix sub s = true -> String.prefix sub (s ++ rest) = true.
Proof.
  revert s. induction sub as [|c sub IH]; intros s H.
  - destruct (s ++ rest)%string; reflexivity.
  - destruct s as [|d s]; [discriminate|].
    change (String d s ++ rest)%string with (String d (s ++ rest)).
    cbn [String.prefix] in H |- *.
    destruct (ascii_dec c d); [apply IH; exact H|discriminate].
Qed.

Lemma Contains_append_r (a b sub : string) :
  Contains b sub = true -> Contains (a ++ b) sub = true.
Proof.
  intros H. induction a as [|c a IH]; [exact H|].
  change (String c a ++ b)%string with (String c (a ++ b)).
  cbn [Contains]. rewrite IH. apply orb_true_r.
Qed.

Lemma Contains_append_l (a b sub : string) :
  Contains a sub = true -> Contains (a ++ b) sub = true.
Proof.
  induction a as [|c a IH]; intros H.
  - cbn [Contains] in H. rewrite orb_false_r in H. unfold HasPrefix in H.
    destruct sub; [|discriminate].
    destruct b; reflexivity.
  - change (String c a ++ b)%string with (String c (a ++ b)).
    cbn [Contains] in H |- *. apply orb_true_iff in H as [H|H].
    + unfold HasPrefix in *.
      change (String c (a ++ b)) with (String c a ++ b)%string.
      rewrite (prefix_append_r _ _ _ H). reflexivity.
    + rewrite (IH H). apply orb_true_r.
Qed.

Lemma Contains_self (s rest : string) : Contains (s ++ rest) s = true.
Proof.
  destruct s as [|c s]; [destruct rest; reflexivity|].
  change (String c s ++ rest)%string with (String c (s ++ rest)).
  cbn [Contains]. unfold HasPrefix.
  change (String c (s ++ rest)) with (String c s ++ rest)%string.
  rewrite prefix_append. reflexivity.
Qed.

Lemma strings_Join_contains (sep e : string) (elems : list string) :
  e ∈ elems -> Contains (strings_Join elems sep) e = true.
Proof.
  induction elems as [|x [|y rest] IH]; intros H.
  - apply elem_of_nil in H. contradiction.
  - apply list_elem_of_singleton in H as ->. cbn [strings_Join].
    rewrite (NamesFacts.append_empty_r x) at 1. apply Contains_self.
  - apply elem_of_cons in H as [->|H].
    + apply Contains_self.
    + change (strings_Join (x :: y :: rest) sep)
        with (x ++ sep ++ strings_Join (y :: rest) sep)%string.
      apply Contains_append_r, Contains_append_r, IH, H.
Qed.

(** X29.  A type filter that stands for nothing is dropped without a word:
    when no entry of [fileTypes] is a MIME type or a known shortcut, the
    search sends the query it sends without any type, so it returns
    files of every type.  Otherwise every MIME type that an entry stands
    for is named by a condition of the query. *)
Theorem unknown_types_do_not_filter
        (filesList : string -> Z -> list File + string) (ToLower : string -> string)
        (query : string) (fileTypes : list string) (maxResults : Z) :
  ((forall fileType mimeType, fileType ∈ fileTypes -> ~ yields ToLower fileType mimeType) ->
   SearchFiles filesList ToLower query fileTypes maxResults
   = SearchFiles filesList ToLower query [] maxResults) /\
  (forall fileType mimeType,
      fileType ∈ fileTypes -> yields ToLower fileType mimeType ->
      Contains (searchQuery ToLower query fileTypes)
               ("mimeType = '" ++ mimeType ++ "'") = true).
Proof.
  destruct (DriveMoreFacts.expandFrom_spec ToLower fileTypes ([], ∅)) as [_ Hx].
  { split; simpl; [apply NoDup_nil_2|]. intros x. rewrite elem_of_nil, elem_of_empty. tauto. }
  fold (ExpandFileTypes ToLower fileTypes) in Hx.
  split.
  - intros Hnone. unfold SearchFiles, searchQuery.
    destruct (ExpandFileTypes ToLower fileTypes) as [|m rest] eqn:He.
    + destruct (0 <? length fileTypes)%nat; reflexivity.
    + exfalso. assert (Hm : m ∈ m :: rest) by (apply elem_of_cons; auto).
      apply Hx in Hm as [Hm|(fileType & Hin & Hy)].
      * simpl in Hm. apply elem_of_nil in Hm. contradiction.
      * exact (Hnone _ _ Hin Hy).
  - intros fileType mimeType Hin Hy. unfold searchQuery.
    assert (Hm : mimeType ∈ ExpandFileTypes ToLower fileTypes).
    { apply Hx. right. exists fileType. split; assumption. }
    destruct fileTypes as [|ft fts]; [apply elem_of_nil in Hin; contradiction|].
    cbn [length Nat.ltb Nat.leb].
    destruct (ExpandFileTypes ToLower (ft :: fts)) as [|m rest] eqn:He;
      [apply elem_of_nil in Hm; contradiction|].
    cbn [length Nat.ltb Nat.leb].
    apply Contains_append_r, Contains_append_r, Contains_append_l.
    apply strings_Join_contains.
    apply (list_elem_of_fmap_2 (fun mime => ("mimeType = '" ++ mime ++ "'")%string)).
    exact Hm.
Qed.

Lemma unknown_types_do_not_filter_witness :
  searchQuery (fun s => s) "report" ["nosuch"%string]
  = "name contains 'report' and trashed = false"%string /\
  searchQuery (fun s => s) "report" ["pdf"; "text/x-tex"; "pdf"]%string
  = ("name contains 'report' and trashed = false and " ++
     "(mimeType = 'application/pdf' or mimeType = 'text/x-tex')")%string /\
  SearchFiles (fun _ _ => inl []) (fun s => s) "report" ["nosuch"%string] 50
  = SearchFiles (fun _ _ => inl []) (fun s => s) "report" [] 50.
Proof.
  split; [vm_compute; reflexivity|]. split; [vm_compute; reflexivity|].
  apply (unknown_types_do_not_filter (fun _ _ => inl []) (fun s => s) "report"
           ["nosuch"%string] 50).
  intros fileType mimeType Hin Hy.
  apply list_elem_of_singleton in Hin as ->. exact Hy.
Defined.

End SearchFacts.

(** ** Where the credentials come from *)

Module LoaderFacts.

Import OAuth2 Credentials Loader LoaderSpec.

Lemma parseCredentials_has_client_id (data : option Json.value) (creds : OAuthCredentials) :
  parseCredentials data = inl creds -> ClientID creds <> EmptyString.
Proof.
  unfold parseCredentials.
  assert (Hflat : forall v,
             match intoCreds v zeroCreds with
             | (_, false) => inr ParseError
             | (c, true) =>
                 if is_empty (ClientID c) || is_empty (ClientSecret c)
                 then inr MissingFields else inl c
             end = inl creds -> ClientID creds <> EmptyString).
  { intros v. destruct (intoCreds v zeroCreds) as [c [|]]; [|discriminate].
    destruct (is_empty (ClientID c)) eqn:Hid; [discriminate|].
    destruct (is_empty (ClientSecret c)); [discriminate|].
    intros [= <-] E. rewrite E in Hid. discriminate. }
  destruct data as [v|]; [|discriminate].
  destruct (intoWrapper v zeroWrapper) as [w [|]]; [|apply Hflat].
  destruct (is_empty (ClientID (Web w))) eqn:Hweb; simpl.
  - destruct (is_empty (ClientID (Installed w))) eqn:Hinst; simpl; [apply Hflat|].
    intros [= <-] E. simpl in E. rewrite E in Hinst. discriminate.
  - intros [= <-] E. simpl in E. rewrite E in Hweb. discriminate.
Qed.

Lemma loaded_has_client_id (w : sources) (creds : OAuthCredentials) :
  (forall data, parsed data = inl creds -> ClientID creds <> EmptyString) /\
  (forall path, loadFromFile w path = inl creds -> ClientID creds <> EmptyString) /\
  (forall paths, tryDefaults w paths = inl creds -> ClientID creds <> EmptyString).
Proof.
  assert (Hp : forall data, parsed data = inl creds -> ClientID creds <> EmptyString).
  { intros data. unfold parsed.
    destruct (parseCredentials data) as [c|e] eqn:H; [|discriminate].
    intros [= <-]. exact (parseCredentials_has_client_id _ _ H). }
  assert (Hf : forall path, loadFromFile w path = inl creds -> ClientID creds <> EmptyString).
  { intros path. unfold loadFromFile. destruct (ReadFile w path); [apply Hp|discriminate]. }
  split; [exact Hp|]. split; [exact Hf|].
  induction paths as [|path rest IH]; simpl; [discriminate|].
  destruct (Stat w path); [apply Hf|exact IH].
Qed.

(** X30.  The credentials come from the first source that works, and they
    always have a client identifier.  A secret that loads is used
    whatever the files hold; a secret that fails in any way, also one
    that is malformed, is passed over in silence as if none had been
    named.  An explicit credential file decides alone, also when it
    fails; without one the first default location that exists decides
    alone, also when it fails, and with none the loader reports that no
    credentials were found. *)
Theorem credentials_come_from_the_first_source
        (w : sources) (secretName secretProject credentialFile : string) :
  let result := LoadOAuthCredentials w secretName secretProject credentialFile in
  let fromFiles := LoadOAuthCredentials w EmptyString EmptyString credentialFile in
  (forall creds, result = inl creds -> ClientID creds <> EmptyString) /\
  (forall creds,
      secretName <> EmptyString -> secretProject <> EmptyString ->
      loadFromSecretManager w secretName secretProject = inl creds ->
      result = inl creds) /\
  (secretName = EmptyString \/ secretProject = EmptyString \/
   (exists e, loadFromSecretManager w secretName secretProject = inr e) ->
   result = fromFiles) /\
  (credentialFile <> EmptyString -> fromFiles = loadFromFile w credentialFile) /\
  (credentialFile = EmptyString ->
   fromFiles = match List.filter (Stat w) defaultLocations with
               | first :: _ => loadFromFile w first
               | [] => inr NotFound
               end).
Proof.
  cbv zeta.
  assert (Hfiles : LoadOAuthCredentials w EmptyString EmptyString credentialFile
                   = if negb (is_empty credentialFile) then loadFromFile w credentialFile
                     else tryDefaults w defaultLocations) by reflexivity.
  split; [|split; [|split; [|split]]].
  - intros creds. unfold LoadOAuthCredentials.
    destruct (loaded_has_client_id w creds) as (Hp & Hf & Hd).
    assert (Hfrom : (if negb (is_empty credentialFile) then loadFromFile w credentialFile
                     else tryDefaults w defaultLocations) = inl creds ->
                    ClientID creds <> EmptyString).
    { destruct (negb (is_empty credentialFile)); [apply Hf|apply Hd]. }
    destruct (negb (is_empty secretName) && negb (is_empty secretProject)); [|exact Hfrom].
    destruct (loadFromSecretManager w secretName secretProject) as [c|e] eqn:Hs;
      [|exact Hfrom].
    intros [= <-]. unfold loadFromSecretManager in Hs.
    destruct (NewClient w); [discriminate|].
    destruct (AccessSecretVersion w _); [exact (Hp _ Hs)|discriminate].
  - intros creds Hn Hpj Hs. unfold LoadOAuthCredentials.
    rewrite (StringsFacts.is_empty_false _ Hn), (StringsFacts.is_empty_false _ Hpj), Hs.
    reflexivity.
  - intros H. rewrite Hfiles. unfold LoadOAuthCredentials.
    destruct H as [->|[->|[e He]]].
    + reflexivity.
    + rewrite andb_false_r. reflexivity.
    + rewrite He. destruct (_ && _); reflexivity.
  - intros H. rewrite Hfiles, (StringsFacts.is_empty_false _ H). reflexivity.
  - intros ->. rewrite Hfiles. simpl.
    destruct (Stat w "credentials.json"); [reflexivity|].
    destruct (Stat w "google_credentials.json"); reflexivity.
Qed.

Lemma credentials_come_from_the_first_source_witness :
  LoadOAuthCredentials brokenSecret "oauth" "project-1" EmptyString
  = inr (Malformed MissingFields) /\
  LoadOAuthCredentials brokenSecret "oauth" "project-1" "google_credentials.json"
  = inl (mkCreds "id-2" "secret-2").
Proof.
  destruct (credentials_come_from_the_first_source brokenSecret "oauth" "project-1"
              EmptyString) as (_ & _ & Hfall & _ & Hdefault).
  destruct (credentials_come_from_the_first_source brokenSecret "oauth" "project-1"
              "google_credentials.json") as (_ & _ & Hfall' & Hfile & _).
  split.
  - rewrite Hfall by (right; right; eexists; reflexivity).
    rewrite Hdefault by reflexivity. reflexivity.
  - rewrite Hfall' by (right; right; eexists; reflexivity).
    rewrite Hfile by discriminate. reflexivity.
Defined.

End LoaderFacts.
